(** * csv-merge: a shallow embedding of the merge-and-reconcile engine

    The development follows the TypeScript sources [utils.ts],
    [csv-reader.ts], [csv-writer.ts] and [merger.ts] as Node runs them.

    - A string is the sequence of the bytes of its UTF-8 encoding.  The
      needles of the code ([_], [/], [.csv], the warning sign) are searched
      for byte-wise, which finds the same occurrences; an index counts
      bytes, and is only used to cut the string where the needle stands.
      [trim] knows every white-space and line-terminator character of
      ECMAScript; [toLowerCase] is computed on ASCII strings and is the
      case mapping of the runtime on the others.
    - A value read from an object is a string or a member that every
      object inherits from [Object.prototype] ([constructor], [toString],
      ...).  An object is the list of its own properties in the order in
      which JavaScript enumerates them: array indices first, in ascending
      numeric order, then the other keys in the order of their creation.
      Reading a key follows the prototype chain, and so does [in];
      assigning to [__proto__] creates no property.
    - A [Map] keeps its keys in insertion order; a [Set<string>] is a
      [gset string].
    - A computation threads the console, the directories created, the
      files written and the [result] object of [mergeCsvFiles].  It returns
      a value, throws an [Error] (kept as its message), or never comes
      back: the process dies on an [error] event that has no listener, or
      the promise awaited never settles. *)

From Stdlib Require Import Ascii String.
From stdpp Require Import base option list strings gmap sorting pretty.

(** ** JavaScript strings *)

Module JsString.

Definition toLowerCase_char (c : ascii) : ascii :=
  let n := nat_of_ascii c in
  if (65 <=? n)%nat && (n <=? 90)%nat then ascii_of_nat (n + 32) else c.

Fixpoint toLowerCase_ascii (s : string) : string :=
  match s with
  | EmptyString => EmptyString
  | String c s' => String (toLowerCase_char c) (toLowerCase_ascii s')
  end.

(** A string of ASCII characters only. *)
Fixpoint is_ascii (s : string) : bool :=
  match s with
  | EmptyString => true
  | String c s' => (nat_of_ascii c <? 128)%nat && is_ascii s'
  end.

(** [s.toLowerCase()]: the letters A to Z are mapped to a to z; on a string
    with a character outside ASCII the result is the one of the Unicode
    case mapping of the runtime, [unicode]. *)
Definition toLowerCase (unicode : string -> string) (s : string) : string :=
  if is_ascii s then toLowerCase_ascii s else unicode s.

(** [s.indexOf(c)] for a one-character needle; [None] stands for [-1]. *)
Fixpoint indexOf (c : ascii) (s : string) : option nat :=
  match s with
  | EmptyString => None
  | String a s' => if Ascii.eqb a c then Some 0%nat else S <$> indexOf c s'
  end.

(** [s.lastIndexOf(c)] for a one-character needle; [None] stands for [-1]. *)
Fixpoint lastIndexOf (c : ascii) (s : string) : option nat :=
  match s with
  | EmptyString => None
  | String a s' =>
      match lastIndexOf c s' with
      | Some i => Some (S i)
      | None => if Ascii.eqb a c then Some 0%nat else None
      end
  end.

(** [s.substring(0, n)] *)
Fixpoint substring0 (n : nat) (s : string) : string :=
  match n, s with
  | S n', String a s' => String a (substring0 n' s')
  | _, _ => EmptyString
  end.

(** [s.startsWith(p)] *)
Fixpoint startsWith (p s : string) : bool :=
  match p, s with
  | EmptyString, _ => true
  | String a p', String b s' => Ascii.eqb a b && startsWith p' s'
  | String _ _, EmptyString => false
  end.

(** [s.endsWith(p)] *)
Definition endsWith (p s : string) : bool :=
  startsWith (String.rev p) (String.rev s).

(** [s.includes(p)] *)
Fixpoint includes (p s : string) : bool :=
  startsWith p s ||
  match s with
  | EmptyString => false
  | String _ s' => includes p s'
  end.

(** The string without a leading white-space or line-terminator character,
    when it starts with one.  These are the characters that [trim] removes:
    U+0009 to U+000D, U+0020, U+00A0, U+1680, U+2000 to U+200A, U+2028,
    U+2029, U+202F, U+205F, U+3000 and U+FEFF, here in UTF-8. *)
Definition strip_space (s : string) : option string :=
  match s with
  | EmptyString => None
  | String a s1 =>
      let x := nat_of_ascii a in
      if (9 <=? x)%nat && (x <=? 13)%nat || (x =? 32)%nat then Some s1
      else
        match s1 with
        | EmptyString => None
        | String b s2 =>
            let y := nat_of_ascii b in
            if (x =? 194)%nat && (y =? 160)%nat then Some s2
            else
              match s2 with
              | EmptyString => None
              | String c s3 =>
                  let z := nat_of_ascii c in
                  if (x =? 225)%nat && (y =? 154)%nat && (z =? 128)%nat
                  then Some s3
                  else if (x =? 226)%nat && (y =? 128)%nat &&
                          ((128 <=? z)%nat && (z <=? 138)%nat ||
                           (z =? 168)%nat || (z =? 169)%nat || (z =? 175)%nat)
                  then Some s3
                  else if (x =? 226)%nat && (y =? 129)%nat && (z =? 159)%nat
                  then Some s3
                  else if (x =? 227)%nat && (y =? 128)%nat && (z =? 128)%nat
                  then Some s3
                  else if (x =? 239)%nat && (y =? 187)%nat && (z =? 191)%nat
                  then Some s3
                  else None
              end
        end
  end.

Fixpoint trimStart_upto (n : nat) (s : string) : string :=
  match n with
  | O => s
  | S n' =>
      match strip_space s with
      | Some s' => trimStart_upto n' s'
      | None => s
      end
  end.

(** [s.trimStart()] *)
Definition trimStart (s : string) : string := trimStart_upto (String.length s) s.

Fixpoint whitespace_only_upto (n : nat) (s : string) : bool :=
  match s with
  | EmptyString => true
  | String _ _ =>
      match n with
      | O => false
      | S n' =>
          match strip_space s with
          | Some s' => whitespace_only_upto n' s'
          | None => false
          end
      end
  end.

(** A string made of white space only (the empty string included). *)
Definition whitespace_only (s : string) : bool :=
  whitespace_only_upto (String.length s) s.

(** [s.trimEnd()]: the string up to the start of its longest suffix of white
    space. *)
Fixpoint trimEnd (s : string) : string :=
  if whitespace_only s then EmptyString
  else
    match s with
    | EmptyString => EmptyString
    | String a s' => String a (trimEnd s')
    end.

(** [s.trim()] *)
Definition trim (s : string) : string := trimEnd (trimStart s).

(** [xs.join(sep)] *)
Fixpoint join (sep : string) (xs : list string) : string :=
  match xs with
  | [] => ""
  | [x] => x
  | x :: xs' => x +:+ sep +:+ join sep xs'
  end.

(** A string without the character [c]. *)
Fixpoint lacks (c : ascii) (s : string) : Prop :=
  match s with
  | EmptyString => True
  | String a s' => a <> c /\ lacks c s'
  end.

End JsString.

(** ** JavaScript values

    What the code reads from an object typed as a row or as the prefix
    table: a string, or [Object.prototype[name]] for a name that the object
    does not own; the latter is a function, or [Object.prototype] itself for
    the name [__proto__]. *)

Inductive JsValue :=
| Str (s : string)
| Inherited (name : string).

#[global] Instance JsValue_eq_dec : EqDecision JsValue.
Proof. solve_decision. Defined.

Module JsValue.

(** [!!v] *)
Definition truthy (v : JsValue) : bool :=
  match v with
  | Str s => negb (bool_decide (s = ""))
  | Inherited _ => true
  end.

(** [x || ""] for [x] a value or [undefined]. *)
Definition or_empty (x : option JsValue) : JsValue :=
  match x with
  | Some v => if truthy v then v else Str ""
  | None => Str ""
  end.

(** The name in the source text of a built-in function. *)
Definition function_name (name : string) : string :=
  if decide (name = "constructor") then "Object" else name.

(** [`${v}`] *)
Definition toString (v : JsValue) : string :=
  match v with
  | Str s => s
  | Inherited name =>
      if decide (name = "__proto__") then "[object Object]"
      else "function " +:+ function_name name +:+ "() { [native code] }"
  end.

(** The value is a string. *)
Definition is_text (v : JsValue) : bool :=
  match v with
  | Str _ => true
  | Inherited _ => false
  end.

End JsValue.

(** ** Insertion-ordered string-keyed tables: [Map<string, V>] *)

Module JsMap.

Abbreviation t V := (list (string * V)).

(** [m.get(k)]; [None] stands for [undefined]. *)
Fixpoint get {V} (m : t V) (k : string) : option V :=
  match m with
  | [] => None
  | (k', v) :: m' => if decide (k' = k) then Some v else get m' k
  end.

(** [m.set(k, v)]: an existing key keeps its position, a new key is
    appended. *)
Fixpoint set {V} (m : t V) (k : string) (v : V) : t V :=
  match m with
  | [] => [(k, v)]
  | (k', v') :: m' =>
      if decide (k' = k) then (k', v) :: m' else (k', v') :: set m' k v
  end.

(** [Array.from(m.entries())] *)
Definition entries {V} (m : t V) : list (string * V) := m.

End JsMap.

(** ** JavaScript objects used as rows and as the prefix table

    An object created by a literal or by the CSV parser: its prototype is
    [Object.prototype], and it is given by its own properties, listed as
    [Object.keys] lists them. *)

Module JsObject.

Abbreviation t := (list (string * JsValue)).

(** The property names of [Object.prototype]. *)
Definition prototype_names : list string :=
  ["constructor"; "__defineGetter__"; "__defineSetter__"; "hasOwnProperty";
   "__lookupGetter__"; "__lookupSetter__"; "isPrototypeOf";
   "propertyIsEnumerable"; "toString"; "valueOf"; "__proto__";
   "toLocaleString"].

Fixpoint digits (s : string) (acc : N) : option N :=
  match s with
  | EmptyString => Some acc
  | String a s' =>
      let n := N_of_ascii a in
      if (48 <=? n)%N && (n <=? 57)%N then digits s' (10 * acc + (n - 48))%N
      else None
  end.

(** The number a key stands for when the key is an array index: a key that
    is the decimal form of an integer from 0 to 2^32 - 2. *)
Definition array_index (k : string) : option N :=
  match digits k 0%N with
  | Some n =>
      if (n <? 4294967295)%N && bool_decide (pretty n = k) then Some n else None
  | None => None
  end.

(** [Object.keys(o)] *)
Definition keys (o : t) : list string := o.*1.

(** [Object.entries(o)] *)
Definition entries (o : t) : list (string * JsValue) := o.

(** The own property [k] of [o], if any. *)
Fixpoint own_property (o : t) (k : string) : option JsValue :=
  match o with
  | [] => None
  | (k', v) :: o' => if decide (k' = k) then Some v else own_property o' k
  end.

(** [Object.prototype[k]] read through an object that does not own [k]. *)
Definition inherited (k : string) : option JsValue :=
  if bool_decide (k ∈ prototype_names) then Some (Inherited k) else None.

(** [o[k]]: the own property, else the inherited one; [None] stands for
    [undefined]. *)
Definition get (o : t) (k : string) : option JsValue :=
  match own_property o k with
  | Some v => Some v
  | None => inherited k
  end.

(** [o.hasOwnProperty(k)] *)
Definition hasOwnProperty (o : t) (k : string) : bool :=
  bool_decide (k ∈ keys o).

(** [k in o] *)
Definition has (o : t) (k : string) : bool :=
  hasOwnProperty o k || bool_decide (k ∈ prototype_names).

(** The value of an existing own property is replaced where it stands. *)
Fixpoint replace (o : t) (k : string) (v : JsValue) : t :=
  match o with
  | [] => []
  | (k', v') :: o' =>
      if decide (k' = k) then (k', v) :: o' else (k', v') :: replace o' k v
  end.

(** A new array index goes before the first key that is not a smaller array
    index. *)
Fixpoint insert_index (n : N) (k : string) (v : JsValue) (o : t) : t :=
  match o with
  | [] => [(k, v)]
  | (k', v') :: o' =>
      match array_index k' with
      | Some n' =>
          if (n' <? n)%N then (k', v') :: insert_index n k v o'
          else (k, v) :: o
      | None => (k, v) :: o
      end
  end.

(** The creation of the own property [k]: a property of an object literal
    or of a spread. *)
Definition define (o : t) (k : string) (v : JsValue) : t :=
  if hasOwnProperty o k then replace o k v
  else
    match array_index k with
    | Some n => insert_index n k v o
    | None => o ++ [(k, v)]
    end.

(** [o[k] = v].  An assignment to [__proto__] reaches the setter of
    [Object.prototype] when the object has no such property of its own; the
    setter ignores a string, and the values the code reads under that name
    from a row leave the prototype as it is. *)
Definition set (o : t) (k : string) (v : JsValue) : t :=
  if bool_decide (k = "__proto__") && negb (hasOwnProperty o k) then o
  else define o k v.

(** [{ ...base, ...o }]: the own properties of [o] defined on [base]. *)
Definition spread (base o : t) : t :=
  foldl (fun acc kv => define acc kv.1 kv.2) base (entries o).

(** [k] may be enumerated before [k']: an array index before a greater one
    and before every key that is not an array index. *)
Definition precedes (k k' : string) : Prop :=
  match array_index k, array_index k' with
  | Some n, Some n' => (n < n')%N
  | Some _, None => True
  | None, Some _ => False
  | None, None => True
  end.

(** The lists that are objects built by assignments: no key is repeated,
    the keys stand in the order of enumeration, and none is [__proto__]. *)
Definition wf (o : t) : Prop :=
  NoDup (keys o) /\ StronglySorted precedes (keys o) /\ ("__proto__" ∉ keys o).

End JsObject.

(** ** types.ts *)

Abbreviation CsvRecord := (list (string * JsValue)).
Abbreviation MergedRecord := (list (string * JsValue)).

Record ColumnConfig := {
  columns : list string;
  columnsToRemove : option (list string);
  duplicateCheckColumns : option (list string)
}.

Record ProcessingResult := {
  success : bool;
  records : list MergedRecord;
  totalFiles : nat;
  totalRecords : nat;
  errors : list string
}.

Record DuplicateValue := {
  value : string;
  count : nat;
  rowNumbers : list nat
}.

Record DuplicateCheckResult := {
  column : string;
  duplicateValues : list DuplicateValue
}.

(** [xs || []] for an optional array. *)
Definition or_nil (xs : option (list string)) : list string :=
  match xs with Some l => l | None => [] end.

(** [new Set(xs)] *)
Definition new_Set (xs : list string) : gset string := list_to_set xs.

(** [s.has(x)] *)
Definition Set_has (s : gset string) (x : string) : bool := bool_decide (x ∈ s).

(** [s.size] *)
Definition Set_size (s : gset string) : nat := size s.

(** ** merger.ts: filterRecord and orderRecords *)

Definition filterRecord (record : CsvRecord) (columnsToRemove : gset string)
  : CsvRecord :=
  foldl (fun filteredRecord kv =>
           if negb (Set_has columnsToRemove kv.1)
           then JsObject.set filteredRecord kv.1 kv.2
           else filteredRecord)
        [] (JsObject.entries record).

Definition orderedColumns (columnConfig : ColumnConfig) : list string :=
  "Enterprise" :: columns columnConfig.

Definition orderRecord (columnConfig : ColumnConfig) (record : MergedRecord)
  : MergedRecord :=
  foldl (fun orderedRecord column =>
           JsObject.set orderedRecord column
             (JsValue.or_empty (JsObject.get record column)))
        [("Enterprise", Str "")] (orderedColumns columnConfig).

Definition orderRecords (records : list MergedRecord)
    (columnConfig : ColumnConfig) : list MergedRecord :=
  map (orderRecord columnConfig) records.

(** ** Exceptions, the console and the file system

    A computation reads and extends the state the code touches outside its
    own values: the console, the directories created, the files written,
    and the [result] object that [mergeCsvFiles] allocates and mutates.
    The state survives a [throw]. *)

Inductive Level := LOG | WARN | ERROR.

(** A file handed to the CSV writer and written by it. *)
Record OutputFile := {
  out_path : string;
  out_header : list string;
  out_records : list MergedRecord
}.

Record State := {
  console : list (Level * string);
  created : list string;
  written : list OutputFile;
  result : ProcessingResult
}.

(** A synchronous step: the message of the [Error] thrown, or the value. *)
Definition Result (A : Type) : Type := string + A.

(** How a computation ends.  [Crashed]: an [error] event was emitted on a
    stream that has no listener for it, Node rethrows it and the process
    dies.  [Pending]: the promise awaited never settles, so that nothing
    after the [await] runs. *)
Inductive Outcome (A : Type) : Type :=
| Returned (a : A)
| Thrown (message : string)
| Crashed (message : string)
| Pending.

Arguments Returned {A} a.
Arguments Thrown {A} message.
Arguments Crashed {A} message.
Arguments Pending {A}.

Definition M (A : Type) : Type := State -> Outcome A * State.

#[global] Instance M_ret : MRet M := fun A a st => (Returned a, st).

#[global] Instance M_bind : MBind M := fun A B f m st =>
  match m st with
  | (Returned a, st') => f a st'
  | (Thrown e, st') => (Thrown e, st')
  | (Crashed e, st') => (Crashed e, st')
  | (Pending, st') => (Pending, st')
  end.

(** [throw new Error(msg)] *)
Definition throw {A} (msg : string) : M A := fun st => (Thrown msg, st).

(** An [error] event without listener. *)
Definition crash {A} (msg : string) : M A := fun st => (Crashed msg, st).

(** [await] of a promise that never settles. *)
Definition never {A} : M A := fun st => (Pending, st).

(** [try { body } catch (error) { handler(error.message) }] *)
Definition try_catch {A} (body : M A) (handler : string -> M A) : M A :=
  fun st =>
    match body st with
    | (Thrown e, st') => handler e st'
    | other => other
    end.

(** A synchronous step that may throw. *)
Definition lift {A} (r : Result A) : M A := fun st =>
  match r with
  | inr a => (Returned a, st)
  | inl e => (Thrown e, st)
  end.

Definition console_emit (lvl : Level) (msg : string) : M unit := fun st =>
  (Returned tt,
   {| console := console st ++ [(lvl, msg)]; created := created st;
      written := written st; result := result st |}).

Definition console_log := console_emit LOG.
Definition console_warn := console_emit WARN.
Definition console_error := console_emit ERROR.

Definition get_result : M ProcessingResult := fun st => (Returned (result st), st).

Definition modify_result (f : ProcessingResult -> ProcessingResult) : M unit :=
  fun st => (Returned tt,
             {| console := console st; created := created st;
                written := written st; result := f (result st) |}).

Definition set_success (b : bool) (r : ProcessingResult) : ProcessingResult :=
  {| success := b; records := records r; totalFiles := totalFiles r;
     totalRecords := totalRecords r; errors := errors r |}.

Definition set_totalFiles (n : nat) (r : ProcessingResult) : ProcessingResult :=
  {| success := success r; records := records r; totalFiles := n;
     totalRecords := totalRecords r; errors := errors r |}.

Definition push_errors (es : list string) (r : ProcessingResult)
  : ProcessingResult :=
  {| success := success r; records := records r; totalFiles := totalFiles r;
     totalRecords := totalRecords r; errors := errors r ++ es |}.

Definition push_records (rs : list MergedRecord) (n : nat)
    (r : ProcessingResult) : ProcessingResult :=
  {| success := success r; records := records r ++ rs;
     totalFiles := totalFiles r; totalRecords := totalRecords r + n;
     errors := errors r |}.

(** [for (const x of xs) body(x)] *)
Fixpoint for_of {A} (xs : list A) (body : A -> M unit) : M unit :=
  match xs with
  | [] => mret tt
  | x :: xs' => body x ;; for_of xs' body
  end.

(** ** The clock *)

(** The local date and time that [new Date()] returns. *)
Record Date := {
  getFullYear : nat;
  getMonth : nat;
  getDate : nat;
  getHours : nat;
  getMinutes : nat;
  getSeconds : nat
}.

(** ** The environment of a run

    What the code obtains from Node and from the packages it calls.

    - [unicode_lower]: the case mapping of the runtime, for strings with a
      character outside ASCII.
    - [existsSync], [readdirSync], [mkdirSync]: the file system;
      [readdirSync] and [mkdirSync] may throw (a path that is not a
      directory, a permission that is missing).
    - [csv_headers], [csv_rows]: what the stream [createReadStream(file)
      .pipe(csv())] does while the headers, or the rows, are awaited.
    - [json_config]: the configuration file once read, parsed and checked
      for its arrays, or the message of the error.
    - [now]: the clock.
    - [writeRecords]: the message of the error when the CSV writer fails on
      a path. *)

Inductive StreamOutcome (A : Type) : Type :=
| Delivered (a : A)
| ParserError (message : string)
| StreamError (message : string)
| Silent.

Arguments Delivered {A} a.
Arguments ParserError {A} message.
Arguments StreamError {A} message.
Arguments Silent {A}.

Record Env := {
  unicode_lower : string -> string;
  existsSync : string -> bool;
  readdirSync : string -> Result (list string);
  mkdirSync : string -> option string;
  csv_headers : string -> StreamOutcome (list string);
  csv_rows : string -> StreamOutcome (list CsvRecord);
  json_config : string -> Result ColumnConfig;
  now : Date;
  writeRecords : string -> option string
}.

(** ** Node's [path] module (POSIX) *)

Module path.

Fixpoint basename_go (cur last : string) (p : string) : string :=
  match p with
  | EmptyString => if decide (cur = "") then last else String.rev cur
  | String a p' =>
      if Ascii.eqb a "/"
      then basename_go "" (if decide (cur = "") then last else String.rev cur) p'
      else basename_go (String a cur) last p'
  end.

(** [path.basename(p)]: the last non-empty component. *)
Definition basename (p : string) : string := basename_go "" "" p.

(** [path.basename(p, ext)]: the extension is removed when the component
    ends with it and is longer than it. *)
Definition basename_ext (p ext : string) : string :=
  if decide (p = ext) then ""
  else
    let b := basename p in
    if JsString.endsWith ext b && (String.length ext <? String.length b)%nat
    then JsString.substring0 (String.length b - String.length ext) b
    else b.

(** [p.split("/")], the component being read kept reversed in [cur]. *)
Fixpoint split_go (cur : string) (p : string) : list string :=
  match p with
  | EmptyString => [String.rev cur]
  | String a p' =>
      if Ascii.eqb a "/" then String.rev cur :: split_go "" p'
      else split_go (String a cur) p'
  end.

Definition segments (p : string) : list string := split_go "" p.

(** One component read by [normalizeString]; [res] holds the components
    kept so far, the last one first.  An empty component and [.] are
    dropped; [..] removes the component before it, and is kept when there
    is none to remove and the path is relative. *)
Definition normalize_step (allowAboveRoot : bool) (res : list string)
    (segment : string) : list string :=
  if decide (segment = "") then res
  else if decide (segment = ".") then res
  else if decide (segment = "..") then
    match res with
    | last :: rest =>
        if decide (last = "..")
        then (if allowAboveRoot then ".." :: res else res)
        else rest
    | [] => if allowAboveRoot then [".."] else []
    end
  else segment :: res.

Definition normalizeString (p : string) (allowAboveRoot : bool) : string :=
  JsString.join "/" (rev (foldl (normalize_step allowAboveRoot) [] (segments p))).

(** [path.normalize(p)] *)
Definition normalize (p : string) : string :=
  if decide (p = "") then "."
  else
    let isAbsolute := JsString.startsWith "/" p in
    let trailingSeparator := JsString.endsWith "/" p in
    let res := normalizeString p (negb isAbsolute) in
    if decide (res = "") then
      (if isAbsolute then "/" else if trailingSeparator then "./" else ".")
    else
      let res' := if trailingSeparator then res +:+ "/" else res in
      if isAbsolute then "/" +:+ res' else res'.

(** [path.join(dir, file)]: the non-empty arguments joined by a slash, and
    normalized. *)
Definition join (dir file : string) : string :=
  if decide (dir = "") then (if decide (file = "") then "." else normalize file)
  else if decide (file = "") then normalize dir
  else normalize (dir +:+ "/" +:+ file).

End path.

(** ** utils.ts *)

Definition ENTERPRISE_MAPPING : JsObject.t :=
  [("ghec", Str "GHEC"); ("ghec-emu", Str "GHEC-EMU"); ("ghes", Str "GHES")].

Definition invalid_format_message (filename : string) : string :=
  "Invalid filename format: " +:+ filename +:+
  ". Expected format: enterprise_org_data.csv".

Definition unknown_prefix_message (enterprisePrefix filename : string) : string :=
  "Unknown enterprise prefix: " +:+ enterprisePrefix +:+ " in file " +:+ filename.

Definition extractEnterprise (env : Env) (filename : string) : Result JsValue :=
  let basename := path.basename_ext filename ".csv" in
  match JsString.indexOf "_" basename with
  | None => inl (invalid_format_message filename)
  | Some firstUnderscore =>
      let enterprisePrefix :=
        JsString.toLowerCase (unicode_lower env)
          (JsString.substring0 firstUnderscore basename) in
      match JsObject.get ENTERPRISE_MAPPING enterprisePrefix with
      | Some enterprise =>
          if negb (JsValue.truthy enterprise)
          then inl (unknown_prefix_message enterprisePrefix filename)
          else inr enterprise
      | None => inl (unknown_prefix_message enterprisePrefix filename)
      end
  end.

(** The first [n] characters of [pad] repeated, starting within [cur]. *)
Fixpoint pad_fill (n : nat) (pad cur : string) : string :=
  match n with
  | O => ""
  | S n' =>
      match cur with
      | String a cur' => String a (pad_fill n' pad cur')
      | EmptyString =>
          match pad with
          | String a pad' => String a (pad_fill n' pad pad')
          | EmptyString => ""
          end
      end
  end.

(** [s.padStart(targetLength, pad)] *)
Definition padStart (targetLength : nat) (pad s : string) : string :=
  pad_fill (targetLength - String.length s) pad pad +:+ s.

(** The body of [generateTimestamp] on the date that [new Date()]
    returned. *)
Definition generateTimestamp_at (now : Date) : string :=
  let year := getFullYear now in
  let month := padStart 2 "0" (pretty (getMonth now + 1)%nat) in
  let day := padStart 2 "0" (pretty (getDate now)) in
  let hours := padStart 2 "0" (pretty (getHours now)) in
  let minutes := padStart 2 "0" (pretty (getMinutes now)) in
  let seconds := padStart 2 "0" (pretty (getSeconds now)) in
  pretty year +:+ month +:+ day +:+ "_" +:+ hours +:+ minutes +:+ seconds.

Definition generateTimestamp (env : Env) : string :=
  generateTimestamp_at (now env).

Definition ensureDirectoryExists (env : Env) (dirPath : string) : M unit :=
  if negb (existsSync env dirPath)
  then
    match mkdirSync env dirPath with
    | Some message => throw message
    | None => fun st =>
        (Returned tt,
         {| console := console st; created := created st ++ [dirPath];
            written := written st; result := result st |})
    end
  else mret tt.

(** A directory entry that [getCsvFiles] keeps. *)
Definition is_csv_name (env : Env) (file : string) : bool :=
  JsString.endsWith ".csv" (JsString.toLowerCase (unicode_lower env) file).

Definition getCsvFiles (env : Env) (inputDir : string) : Result (list string) :=
  if negb (existsSync env inputDir)
  then inl ("Input directory does not exist: " +:+ inputDir)
  else
    match readdirSync env inputDir with
    | inl message => inl message
    | inr files =>
        let csvFiles :=
          map (fun file => path.join inputDir file)
              (List.filter (fun file =>
                              JsString.endsWith ".csv"
                                (JsString.toLowerCase (unicode_lower env) file))
                           files) in
        if decide (length csvFiles = 0%nat)
        then inl ("No CSV files found in directory: " +:+ inputDir)
        else inr csvFiles
    end.

(** ** csv-reader.ts

    The promise is settled by the listeners the code registers and by
    nothing else: [resolve] on the event awaited, [reject] on an [error]
    event of the parser.  The read stream has no [error] listener, and
    [getCsvHeaders] has no [end] listener. *)

Definition readCsvFile (env : Env) (filePath : string) : M (list CsvRecord) :=
  if negb (existsSync env filePath)
  then throw ("File does not exist: " +:+ filePath)
  else
    match csv_rows env filePath with
    | Delivered records =>
        console_log ("Successfully read " +:+ pretty (length records) +:+
                     " records from " +:+ filePath) ;;
        mret records
    | ParserError message =>
        throw ("Error reading CSV file " +:+ filePath +:+ ": " +:+ message)
    | StreamError message => crash message
    | Silent => never
    end.

Definition getCsvHeaders (env : Env) (filePath : string) : M (list string) :=
  if negb (existsSync env filePath)
  then throw ("File does not exist: " +:+ filePath)
  else
    match csv_headers env filePath with
    | Delivered headers => mret headers
    | ParserError message =>
        throw ("Error reading CSV headers from " +:+ filePath +:+ ": " +:+
               message)
    | StreamError message => crash message
    | Silent => never
    end.

(** ** csv-writer.ts *)

(** [csvWriter.writeRecords(records)] of a writer created for [outputPath]
    with the header [columns]. *)
Definition csvWriter_writeRecords (env : Env) (outputPath : string)
    (columns : list string) (records : list MergedRecord) : M unit :=
  match writeRecords env outputPath with
  | Some message => throw message
  | None => fun st =>
      (Returned tt,
       {| console := console st; created := created st;
          written := written st ++
            [{| out_path := outputPath; out_header := columns;
                out_records := records |}];
          result := result st |})
  end.

(** [outputPath.substring(0, outputPath.lastIndexOf("/"))] *)
Definition directory_of (outputPath : string) : string :=
  match JsString.lastIndexOf "/" outputPath with
  | Some i => JsString.substring0 i outputPath
  | None => ""
  end.

Definition writeCsvFile (env : Env) (records : list MergedRecord)
    (outputPath : string) (columns : list string) : M unit :=
  try_catch
    (let outputDir := directory_of outputPath in
     ensureDirectoryExists env outputDir ;;
     csvWriter_writeRecords env outputPath columns records ;;
     console_log ("Successfully wrote " +:+ pretty (length records) +:+
                  " records to " +:+ outputPath))
    (fun message =>
       throw ("Error writing CSV file " +:+ outputPath +:+ ": " +:+ message)).

(** ** merger.ts *)

(** The double-quote character of the messages. *)
Definition dq : string := String (ascii_of_nat 34) EmptyString.

Definition warning_sign : string := "⚠️".

(** [xs.includes(x)] on an array of strings. *)
Definition Array_includes (xs : list string) (x : string) : bool :=
  bool_decide (x ∈ xs).

Definition unexpected_warning (filePath : string) (unexpectedColumns : list string)
  : string :=
  warning_sign +:+ "  File " +:+ dq +:+ path.basename filePath +:+ dq +:+
  " contains unexpected columns not in configuration: [" +:+
  JsString.join ", " unexpectedColumns +:+ "]".

Definition removed_note (filePath : string) (removedColumns : list string)
  : string :=
  "🗑️  Removed columns from " +:+ dq +:+ path.basename filePath +:+ dq +:+
  ": [" +:+ JsString.join ", " removedColumns +:+ "]".

Definition validateAndFilterColumns (filePath : string) (headers : list string)
    (columnConfig : ColumnConfig) : M (list string * list string) :=
  let configuredColumns := new_Set (columns columnConfig) in
  let removeSet := new_Set (or_nil (columnsToRemove columnConfig)) in
  let unexpectedColumns :=
    List.filter (fun header => negb (Set_has configuredColumns header) &&
                               negb (Set_has removeSet header)) headers in
  warnings ←
    (if (0 <? length unexpectedColumns)%nat
     then
       let warningMsg := unexpected_warning filePath unexpectedColumns in
       console_warn warningMsg ;; mret [warningMsg]
     else mret []);
  let filteredHeaders :=
    List.filter (fun header => negb (Set_has removeSet header)) headers in
  (if (0 <? Set_size removeSet)%nat
   then
     let removedColumns :=
       List.filter (fun header => Set_has removeSet header) headers in
     if (0 <? length removedColumns)%nat
     then console_log (removed_note filePath removedColumns)
     else mret tt
   else mret tt) ;;
  mret (filteredHeaders, warnings).

Definition loadColumnConfig (env : Env) (configPath : string) : M ColumnConfig :=
  try_catch
    (if negb (existsSync env configPath)
     then throw ("Column configuration file does not exist: " +:+ configPath)
     else
       config ← lift (json_config env configPath);
       let removeCount := length (or_nil (columnsToRemove config)) in
       let duplicateCheckCount := length (or_nil (duplicateCheckColumns config)) in
       console_log
         ("Loaded column configuration with " +:+
          pretty (length (columns config)) +:+ " columns" +:+
          (if (0 <? removeCount)%nat
           then ", " +:+ pretty removeCount +:+ " columns to remove" else "") +:+
          (if (0 <? duplicateCheckCount)%nat
           then ", " +:+ pretty duplicateCheckCount +:+
                " columns to check for duplicates"
           else "")) ;;
       mret config)
    (fun message => throw ("Error loading column configuration: " +:+ message)).

(** [xs.forEach((x, index) => ...)] threading the state the callback
    mutates; an exception thrown by the callback ends the loop. *)
Fixpoint forEach_index {A T : Type} (f : T -> nat -> A -> Result T) (xs : list A)
    (index : nat) (acc : T) : Result T :=
  match xs with
  | [] => inr acc
  | x :: xs' =>
      match f acc index x with
      | inr acc' => forEach_index f xs' (S index) acc'
      | inl message => inl message
      end
  end.

(** [record[column] || ""] *)
Definition cell_value (column : string) (record : MergedRecord) : JsValue :=
  JsValue.or_empty (JsObject.get record column).

(** The message of the [TypeError] of [value.trim()] when [value] is not a
    string. *)
Definition trim_not_a_function : string := "value.trim is not a function".

(** The callback of [records.forEach] in [checkForDuplicates]; an entry of
    [valueMap] is the pair of its [count] and its [rowNumbers].  The entry of
    a value already seen is updated where it stands ([count++] and
    [rowNumbers.push]); a new value gets a new entry at the end. *)
Definition scan_record (column : string) (valueMap : JsMap.t (nat * list nat))
    (index : nat) (record : MergedRecord) : Result (JsMap.t (nat * list nat)) :=
  match cell_value column record with
  | Inherited _ => inl trim_not_a_function
  | Str value =>
      if decide (JsString.trim value = "") then inr valueMap
      else
        let rowNumber := (index + 2)%nat in
        match JsMap.get valueMap value with
        | Some existing =>
            inr (JsMap.set valueMap value
                   ((existing.1 + 1)%nat, existing.2 ++ [rowNumber]))
        | None => inr (JsMap.set valueMap value (1%nat, [rowNumber]))
        end
  end.

(** [xs.sort(compare)]: the sort of an array is stable; an element goes
    before the first element it does not compare greater than. *)
Fixpoint sort_insert {A} (compare : A -> A -> Z) (x : A) (l : list A) : list A :=
  match l with
  | [] => [x]
  | y :: l' =>
      if (compare x y <=? 0)%Z then x :: l else y :: sort_insert compare x l'
  end.

Definition Array_sort {A} (compare : A -> A -> Z) (l : list A) : list A :=
  foldr (sort_insert compare) [] l.

Definition by_count_descending (a b : DuplicateValue) : Z :=
  (Z.of_nat (count b) - Z.of_nat (count a))%Z.

(** The entries of [valueMap] with a count above one, sorted. *)
Definition duplicates_in (valueMap : JsMap.t (nat * list nat))
  : list DuplicateValue :=
  Array_sort by_count_descending
    (map (fun e => {| value := e.1; count := e.2.1; rowNumbers := e.2.2 |})
         (List.filter (fun e => (1 <? e.2.1)%nat) (JsMap.entries valueMap))).

(** The [duplicateValues] that [checkForDuplicates] computes for a column. *)
Definition duplicateValuesOf (records : list MergedRecord) (column : string)
  : Result (list DuplicateValue) :=
  match forEach_index (scan_record column) records 0%nat [] with
  | inr valueMap => inr (duplicates_in valueMap)
  | inl message => inl message
  end.

Definition columnExists (records : list MergedRecord) (column : string) : bool :=
  (0 <? length records)%nat &&
  match records with
  | first :: _ => JsObject.has first column
  | [] => false
  end.

Definition skip_notice (column : string) : string :=
  warning_sign +:+ "  Column " +:+ dq +:+ column +:+ dq +:+
  " not found in merged data - skipping duplicate check".

Fixpoint checkForDuplicates_loop (records : list MergedRecord)
    (columnsToCheck : list string) (results : list DuplicateCheckResult)
  : M (list DuplicateCheckResult) :=
  match columnsToCheck with
  | [] => mret results
  | column :: rest =>
      if negb (columnExists records column)
      then
        console_warn (skip_notice column) ;;
        checkForDuplicates_loop records rest results
      else
        duplicateValues ← lift (duplicateValuesOf records column);
        checkForDuplicates_loop records rest
          (results ++ [{| column := column; duplicateValues := duplicateValues |}])
  end.

Definition checkForDuplicates (records : list MergedRecord)
    (columnsToCheck : list string) : M (list DuplicateCheckResult) :=
  checkForDuplicates_loop records columnsToCheck [].

Definition displayDuplicate (index : nat) (duplicate : DuplicateValue) : M unit :=
  let rowList :=
    if (5 <? length (rowNumbers duplicate))%nat
    then JsString.join ", " (map pretty (take 5 (rowNumbers duplicate))) +:+
         " ... (" +:+ pretty (length (rowNumbers duplicate) - 5)%nat +:+ " more)"
    else JsString.join ", " (map pretty (rowNumbers duplicate)) in
  console_log ("  " +:+ pretty (index + 1)%nat +:+ ". " +:+ dq +:+
               value duplicate +:+ dq +:+ " appears " +:+
               pretty (count duplicate) +:+ " times (rows: " +:+ rowList +:+ ")").

Fixpoint displayDuplicates (duplicates : list DuplicateValue) (index : nat)
  : M unit :=
  match duplicates with
  | [] => mret tt
  | duplicate :: rest =>
      displayDuplicate index duplicate ;; displayDuplicates rest (S index)
  end.

Fixpoint displayDuplicateResults_loop (duplicateResults : list DuplicateCheckResult)
    (totalDuplicatesFound : nat) : M nat :=
  match duplicateResults with
  | [] => mret totalDuplicatesFound
  | res :: rest =>
      total ←
        (if decide (length (duplicateValues res) = 0%nat)
         then
           console_log ("✅ Column " +:+ dq +:+ column res +:+ dq +:+
                        ": No duplicates found") ;;
           mret totalDuplicatesFound
         else
           console_log ("❌ Column " +:+ dq +:+ column res +:+ dq +:+ ": " +:+
                        pretty (length (duplicateValues res)) +:+
                        " duplicate value(s) found") ;;
           displayDuplicates (duplicateValues res) 0%nat ;;
           mret (totalDuplicatesFound + length (duplicateValues res))%nat);
      console_log "" ;;
      displayDuplicateResults_loop rest total
  end.

Definition displayDuplicateResults (duplicateResults : list DuplicateCheckResult)
  : M unit :=
  if decide (length duplicateResults = 0%nat) then mret tt
  else
    console_log (String (ascii_of_nat 10) "🔍 Duplicate Check Results") ;;
    console_log "===========================" ;;
    totalDuplicatesFound ← displayDuplicateResults_loop duplicateResults 0%nat;
    (if (0 <? totalDuplicatesFound)%nat
     then console_log ("📊 Summary: " +:+ pretty totalDuplicatesFound +:+
                       " duplicate value(s) found across all checked columns")
     else console_log "📊 Summary: No duplicates found in any checked columns") ;;
    console_log ("===========================" +:+ String (ascii_of_nat 10) "").

Definition initial_result : ProcessingResult :=
  {| success := false; records := []; totalFiles := 0; totalRecords := 0;
     errors := [] |}.

(** The transformation of one source record in [mergeCsvFiles]:
    [{ Enterprise: enterprise, ...filteredRecord }]. *)
Definition transformRecord (enterprise : JsValue) (removeSet : gset string)
    (record : CsvRecord) : MergedRecord :=
  let filteredRecord := filterRecord record removeSet in
  JsObject.spread [("Enterprise", enterprise)] filteredRecord.

(** The body of the loop over [csvFiles] in [mergeCsvFiles], with its
    [try]/[catch]. *)
Definition processFile (env : Env) (columnConfig : ColumnConfig)
    (removeSet : gset string) (filePath : string) : M unit :=
  try_catch
    (console_log ("Processing file: " +:+ path.basename filePath) ;;
     enterprise ← lift (extractEnterprise env (path.basename filePath));
     headers ← getCsvHeaders env filePath;
     validated ← validateAndFilterColumns filePath headers columnConfig;
     modify_result (push_errors validated.2) ;;
     records ← readCsvFile env filePath;
     let transformedRecords := map (transformRecord enterprise removeSet) records in
     modify_result (push_records transformedRecords (length records)) ;;
     console_log ("Added " +:+ pretty (length records) +:+ " records from " +:+
                  path.basename filePath +:+ " (Enterprise: " +:+
                  JsValue.toString enterprise +:+ ")"))
    (fun message =>
       let errorMsg :=
         "Error processing file " +:+ path.basename filePath +:+ ": " +:+
         message in
       console_error errorMsg ;;
       modify_result (push_errors [errorMsg]) ;;
       throw errorMsg).

(** The [try] block of [mergeCsvFiles]. *)
Definition mergeCsvFiles_try (env : Env) (inputDir : string)
    (columnConfig : ColumnConfig) : M unit :=
  csvFiles ← lift (getCsvFiles env inputDir);
  modify_result (set_totalFiles (length csvFiles)) ;;
  console_log ("Found " +:+ pretty (length csvFiles) +:+
               " CSV files to process") ;;
  let removeSet := new_Set (or_nil (columnsToRemove columnConfig)) in
  for_of csvFiles (processFile env columnConfig removeSet) ;;
  modify_result (set_success true) ;;
  r ← get_result;
  console_log ("✅ Successfully merged " +:+ pretty (totalRecords r) +:+
               " records from " +:+ pretty (totalFiles r) +:+ " files").

(** The [catch] block of [mergeCsvFiles]. *)
Definition mergeCsvFiles_catch (errorMsg : string) : M unit :=
  modify_result (set_success false) ;;
  r ← get_result;
  if negb (Array_includes (errors r) errorMsg)
  then modify_result (push_errors [errorMsg])
  else mret tt.

Definition mergeCsvFiles (env : Env) (inputDir : string)
    (columnConfig : ColumnConfig) : M ProcessingResult :=
  modify_result (fun _ => initial_result) ;;
  try_catch (mergeCsvFiles_try env inputDir columnConfig) mergeCsvFiles_catch ;;
  get_result.

(** The duplicate checks of [processCsvMerge], on the ordered records. *)
Definition processCsvMerge_duplicates (columnConfig : ColumnConfig)
    (orderedRecords : list MergedRecord) : M unit :=
  match duplicateCheckColumns columnConfig with
  | Some cols =>
      if (0 <? length cols)%nat
      then
        duplicateResults ← checkForDuplicates orderedRecords cols;
        displayDuplicateResults duplicateResults
      else mret tt
  | None => mret tt
  end.

(** The summary that [processCsvMerge] prints last. *)
Definition processCsvMerge_summary (columnConfig : ColumnConfig)
    (res : ProcessingResult) (outputPath : string) (header warnings : list string)
  : M unit :=
  console_log (String (ascii_of_nat 10) "=== CSV Merge Summary ===") ;;
  console_log ("Files processed: " +:+ pretty (totalFiles res)) ;;
  console_log ("Total records: " +:+ pretty (totalRecords res)) ;;
  console_log ("Output file: " +:+ outputPath) ;;
  console_log ("Columns: " +:+ pretty (length header)) ;;
  (if (0 <? length warnings)%nat
   then console_log ("Warnings: " +:+ pretty (length warnings))
   else mret tt) ;;
  (if (0 <? length (or_nil (columnsToRemove columnConfig)))%nat
   then console_log ("Columns removed: " +:+
                     pretty (length (or_nil (columnsToRemove columnConfig))))
   else mret tt) ;;
  (if (0 <? length (or_nil (duplicateCheckColumns columnConfig)))%nat
   then console_log ("Duplicate checks performed: " +:+
                     pretty (length (or_nil (duplicateCheckColumns columnConfig))) +:+
                     " columns")
   else mret tt) ;;
  console_log ("=========================" +:+ String (ascii_of_nat 10) "").

(** [processCsvMerge] after a successful merge: the warning count, the
    ordering, the output file, the duplicate checks and the summary. *)
Definition processCsvMerge_output (env : Env) (outputDir outputFilename : string)
    (columnConfig : ColumnConfig) (res : ProcessingResult) : M unit :=
  let warnings :=
    List.filter (fun error => JsString.includes warning_sign error)
                (errors res) in
  let actualErrors :=
    List.filter (fun error => negb (JsString.includes warning_sign error))
                (errors res) in
  if (0 <? length actualErrors)%nat
  then throw ("Merge failed: " +:+ JsString.join ", " actualErrors)
  else
    let orderedRecords := orderRecords (records res) columnConfig in
    let timestamp := generateTimestamp env in
    let outputPath :=
      path.join outputDir (outputFilename +:+ "_" +:+ timestamp +:+ ".csv") in
    let header := orderedColumns columnConfig in
    writeCsvFile env orderedRecords outputPath header ;;
    processCsvMerge_duplicates columnConfig orderedRecords ;;
    processCsvMerge_summary columnConfig res outputPath header warnings.

(** The [try] block of [processCsvMerge]. *)
Definition processCsvMerge_try (env : Env)
    (inputDir outputDir outputFilename columnConfigPath : string) : M unit :=
  console_log "Starting CSV merge process..." ;;
  console_log ("Input directory: " +:+ inputDir) ;;
  console_log ("Output directory: " +:+ outputDir) ;;
  console_log ("Column config: " +:+ columnConfigPath) ;;
  columnConfig ← loadColumnConfig env columnConfigPath;
  res ← mergeCsvFiles env inputDir columnConfig;
  if negb (success res)
  then throw ("Merge failed: " +:+ JsString.join ", " (errors res))
  else processCsvMerge_output env outputDir outputFilename columnConfig res.

Definition processCsvMerge (env : Env)
    (inputDir outputDir outputFilename columnConfigPath : string) : M unit :=
  try_catch
    (processCsvMerge_try env inputDir outputDir outputFilename columnConfigPath)
    (fun errorMsg =>
       console_error ("CSV merge failed: " +:+ errorMsg) ;;
       throw errorMsg).

(** The run's warning total, as [processCsvMerge] counts it. *)
Definition warning_total (res : ProcessingResult) : nat :=
  length (List.filter (fun error => JsString.includes warning_sign error)
                      (errors res)).

Definition initial_state : State :=
  {| console := []; created := []; written := []; result := initial_result |}.

(** ** Notions used in the statements *)

(** A column name that is an ordinary key of an object: neither an array
    index, which JavaScript enumerates before the other keys, nor
    [__proto__], which no assignment creates. *)
Definition plain_column (c : string) : Prop :=
  JsObject.array_index c = None /\ c <> "__proto__".

(** A key that is an array index. *)
Definition is_index (k : string) : Prop := JsObject.array_index k <> None.

(** The transformation of one source record in the first version of
    [mergeCsvFiles], which had no column removal:
    [{ Enterprise: enterprise, ...record }]. *)
Definition transformRecord_v1 (enterprise : JsValue) (record : CsvRecord)
  : MergedRecord :=
  JsObject.spread [("Enterprise", enterprise)] record.

(** ** Sample runs *)

Definition sample_date : Date :=
  {| getFullYear := 2025; getMonth := 6; getDate := 9;
     getHours := 14; getMinutes := 30; getSeconds := 45 |}.

(** An input directory holding the given entries, each with what its stream
    does while the headers and while the rows are awaited.  The paths in
    [absent] do not exist; directories can be created and the writer
    works. *)
Definition directory_env (inputDir : string)
    (contents : JsMap.t (StreamOutcome (list string) *
                         StreamOutcome (list CsvRecord)))
    (absent : list string) (columnConfig : ColumnConfig) : Env :=
  {| unicode_lower := fun s => s;
     existsSync := fun p => bool_decide (p ∉ absent);
     readdirSync := fun dir =>
       if decide (dir = inputDir) then inr contents.*1
       else inl ("ENOTDIR: not a directory, scandir '" +:+ dir +:+ "'");
     mkdirSync := fun _ => None;
     csv_headers := fun filePath =>
       match JsMap.get contents (path.basename filePath) with
       | Some outcome => outcome.1
       | None => Silent
       end;
     csv_rows := fun filePath =>
       match JsMap.get contents (path.basename filePath) with
       | Some outcome => outcome.2
       | None => Silent
       end;
     json_config := fun _ => inr columnConfig;
     now := sample_date;
     writeRecords := fun _ => None |}.

Definition two_columns : ColumnConfig :=
  {| columns := ["Org_Name"; "Repo_Name"]; columnsToRemove := Some ["Full_URL"];
     duplicateCheckColumns := Some ["Repo_Name"] |}.

(** Two well-formed files, the second with an unexpected and an excluded
    column; the output directory is yet to be created. *)
Definition two_files : Env :=
  directory_env "inputs"
    [("ghec_orgA_data.csv",
      (Delivered ["Org_Name"; "Repo_Name"],
       Delivered [[("Org_Name", Str "orgA"); ("Repo_Name", Str "alpha")]]));
     ("ghes_orgB_data.csv",
      (Delivered ["Org_Name"; "Repo_Name"; "Extra_Col"; "Full_URL"],
       Delivered [[("Org_Name", Str "orgB"); ("Repo_Name", Str "beta");
                   ("Extra_Col", Str "x"); ("Full_URL", Str "u")]]))]
    ["output"]
    two_columns.

(** A source file that has a column named [Enterprise] of its own. *)
Definition file_with_Enterprise_column : Env :=
  directory_env "inputs"
    [("ghec_orgA_data.csv",
      (Delivered ["Enterprise"; "Org_Name"],
       Delivered [[("Enterprise", Str "Other"); ("Org_Name", Str "acme")]]))]
    []
    {| columns := ["Org_Name"]; columnsToRemove := None;
       duplicateCheckColumns := None |}.

(** ** White space *)

(** The string whose UTF-8 encoding is the given bytes. *)
Definition utf8 (bytes : list nat) : string :=
  foldr (fun n s => String (ascii_of_nat n) s) EmptyString bytes.

(** The white-space and line-terminator characters of ECMAScript: tab, line
    feed, vertical tab, form feed, carriage return, space, U+00A0, U+1680,
    U+2000 to U+200A, U+2028, U+2029, U+202F, U+205F, U+3000, U+FEFF. *)
Definition white_space : list string :=
  utf8 <$>
    [[9]; [10]; [11]; [12]; [13]; [32]; [194; 160]; [225; 154; 128];
     [226; 128; 128]; [226; 128; 129]; [226; 128; 130]; [226; 128; 131];
     [226; 128; 132]; [226; 128; 133]; [226; 128; 134]; [226; 128; 135];
     [226; 128; 136]; [226; 128; 137]; [226; 128; 138]; [226; 128; 168];
     [226; 128; 169]; [226; 128; 175]; [226; 129; 159]; [227; 128; 128];
     [239; 187; 191]]%nat.

(** A blank value: a sequence of white-space characters, possibly empty. *)
Inductive blank : string -> Prop :=
| blank_empty : blank ""
| blank_space (w s : string) : w ∈ white_space -> blank s -> blank (w +:+ s).

(** ** The report of duplicates *)

(** The row numbers (index + 2) of the records, counted from [index], whose
    value in [column] is the non-blank string [v]. *)
Fixpoint rows_of (column : string) (records : list MergedRecord) (index : nat)
    (v : string) : list nat :=
  match records with
  | [] => []
  | record :: rest =>
      (if decide (cell_value column record = Str v /\ JsString.trim v <> "")
       then [(index + 2)%nat] else []) ++
      rows_of column rest (S index) v
  end.

(** The first row at which a reported value was seen. *)
Definition first_row (e : DuplicateValue) : nat := hd 0%nat (rowNumbers e).

(** The order of the report: more occurrences first, and among values with
    the same number of occurrences the one seen first. *)
Definition reported_before (a b : DuplicateValue) : Prop :=
  (count b < count a)%nat \/
  (count a = count b /\ (first_row a < first_row b)%nat).

(** The values read in a column are strings. *)
Definition text_cells (column : string) (records : list MergedRecord) : Prop :=
  Forall (fun record => JsValue.is_text (cell_value column record) = true) records.

(** The first rows of the entries of a table, in the order of the table. *)
Definition heads (m : JsMap.t (nat * list nat)) : list nat :=
  (fun e => hd 0%nat e.2.2) <$> m.

(** What every step of the scan maintains: the keys are distinct, every entry
    has a row, and the entries stand in the order of their first rows, all of
    them before the row being scanned. *)
Definition scan_invariant (index : nat) (m : JsMap.t (nat * list nat)) : Prop :=
  NoDup m.*1 /\ Forall (fun e => e.2.2 <> []) m /\
  StronglySorted lt (heads m) /\ Forall (fun n => (n < index + 2)%nat) (heads m).

(** ** The files of a run *)

(** A file is processed without error: its name resolves to a provenance
    tag, it exists, and the stream delivers its headers and its rows. *)
Definition file_ok (env : Env) (filePath : string) : bool :=
  match extractEnterprise env (path.basename filePath),
        csv_headers env filePath, csv_rows env filePath with
  | inr _, Delivered _, Delivered _ => existsSync env filePath
  | _, _, _ => false
  end.

(** What the processing of one file comes to.  [Rejected]: an exception
    that the [catch] of the loop body receives, with its message.  [Dies]:
    the read stream emits an [error] event, which nothing listens to.
    [Hangs]: the event awaited never comes. *)
Inductive FileOutcome :=
| Processed
| Rejected (cause : string)
| Dies (message : string)
| Hangs.

Definition file_outcome (env : Env) (filePath : string) : FileOutcome :=
  match extractEnterprise env (path.basename filePath) with
  | inl message => Rejected message
  | inr _ =>
      if negb (existsSync env filePath)
      then Rejected ("File does not exist: " +:+ filePath)
      else
        match csv_headers env filePath with
        | ParserError message =>
            Rejected ("Error reading CSV headers from " +:+ filePath +:+ ": " +:+
                      message)
        | StreamError message => Dies message
        | Silent => Hangs
        | Delivered _ =>
            match csv_rows env filePath with
            | ParserError message =>
                Rejected ("Error reading CSV file " +:+ filePath +:+ ": " +:+
                          message)
            | StreamError message => Dies message
            | Silent => Hangs
            | Delivered _ => Processed
            end
        end
  end.

(** The files before the first one that is not processed without error,
    that file, and what its processing comes to. *)
Fixpoint first_failure (env : Env) (files : list string)
  : option (list string * string * FileOutcome) :=
  match files with
  | [] => None
  | f :: rest =>
      match file_outcome env f with
      | Processed =>
          match first_failure env rest with
          | Some (pre, g, o) => Some (f :: pre, g, o)
          | None => None
          end
      | o => Some ([], f, o)
      end
  end.

(** The headers of a file that are neither canonical nor excluded. *)
Definition unexpected_columns (columnConfig : ColumnConfig) (headers : list string)
  : list string :=
  filter (fun header => (header ∉ columns columnConfig) /\
                        (header ∉ or_nil (columnsToRemove columnConfig))) headers.

(** The headers of a file that the configuration removes. *)
Definition excluded_present (columnConfig : ColumnConfig) (headers : list string)
  : list string :=
  filter (fun header => header ∈ or_nil (columnsToRemove columnConfig)) headers.

(** The warnings a file with these headers adds to the run. *)
Definition header_warnings (columnConfig : ColumnConfig) (filePath : string)
    (headers : list string) : list string :=
  if decide (unexpected_columns columnConfig headers = []) then []
  else [unexpected_warning filePath (unexpected_columns columnConfig headers)].

(** The console lines of the validation of a file with these headers. *)
Definition header_lines (columnConfig : ColumnConfig) (filePath : string)
    (headers : list string) : list (Level * string) :=
  map (fun w => (WARN, w)) (header_warnings columnConfig filePath headers) ++
  (if decide (excluded_present columnConfig headers = []) then []
   else [(LOG, removed_note filePath (excluded_present columnConfig headers))]).

(** The headers the stream delivers for a file. *)
Definition file_headers (env : Env) (filePath : string) : list string :=
  match csv_headers env filePath with
  | Delivered headers => headers
  | _ => []
  end.

(** The records a file contributes to the merge. *)
Definition file_records (env : Env) (columnConfig : ColumnConfig)
    (filePath : string) : list MergedRecord :=
  match extractEnterprise env (path.basename filePath), csv_rows env filePath with
  | inr enterprise, Delivered rows =>
      map (transformRecord enterprise
             (new_Set (or_nil (columnsToRemove columnConfig)))) rows
  | _, _ => []
  end.

(** What a file that is processed without error does to [result]. *)
Definition merge_step (env : Env) (columnConfig : ColumnConfig)
    (res : ProcessingResult) (filePath : string) : ProcessingResult :=
  push_records (file_records env columnConfig filePath)
               (length (file_records env columnConfig filePath))
    (push_errors (header_warnings columnConfig filePath (file_headers env filePath))
                 res).

(** The warnings a file had added when its processing stopped: those of its
    headers, when it stopped after the headers were read. *)
Definition warnings_before_failure (env : Env) (columnConfig : ColumnConfig)
    (filePath : string) : list string :=
  match extractEnterprise env (path.basename filePath), csv_headers env filePath with
  | inr _, Delivered headers =>
      if existsSync env filePath
      then header_warnings columnConfig filePath headers else []
  | _, _ => []
  end.

(** The message that the [catch] of the loop body records and rethrows. *)
Definition file_failure_message (filePath cause : string) : string :=
  "Error processing file " +:+ path.basename filePath +:+ ": " +:+ cause.

(** What the rejection of a file does to [result]: the warnings the file had
    added, then the message of the failure. *)
Definition failure_step (env : Env) (columnConfig : ColumnConfig)
    (res : ProcessingResult) (filePath cause : string) : ProcessingResult :=
  push_errors (warnings_before_failure env columnConfig filePath ++
               [file_failure_message filePath cause]) res.

(** How the body of the loop ends on a file. *)
Definition outcome_of (filePath : string) (o : FileOutcome) : Outcome unit :=
  match o with
  | Processed => Returned tt
  | Rejected cause => Thrown (file_failure_message filePath cause)
  | Dies message => Crashed message
  | Hangs => Pending
  end.

(** What the body of the loop does to [result] on a file. *)
Definition file_step (env : Env) (columnConfig : ColumnConfig)
    (res : ProcessingResult) (filePath : string) : ProcessingResult :=
  match file_outcome env filePath with
  | Processed => merge_step env columnConfig res filePath
  | Rejected cause => failure_step env columnConfig res filePath cause
  | _ => push_errors (warnings_before_failure env columnConfig filePath) res
  end.

(** The result of [getCsvFiles] failing with [msg]. *)
Definition no_files_result (msg : string) : ProcessingResult :=
  {| success := false; records := []; totalFiles := 0; totalRecords := 0;
     errors := [msg] |}.

(** How a run that cannot merge fails.  [Caught]: by an exception, which
    the [catch] blocks receive.  [Died]: by an [error] event of a read
    stream.  [Hung]: on an event that never comes. *)
Inductive RunFailure :=
| Caught
| Died (message : string)
| Hung.

(** The failure of a run, if any: the files cannot be listed, or the
    processing of a file stops the loop. *)
Definition run_failure (env : Env) (inputDir : string) : option RunFailure :=
  match getCsvFiles env inputDir with
  | inl _ => Some Caught
  | inr files =>
      match first_failure env files with
      | Some (_, _, Rejected _) => Some Caught
      | Some (_, _, Dies message) => Some (Died message)
      | Some (_, _, Hangs) => Some Hung
      | Some (_, _, Processed) => None
      | None => None
      end
  end.

(** The output file of a run. *)
Definition output_path (env : Env) (outputDir outputFilename : string) : string :=
  path.join outputDir (outputFilename +:+ "_" +:+ generateTimestamp env +:+ ".csv").

(** The directory that [writeCsvFile] creates for an output path, if any. *)
Definition directory_created (env : Env) (outputPath : string) : list string :=
  let outputDir := directory_of outputPath in
  if existsSync env outputDir then []
  else match mkdirSync env outputDir with
       | None => [outputDir]
       | Some _ => []
       end.

(** The cause of the failure of [writeCsvFile] on an output path, if any:
    the directory cannot be created, or the writer fails. *)
Definition write_failure (env : Env) (outputPath : string) : option string :=
  match (if existsSync env (directory_of outputPath) then None
         else mkdirSync env (directory_of outputPath)) with
  | Some message => Some message
  | None => writeRecords env outputPath
  end.

(** The file that a run writes. *)
Definition output_file (env : Env) (outputDir outputFilename : string)
    (columnConfig : ColumnConfig) (merged : list MergedRecord) : OutputFile :=
  {| out_path := output_path env outputDir outputFilename;
     out_header := orderedColumns columnConfig;
     out_records := orderRecords merged columnConfig |}.

(** The messages are all warnings. *)
Definition all_warnings (messages : list string) : Prop :=
  Forall (fun message => JsString.includes warning_sign message = true) messages.

(** The opening lines of [processCsvMerge]. *)
Definition opening_lines (inputDir outputDir columnConfigPath : string)
  : list (Level * string) :=
  [(LOG, "Starting CSV merge process...");
   (LOG, "Input directory: " +:+ inputDir);
   (LOG, "Output directory: " +:+ outputDir);
   (LOG, "Column config: " +:+ columnConfigPath)].

(** A computation that leaves the output as it is: no file written, no
    directory created. *)
Definition keeps_files {A} (m : M A) : Prop :=
  forall st, written (m st).2 = written st /\ created (m st).2 = created st.

(** A computation that leaves the output and the [result] object as they
    are. *)
Definition reads_only {A} (m : M A) : Prop :=
  forall st, written (m st).2 = written st /\ created (m st).2 = created st /\
             result (m st).2 = result st.

(** A computation that returns normally and leaves the output and the
    [result] object as they are. *)
Definition completes {A} (m : M A) : Prop :=
  forall st, exists a st',
    m st = (Returned a, st') /\ written st' = written st /\
    created st' = created st /\ result st' = result st.

(** The counter of records agrees with the records held. *)
Definition counts_agree (res : ProcessingResult) : Prop :=
  totalRecords res = length (records res).


(** ** Further sample runs *)

(** A first file that is read, a second whose name has an unknown prefix,
    and a third that is never reached. *)
Definition one_unknown_prefix : Env :=
  directory_env "inputs"
    [("ghec_orgA_data.csv",
      (Delivered ["Org_Name"; "Repo_Name"],
       Delivered [[("Org_Name", Str "orgA"); ("Repo_Name", Str "alpha")]]));
     ("notes_2024.csv",
      (Delivered ["Org_Name"; "Extra_Col"],
       Delivered [[("Org_Name", Str "orgB"); ("Extra_Col", Str "x")]]));
     ("ghec_orgC_data.csv",
      (Delivered ["Org_Name"; "Repo_Name"],
       Delivered [[("Org_Name", Str "orgC"); ("Repo_Name", Str "gamma")]]))]
    ["output"]
    two_columns.

(** A first file that is read and a second entry, named as a CSV file, that
    is a directory: reading it fails on the read stream. *)
Definition one_directory_entry : Env :=
  directory_env "inputs"
    [("ghec_orgA_data.csv",
      (Delivered ["Org_Name"; "Repo_Name"],
       Delivered [[("Org_Name", Str "orgA"); ("Repo_Name", Str "alpha")]]));
     ("ghes_orgB_data.csv",
      (StreamError "EISDIR: illegal operation on a directory, read",
       StreamError "EISDIR: illegal operation on a directory, read"))]
    ["output"]
    two_columns.

(** A single file that is empty: no header line is ever read, and the rows
    are none. *)
Definition one_empty_file : Env :=
  directory_env "inputs"
    [("ghec_orgA_data.csv", (Silent, Delivered []))]
    ["output"]
    two_columns.

(** A directory without any CSV file. *)
Definition no_csv_file : Env :=
  directory_env "inputs" [("notes.txt", (Silent, Delivered []))] ["output"]
    two_columns.

(** The two well-formed files, without the configuration file. *)
Definition without_config : Env :=
  {| unicode_lower := unicode_lower two_files;
     existsSync := fun p => bool_decide (p <> "column-config.json");
     readdirSync := readdirSync two_files;
     mkdirSync := mkdirSync two_files;
     csv_headers := csv_headers two_files;
     csv_rows := csv_rows two_files;
     json_config := fun _ => inl "ENOENT";
     now := now two_files;
     writeRecords := writeRecords two_files |}.


(** * Properties *)

(** * Properties *)

(** ** Insertion-ordered tables *)

Section JsMap_facts.
Context {V : Type}.
Implicit Types (m : JsMap.t V) (k : string) (v : V).

Lemma JsMap_get_set m k v k' :
  JsMap.get (JsMap.set m k v) k' = if decide (k = k') then Some v else JsMap.get m k'.
Proof.
  induction m as [|[k0 v0] m IH]; simpl.
  - destruct (decide (k = k')); reflexivity.
  - destruct (decide (k0 = k)) as [->|Hne]; simpl.
    + destruct (decide (k = k')); reflexivity.
    + destruct (decide (k0 = k')) as [->|Hne'].
      * destruct (decide (k = k')); [congruence|reflexivity].
      * apply IH.
Qed.

Lemma JsMap_get_None m k : JsMap.get m k = None <-> k ∉ m.*1.
Proof.
  induction m as [|[k0 v0] m IH]; simpl.
  - split; [intros _; apply not_elem_of_nil | reflexivity].
  - rewrite not_elem_of_cons. destruct (decide (k0 = k)) as [->|Hne].
    + split; [discriminate | intros [? _]; congruence].
    + rewrite IH. split; [intros ?; split; [congruence|assumption] | intros [_ ?]; assumption].
Qed.

Lemma JsMap_get_Some_elem m k v : JsMap.get m k = Some v -> (k, v) ∈ m.
Proof.
  induction m as [|[k0 v0] m IH]; simpl; [discriminate|].
  destruct (decide (k0 = k)) as [->|Hne].
  - intros [= ->]. apply list_elem_of_here.
  - intros H. apply list_elem_of_further, IH, H.
Qed.

Lemma JsMap_elem_get m k v : NoDup m.*1 -> (k, v) ∈ m -> JsMap.get m k = Some v.
Proof.
  induction m as [|[k0 v0] m IH]; simpl; intros Hnd Hin.
  - apply elem_of_nil in Hin as [].
  - apply NoDup_cons in Hnd as [Hk0 Hnd].
    apply elem_of_cons in Hin as [[= -> ->]|Hin].
    + rewrite decide_True; reflexivity.
    + destruct (decide (k0 = k)) as [->|Hne]; [|auto].
      exfalso. apply Hk0. apply list_elem_of_fmap. exists (k, v). auto.
Qed.

Lemma JsMap_set_fresh m k v : k ∉ m.*1 -> JsMap.set m k v = m ++ [(k, v)].
Proof.
  induction m as [|[k0 v0] m IH]; simpl; [reflexivity|].
  rewrite not_elem_of_cons. intros [Hne Hk].
  rewrite decide_False by congruence. rewrite IH; auto.
Qed.

Lemma JsMap_set_split m k (v0 v : V) :
  JsMap.get m k = Some v0 ->
  exists m1 m2, m = m1 ++ (k, v0) :: m2 /\ JsMap.set m k v = m1 ++ (k, v) :: m2.
Proof.
  induction m as [|[k' v'] m IH]; cbn [JsMap.get JsMap.set]; [discriminate|].
  case_decide as Hk.
  - intros [= ->]. subst k'. exists [], m. split; reflexivity.
  - intros Hget. destruct (IH Hget) as (m1 & m2 & -> & ->).
    exists ((k', v') :: m1), m2. split; reflexivity.
Qed.

End JsMap_facts.

(** ** Values *)

Lemma or_empty_Some (v : JsValue) : JsValue.or_empty (Some v) = v.
Proof.
  destruct v as [s|name]; cbn; [|reflexivity].
  case_bool_decide; cbn; congruence.
Qed.

Lemma or_empty_idem (x : option JsValue) :
  JsValue.or_empty (Some (JsValue.or_empty x)) = JsValue.or_empty x.
Proof. apply or_empty_Some. Qed.

Lemma Set_has_new_Set (xs : list string) (x : string) :
  Set_has (new_Set xs) x = bool_decide (x ∈ xs).
Proof.
  unfold Set_has, new_Set. apply bool_decide_ext. apply elem_of_list_to_set.
Qed.

(** ** Objects *)

Lemma array_index_pretty (k : string) (n : N) :
  JsObject.array_index k = Some n -> k = pretty n.
Proof.
  unfold JsObject.array_index. destruct (JsObject.digits k 0) as [m|]; [|discriminate].
  destruct (m <? 4294967295)%N; cbn [andb]; [|discriminate].
  case_bool_decide as Hk; [|discriminate]. intros [= <-]. congruence.
Qed.

Lemma array_index_inj (k k' : string) (n : N) :
  JsObject.array_index k = Some n -> JsObject.array_index k' = Some n -> k = k'.
Proof.
  intros H H'. apply array_index_pretty in H, H'. congruence.
Qed.

Lemma own_property_lookup (o : JsObject.t) (k : string) :
  JsObject.own_property o k = JsMap.get o k.
Proof. induction o as [|[k0 v0] o IH]; cbn; [reflexivity|]. rewrite IH. reflexivity. Qed.

Lemma own_property_None (o : JsObject.t) (k : string) :
  JsObject.own_property o k = None <-> k ∉ JsObject.keys o.
Proof. rewrite own_property_lookup. apply JsMap_get_None. Qed.

Lemma own_property_Some_elem (o : JsObject.t) (k : string) (v : JsValue) :
  JsObject.own_property o k = Some v -> (k, v) ∈ o.
Proof. rewrite own_property_lookup. apply JsMap_get_Some_elem. Qed.

Lemma own_property_elem (o : JsObject.t) (k : string) (v : JsValue) :
  NoDup (JsObject.keys o) -> (k, v) ∈ o -> JsObject.own_property o k = Some v.
Proof. rewrite own_property_lookup. apply JsMap_elem_get. Qed.

Lemma own_property_in_keys (o : JsObject.t) (k : string) (v : JsValue) :
  JsObject.own_property o k = Some v -> k ∈ JsObject.keys o.
Proof.
  intros H. destruct (decide (k ∈ JsObject.keys o)) as [?|Hn]; [assumption|].
  apply own_property_None in Hn. congruence.
Qed.

Lemma hasOwnProperty_true (o : JsObject.t) (k : string) :
  JsObject.hasOwnProperty o k = true <-> k ∈ JsObject.keys o.
Proof. unfold JsObject.hasOwnProperty. apply bool_decide_eq_true. Qed.

Lemma hasOwnProperty_false (o : JsObject.t) (k : string) :
  JsObject.hasOwnProperty o k = false <-> k ∉ JsObject.keys o.
Proof. unfold JsObject.hasOwnProperty. apply bool_decide_eq_false. Qed.

Lemma keys_replace (o : JsObject.t) (k : string) (v : JsValue) :
  JsObject.keys (JsObject.replace o k v) = JsObject.keys o.
Proof.
  unfold JsObject.keys. induction o as [|[k0 v0] o IH]; cbn; [reflexivity|].
  case_decide; cbn; [reflexivity|]. f_equal. exact IH.
Qed.

Lemma own_property_replace (o : JsObject.t) (k : string) (v : JsValue) (k' : string) :
  k ∈ JsObject.keys o ->
  JsObject.own_property (JsObject.replace o k v) k'
  = if decide (k = k') then Some v else JsObject.own_property o k'.
Proof.
  unfold JsObject.keys. induction o as [|[k0 v0] o IH]; cbn; intros Hin.
  - apply elem_of_nil in Hin as [].
  - destruct (decide (k0 = k)) as [->|Hne]; cbn.
    + destruct (decide (k = k')); reflexivity.
    + apply elem_of_cons in Hin as [->|Hin]; [congruence|].
      destruct (decide (k0 = k')) as [->|Hne'].
      * rewrite decide_False by congruence. reflexivity.
      * apply IH, Hin.
Qed.

Lemma keys_insert_index (n : N) (k : string) (v : JsValue) (o : JsObject.t) :
  JsObject.keys (JsObject.insert_index n k v o) ≡ₚ k :: JsObject.keys o.
Proof.
  unfold JsObject.keys. induction o as [|[k0 v0] o IH]; cbn; [reflexivity|].
  destruct (JsObject.array_index k0) as [n0|]; [|reflexivity].
  destruct (n0 <? n)%N; [|reflexivity].
  cbn. rewrite IH. apply Permutation_swap.
Qed.

Lemma own_property_insert_index (n : N) (k : string) (v : JsValue)
    (o : JsObject.t) (k' : string) :
  k ∉ JsObject.keys o ->
  JsObject.own_property (JsObject.insert_index n k v o) k'
  = if decide (k = k') then Some v else JsObject.own_property o k'.
Proof.
  unfold JsObject.keys. induction o as [|[k0 v0] o IH]; cbn; intros Hk.
  - reflexivity.
  - apply not_elem_of_cons in Hk as [Hne Hk].
    destruct (JsObject.array_index k0) as [n0|]; [|reflexivity].
    destruct (n0 <? n)%N; [|reflexivity]. cbn.
    destruct (decide (k0 = k')) as [->|Hne'].
    + rewrite decide_False by congruence. reflexivity.
    + apply IH, Hk.
Qed.

Lemma own_property_app (o1 o2 : JsObject.t) (k : string) :
  JsObject.own_property (o1 ++ o2) k
  = match JsObject.own_property o1 k with
    | Some v => Some v
    | None => JsObject.own_property o2 k
    end.
Proof.
  induction o1 as [|[k0 v0] o1 IH]; cbn; [reflexivity|].
  case_decide; [reflexivity|exact IH].
Qed.

(** A property that has been defined is read back, and no other property
    is touched. *)
Lemma own_property_define (o : JsObject.t) (k : string) (v : JsValue) (k' : string) :
  JsObject.own_property (JsObject.define o k v) k'
  = if decide (k = k') then Some v else JsObject.own_property o k'.
Proof.
  unfold JsObject.define. destruct (JsObject.hasOwnProperty o k) eqn:Hown.
  - apply own_property_replace, hasOwnProperty_true, Hown.
  - apply hasOwnProperty_false in Hown.
    destruct (JsObject.array_index k) as [n|].
    + apply own_property_insert_index, Hown.
    + rewrite own_property_app. cbn.
      destruct (decide (k = k')) as [<-|Hne].
      * apply own_property_None in Hown. rewrite Hown. reflexivity.
      * destruct (JsObject.own_property o k'); reflexivity.
Qed.

Lemma keys_define_Permutation (o : JsObject.t) (k : string) (v : JsValue) :
  JsObject.keys (JsObject.define o k v)
  ≡ₚ if decide (k ∈ JsObject.keys o) then JsObject.keys o else k :: JsObject.keys o.
Proof.
  unfold JsObject.define, JsObject.hasOwnProperty.
  case_bool_decide as Hown.
  - rewrite decide_True by exact Hown. rewrite keys_replace. reflexivity.
  - rewrite decide_False by exact Hown.
    destruct (JsObject.array_index k) as [n|].
    + apply keys_insert_index.
    + unfold JsObject.keys. rewrite fmap_app. cbn.
      symmetry. apply Permutation_cons_append.
Qed.

Lemma keys_define_elem (o : JsObject.t) (k : string) (v : JsValue) (k' : string) :
  k' ∈ JsObject.keys (JsObject.define o k v) <-> k' = k \/ k' ∈ JsObject.keys o.
Proof.
  rewrite keys_define_Permutation. case_decide as Hk.
  - split; [auto|]. intros [->|?]; assumption.
  - apply elem_of_cons.
Qed.

Lemma define_NoDup (o : JsObject.t) (k : string) (v : JsValue) :
  NoDup (JsObject.keys o) -> NoDup (JsObject.keys (JsObject.define o k v)).
Proof.
  intros Hnd. rewrite keys_define_Permutation. case_decide as Hk; [exact Hnd|].
  apply NoDup_cons. auto.
Qed.

Lemma precedes_index_other (k k' : string) (n : N) :
  JsObject.array_index k = Some n -> JsObject.array_index k' = None ->
  JsObject.precedes k k'.
Proof. unfold JsObject.precedes. intros -> ->. exact I. Qed.

Lemma precedes_to_other (k k' : string) :
  JsObject.array_index k' = None -> JsObject.precedes k k'.
Proof. unfold JsObject.precedes. intros ->. destruct (JsObject.array_index k); exact I. Qed.

Lemma insert_index_sorted (n : N) (k : string) (v : JsValue) (o : JsObject.t) :
  JsObject.array_index k = Some n -> k ∉ JsObject.keys o ->
  StronglySorted JsObject.precedes (JsObject.keys o) ->
  StronglySorted JsObject.precedes (JsObject.keys (JsObject.insert_index n k v o)).
Proof.
  unfold JsObject.keys. intros Hk.
  induction o as [|[k0 v0] o IH]; cbn; intros Hnin Hs.
  - repeat constructor.
  - apply not_elem_of_cons in Hnin as [Hne Hnin].
    apply StronglySorted_inv in Hs as [Hs Hall].
    destruct (JsObject.array_index k0) as [n0|] eqn:Hk0.
    + destruct (N.ltb_spec n0 n) as [Hlt|Hge]; cbn.
      * constructor; [apply IH; assumption|].
        pose proof (keys_insert_index n k v o) as Hperm. unfold JsObject.keys in Hperm.
        rewrite Hperm. constructor; [|exact Hall].
        unfold JsObject.precedes. rewrite Hk0, Hk. exact Hlt.
      * assert (Hlt : (n < n0)%N).
        { destruct (decide (n = n0)) as [->|?]; [|lia].
          exfalso. apply Hne. eapply array_index_inj; eassumption. }
        constructor; [constructor; assumption|].
        constructor.
        -- unfold JsObject.precedes. rewrite Hk, Hk0. exact Hlt.
        -- eapply Forall_impl; [exact Hall|]. cbn. intros x Hx.
           unfold JsObject.precedes in *. rewrite Hk0 in Hx. rewrite Hk.
           destruct (JsObject.array_index x); [lia|exact I].
    + constructor; [constructor; assumption|].
      constructor.
      * apply (precedes_index_other _ _ n); assumption.
      * eapply Forall_impl; [exact Hall|]. cbn. intros x Hx.
        unfold JsObject.precedes in *. rewrite Hk0 in Hx. rewrite Hk.
        destruct (JsObject.array_index x); [contradiction|exact I].
Qed.

Lemma StronglySorted_snoc_rel {A} (R : A -> A -> Prop) (l : list A) (x : A) :
  StronglySorted R l -> Forall (fun y => R y x) l -> StronglySorted R (l ++ [x]).
Proof.
  induction l as [|a l IH]; cbn; intros Hs Hf.
  - repeat constructor.
  - apply StronglySorted_inv in Hs as [Hs Ha]. apply Forall_cons in Hf as [Hax Hf].
    constructor; [apply IH; assumption|].
    apply Forall_app. split; [exact Ha|]. repeat constructor. exact Hax.
Qed.

Lemma define_sorted (o : JsObject.t) (k : string) (v : JsValue) :
  StronglySorted JsObject.precedes (JsObject.keys o) ->
  StronglySorted JsObject.precedes (JsObject.keys (JsObject.define o k v)).
Proof.
  intros Hs. unfold JsObject.define. destruct (JsObject.hasOwnProperty o k) eqn:Hown.
  - rewrite keys_replace. exact Hs.
  - apply hasOwnProperty_false in Hown.
    destruct (JsObject.array_index k) as [n|] eqn:Hk.
    + apply insert_index_sorted; assumption.
    + unfold JsObject.keys. rewrite fmap_app. cbn.
      apply StronglySorted_snoc_rel; [exact Hs|].
      apply Forall_forall. intros x _. apply precedes_to_other, Hk.
Qed.

(** A new key that every key of the object precedes is appended. *)
Lemma define_append (o : JsObject.t) (k : string) (v : JsValue) :
  k ∉ JsObject.keys o ->
  Forall (fun k' => JsObject.precedes k' k) (JsObject.keys o) ->
  JsObject.define o k v = o ++ [(k, v)].
Proof.
  intros Hk Hall. unfold JsObject.define.
  rewrite (proj2 (hasOwnProperty_false o k) Hk).
  destruct (JsObject.array_index k) as [n|] eqn:Hn; [|reflexivity].
  clear Hk. unfold JsObject.keys in Hall.
  induction o as [|[k0 v0] o IH]; cbn; [reflexivity|].
  apply Forall_cons in Hall as [Hk0 Hall]. cbn in Hk0.
  unfold JsObject.precedes in Hk0. rewrite Hn in Hk0.
  destruct (JsObject.array_index k0) as [n0|]; [|contradiction].
  rewrite (proj2 (N.ltb_lt n0 n) Hk0). rewrite (IH Hall). reflexivity.
Qed.

(** An assignment on an object that has no [__proto__] of its own. *)
Lemma set_plain (o : JsObject.t) (k : string) (v : JsValue) :
  "__proto__" ∉ JsObject.keys o ->
  JsObject.set o k v = (if decide (k = "__proto__") then o else JsObject.define o k v) /\
  "__proto__" ∉ JsObject.keys (JsObject.set o k v).
Proof.
  intros Hp. unfold JsObject.set.
  destruct (decide (k = "__proto__")) as [->|Hne].
  - rewrite bool_decide_eq_true_2 by reflexivity.
    rewrite (proj2 (hasOwnProperty_false o _) Hp). cbn. auto.
  - rewrite bool_decide_eq_false_2 by exact Hne. cbn. split; [reflexivity|].
    rewrite keys_define_elem. intros [?|?]; [congruence|contradiction].
Qed.

Lemma set_NoDup (o : JsObject.t) (k : string) (v : JsValue) :
  NoDup (JsObject.keys o) -> NoDup (JsObject.keys (JsObject.set o k v)).
Proof.
  intros Hnd. unfold JsObject.set. destruct (_ && _); [exact Hnd|].
  apply define_NoDup, Hnd.
Qed.

Lemma set_sorted (o : JsObject.t) (k : string) (v : JsValue) :
  StronglySorted JsObject.precedes (JsObject.keys o) ->
  StronglySorted JsObject.precedes (JsObject.keys (JsObject.set o k v)).
Proof.
  intros Hs. unfold JsObject.set. destruct (_ && _); [exact Hs|].
  apply define_sorted, Hs.
Qed.

(** Assignments keep an object an object. *)
Lemma set_wf (o : JsObject.t) (k : string) (v : JsValue) :
  JsObject.wf o -> JsObject.wf (JsObject.set o k v).
Proof.
  intros (Hnd & Hs & Hp). split; [apply set_NoDup, Hnd|].
  split; [apply set_sorted, Hs|]. apply set_plain, Hp.
Qed.

Lemma own_property_set (o : JsObject.t) (k : string) (v : JsValue) (k' : string) :
  "__proto__" ∉ JsObject.keys o ->
  JsObject.own_property (JsObject.set o k v) k'
  = if decide (k = k' /\ k <> "__proto__") then Some v else JsObject.own_property o k'.
Proof.
  intros Hp. rewrite (proj1 (set_plain o k v Hp)).
  destruct (decide (k = "__proto__")) as [->|Hne].
  - rewrite decide_False by tauto. reflexivity.
  - rewrite own_property_define.
    destruct (decide (k = k')) as [->|Hkk].
    + rewrite decide_True by tauto. reflexivity.
    + rewrite decide_False by tauto. reflexivity.
Qed.

Lemma get_own (o : JsObject.t) (k : string) (v : JsValue) :
  JsObject.own_property o k = Some v -> JsObject.get o k = Some v.
Proof. unfold JsObject.get. intros ->. reflexivity. Qed.

Lemma get_not_own (o : JsObject.t) (k : string) :
  k ∉ JsObject.keys o -> JsObject.get o k = JsObject.inherited k.
Proof.
  intros Hk. unfold JsObject.get. apply own_property_None in Hk. rewrite Hk. reflexivity.
Qed.

Lemma inherited_None (k : string) :
  JsObject.inherited k = None <-> k ∉ JsObject.prototype_names.
Proof.
  unfold JsObject.inherited. case_bool_decide; split; try discriminate; tauto.
Qed.

Lemma inherited_Some (k : string) :
  k ∈ JsObject.prototype_names -> JsObject.inherited k = Some (Inherited k).
Proof. intros Hk. unfold JsObject.inherited. rewrite bool_decide_eq_true_2; auto. Qed.

(** A loop of assignments reads back the last value assigned to a key; an
    assignment to [__proto__] leaves no trace. *)
Lemma own_property_assign_all (g : string -> JsValue) (l : list string)
    (o : JsObject.t) (k : string) :
  "__proto__" ∉ JsObject.keys o ->
  JsObject.own_property (foldl (fun acc c => JsObject.set acc c (g c)) o l) k
  = if decide (k ∈ l /\ k <> "__proto__") then Some (g k)
    else JsObject.own_property o k.
Proof.
  revert o. induction l as [|c l IH]; intros o Hp; cbn [foldl].
  - rewrite decide_False; [reflexivity|]. intros [Hin _]. apply elem_of_nil in Hin as [].
  - rewrite IH by (apply set_plain, Hp). rewrite own_property_set by exact Hp.
    destruct (decide (k ∈ l /\ k <> "__proto__")) as [[Hin Hne]|Hn1].
    + rewrite decide_True by (split; [apply list_elem_of_further, Hin | exact Hne]).
      reflexivity.
    + destruct (decide (c = k /\ c <> "__proto__")) as [[-> Hne]|Hn2].
      * rewrite decide_True by (split; [apply list_elem_of_here | exact Hne]).
        reflexivity.
      * rewrite decide_False; [reflexivity|]. intros [Hin Hne].
        apply elem_of_cons in Hin as [->|Hin]; [apply Hn2; auto | apply Hn1; auto].
Qed.

Lemma assign_all_plain (g : string -> JsValue) (l : list string) (o : JsObject.t) :
  "__proto__" ∉ JsObject.keys o ->
  "__proto__" ∉ JsObject.keys (foldl (fun acc c => JsObject.set acc c (g c)) o l).
Proof.
  revert o. induction l as [|c l IH]; intros o Hp; cbn [foldl]; [exact Hp|].
  apply IH, set_plain, Hp.
Qed.

Lemma assign_all_wf (g : string -> JsValue) (l : list string) (o : JsObject.t) :
  JsObject.wf o -> JsObject.wf (foldl (fun acc c => JsObject.set acc c (g c)) o l).
Proof.
  revert o. induction l as [|c l IH]; intros o Hwf; cbn [foldl]; [exact Hwf|].
  apply IH, set_wf, Hwf.
Qed.

(** Two loops of assignments that agree on every key but [__proto__] build
    the same object. *)
Lemma assign_all_ext (g1 g2 : string -> JsValue) (l : list string) (o : JsObject.t) :
  "__proto__" ∉ JsObject.keys o ->
  (forall c, c ∈ l -> c <> "__proto__" -> g1 c = g2 c) ->
  foldl (fun acc c => JsObject.set acc c (g1 c)) o l =
  foldl (fun acc c => JsObject.set acc c (g2 c)) o l.
Proof.
  revert o. induction l as [|c l IH]; intros o Hp Hext; cbn [foldl]; [reflexivity|].
  assert (Hset : JsObject.set o c (g1 c) = JsObject.set o c (g2 c)).
  { rewrite (proj1 (set_plain o c (g1 c) Hp)), (proj1 (set_plain o c (g2 c) Hp)).
    case_decide as Hc; [reflexivity|].
    rewrite (Hext c) by (auto using list_elem_of_here). reflexivity. }
  rewrite Hset. apply IH; [apply set_plain, Hp|].
  intros c' Hc'. apply Hext, list_elem_of_further, Hc'.
Qed.

Lemma Enterprise_plain (v : JsValue) :
  JsObject.wf [("Enterprise", v)].
Proof.
  split; [cbn; apply NoDup_singleton|]. split; [cbn; repeat constructor|].
  cbn. rewrite list_elem_of_singleton. discriminate.
Qed.

(** ** filterRecord *)

Lemma filterRecord_loop (excluded : gset string) (l acc : JsObject.t) :
  NoDup (JsObject.keys l) ->
  StronglySorted JsObject.precedes (JsObject.keys l) ->
  "__proto__" ∉ JsObject.keys l ->
  (forall k, k ∈ JsObject.keys l -> k ∉ JsObject.keys acc) ->
  (forall k' k, k' ∈ JsObject.keys acc -> k ∈ JsObject.keys l ->
                JsObject.precedes k' k) ->
  "__proto__" ∉ JsObject.keys acc ->
  foldl (fun filteredRecord kv =>
           if negb (Set_has excluded kv.1)
           then JsObject.set filteredRecord kv.1 kv.2
           else filteredRecord) acc l
  = acc ++ filter (fun kv => kv.1 ∉ excluded) l.
Proof.
  unfold JsObject.keys. revert acc.
  induction l as [|[k v] l IH]; intros acc Hnd Hs Hp Hfresh Hprec Hpa; cbn [foldl].
  - rewrite filter_nil, app_nil_r. reflexivity.
  - rewrite fmap_cons in Hnd, Hs, Hp. cbn [fst snd] in *.
    apply NoDup_cons in Hnd as [Hk Hnd].
    apply StronglySorted_inv in Hs as [Hs Hkl].
    apply not_elem_of_cons in Hp as [Hkp Hp].
    destruct (Set_has excluded k) eqn:Hex; cbn [negb];
      [apply bool_decide_eq_true in Hex | apply bool_decide_eq_false in Hex].
    + rewrite filter_cons_False by (cbn; tauto). apply IH; try assumption.
      * intros k' Hk'. apply Hfresh. rewrite fmap_cons. apply list_elem_of_further, Hk'.
      * intros k1 k2 H1 H2. apply Hprec; [exact H1|].
        rewrite fmap_cons. apply list_elem_of_further, H2.
    + rewrite filter_cons_True by (cbn; assumption).
      assert (Hset : JsObject.set acc k v = acc ++ [(k, v)]).
      { rewrite (proj1 (set_plain acc k v Hpa)).
        rewrite decide_False by congruence.
        apply define_append.
        - apply Hfresh. rewrite fmap_cons. apply list_elem_of_here.
        - apply Forall_forall. intros k' Hk'. apply Hprec; [exact Hk'|].
          rewrite fmap_cons. apply list_elem_of_here. }
      rewrite Hset.
      rewrite IH; [rewrite <- app_assoc; reflexivity | assumption | assumption
                  | assumption | | |].
      * intros k' Hk'. rewrite fmap_app, elem_of_app. cbn.
        intros [Hin|Hin%list_elem_of_singleton].
        -- eapply Hfresh; [rewrite fmap_cons; apply list_elem_of_further, Hk' | exact Hin].
        -- congruence.
      * intros k1 k2 H1 H2. rewrite fmap_app, elem_of_app in H1. cbn in H1.
        destruct H1 as [H1|H1%list_elem_of_singleton].
        -- apply Hprec; [exact H1|]. rewrite fmap_cons. apply list_elem_of_further, H2.
        -- subst k1. rewrite Forall_forall in Hkl. apply Hkl, H2.
      * rewrite fmap_app, elem_of_app. cbn. rewrite list_elem_of_singleton.
        intros [?|?]; [contradiction|congruence].
Qed.

Lemma filterRecord_filter (record : CsvRecord) (excluded : gset string) :
  JsObject.wf record ->
  filterRecord record excluded = filter (fun kv => kv.1 ∉ excluded) record.
Proof.
  intros (Hnd & Hs & Hp). unfold filterRecord, JsObject.entries.
  rewrite filterRecord_loop; [reflexivity | exact Hnd | exact Hs | exact Hp | | |].
  - intros k _. apply not_elem_of_nil.
  - intros k' k Hk'. apply elem_of_nil in Hk' as [].
  - apply not_elem_of_nil.
Qed.

Lemma keys_filter_excluded (excluded : gset string) (o : JsObject.t) :
  (filter (fun kv => kv.1 ∉ excluded) o).*1 = filter (fun k => k ∉ excluded) o.*1.
Proof.
  induction o as [|[k v] o IH]; [reflexivity|].
  rewrite fmap_cons. cbn [fst].
  destruct (decide (k ∈ excluded)) as [HP|HP].
  - rewrite !filter_cons_False by (cbn; tauto). exact IH.
  - rewrite !filter_cons_True by (cbn; assumption). rewrite fmap_cons, IH. reflexivity.
Qed.

Lemma StronglySorted_filter {A} (R : A -> A -> Prop) (P : A -> Prop)
    `{!forall x, Decision (P x)} (l : list A) :
  StronglySorted R l -> StronglySorted R (filter P l).
Proof.
  induction 1 as [|x l Hs IH Hall]; [constructor|].
  destruct (decide (P x)).
  - rewrite filter_cons_True by assumption. constructor; [exact IH|].
    apply Forall_forall. intros y Hy. apply list_elem_of_filter in Hy as [_ Hy].
    rewrite Forall_forall in Hall. apply Hall, Hy.
  - rewrite filter_cons_False by assumption. exact IH.
Qed.

Lemma filter_excluded_wf (record : CsvRecord) (excluded : gset string) :
  JsObject.wf record ->
  JsObject.wf (filter (fun kv => kv.1 ∉ excluded) record).
Proof.
  intros (Hnd & Hs & Hp). unfold JsObject.wf, JsObject.keys in *.
  rewrite keys_filter_excluded.
  split; [apply NoDup_filter, Hnd|]. split; [apply StronglySorted_filter, Hs|].
  rewrite list_elem_of_filter. tauto.
Qed.

Lemma filterRecord_wf (record : CsvRecord) (excluded : gset string) :
  JsObject.wf record -> JsObject.wf (filterRecord record excluded).
Proof.
  intros Hwf. rewrite (filterRecord_filter _ _ Hwf). apply filter_excluded_wf, Hwf.
Qed.

Lemma filterRecord_own (record : CsvRecord) (excluded : gset string) (k : string) :
  JsObject.wf record ->
  JsObject.own_property (filterRecord record excluded) k =
    if decide (k ∈ excluded) then None else JsObject.own_property record k.
Proof.
  intros Hwf. pose proof (filter_excluded_wf record excluded Hwf) as (Hnd' & _ & _).
  rewrite (filterRecord_filter _ _ Hwf). unfold JsObject.keys in Hnd'.
  case_decide as Hk.
  - apply own_property_None. unfold JsObject.keys.
    rewrite keys_filter_excluded, list_elem_of_filter. tauto.
  - destruct (JsObject.own_property record k) as [v|] eqn:Hget.
    + apply own_property_elem; [exact Hnd'|].
      apply list_elem_of_filter. split; [exact Hk|]. apply own_property_Some_elem, Hget.
    + apply own_property_None. unfold JsObject.keys.
      rewrite keys_filter_excluded, list_elem_of_filter.
      apply own_property_None in Hget. tauto.
Qed.

(** C9: [filterRecord] returns the fields of the input whose key is not in the
    exclusion set, and only those; the remaining keys keep their relative
    order and every remaining field keeps its value. *)
Theorem filterRecord_keeps_unexcluded_fields
    (record : CsvRecord) (excluded : gset string) :
  JsObject.wf record ->
  (forall k v, (k, v) ∈ JsObject.entries (filterRecord record excluded) <->
               (k, v) ∈ JsObject.entries record /\ k ∉ excluded) /\
  JsObject.keys (filterRecord record excluded)
    = filter (fun k => k ∉ excluded) (JsObject.keys record) /\
  filterRecord record excluded `sublist_of` record /\
  (forall k, k ∉ excluded ->
             JsObject.own_property (filterRecord record excluded) k
             = JsObject.own_property record k /\
             JsObject.get (filterRecord record excluded) k = JsObject.get record k) /\
  (forall k, k ∈ excluded ->
             JsObject.own_property (filterRecord record excluded) k = None) /\
  JsObject.wf (filterRecord record excluded).
Proof.
  intros Hwf. pose proof (filterRecord_wf record excluded Hwf) as Hwf'.
  pose proof (filterRecord_own record excluded) as Hown.
  rewrite (filterRecord_filter _ _ Hwf) in *. unfold JsObject.entries, JsObject.keys.
  split; [|split; [|split; [|split; [|split]]]].
  - intros k v. rewrite list_elem_of_filter. cbn. tauto.
  - apply keys_filter_excluded.
  - apply sublist_filter.
  - intros k Hk. specialize (Hown k Hwf). rewrite decide_False in Hown by exact Hk.
    split; [exact Hown|]. unfold JsObject.get. rewrite Hown. reflexivity.
  - intros k Hk. specialize (Hown k Hwf). rewrite decide_True in Hown by exact Hk.
    exact Hown.
  - exact Hwf'.
Qed.

Lemma sample_row_wf :
  JsObject.wf [("Org_Name", Str "acme"); ("Full_URL", Str "u"); ("Repo_Name", Str "r")].
Proof.
  split; [apply (bool_decide_unpack _); vm_compute; exact I|].
  split; [|apply (bool_decide_unpack _); vm_compute; exact I].
  repeat constructor.
Qed.

Lemma filterRecord_keeps_unexcluded_fields_witness :
  JsObject.wf [("Org_Name", Str "acme"); ("Full_URL", Str "u"); ("Repo_Name", Str "r")] /\
  JsObject.keys (filterRecord [("Org_Name", Str "acme"); ("Full_URL", Str "u");
                               ("Repo_Name", Str "r")]
                              (new_Set ["Full_URL"]))
    = filter (fun k => k ∉ new_Set ["Full_URL"]) ["Org_Name"; "Full_URL"; "Repo_Name"].
Proof.
  split; [exact sample_row_wf|].
  exact (proj1 (proj2 (filterRecord_keeps_unexcluded_fields
    [("Org_Name", Str "acme"); ("Full_URL", Str "u"); ("Repo_Name", Str "r")]
    (new_Set ["Full_URL"]) sample_row_wf))).
Defined.

(** ** orderRecords *)

(** An own field of the ordered record: the value read from the source, or
    the empty string. *)
Lemma orderRecord_own (columnConfig : ColumnConfig) (record : MergedRecord) k :
  JsObject.own_property (orderRecord columnConfig record) k =
    if decide (k ∈ orderedColumns columnConfig /\ k <> "__proto__")
    then Some (JsValue.or_empty (JsObject.get record k)) else None.
Proof.
  unfold orderRecord.
  rewrite (own_property_assign_all
             (fun c => JsValue.or_empty (JsObject.get record c)))
    by apply Enterprise_plain.
  case_decide as Hin; [reflexivity|].
  cbn [JsObject.own_property]. case_decide as Hk; [|reflexivity].
  exfalso. apply Hin. subst k. split; [apply list_elem_of_here|discriminate].
Qed.

Lemma orderRecord_wf (columnConfig : ColumnConfig) (record : MergedRecord) :
  JsObject.wf (orderRecord columnConfig record).
Proof. unfold orderRecord. apply assign_all_wf, Enterprise_plain. Qed.

Lemma orderRecord_keys_elem (columnConfig : ColumnConfig) (record : MergedRecord)
    (k : string) :
  k ∈ JsObject.keys (orderRecord columnConfig record) <->
  k ∈ orderedColumns columnConfig /\ k <> "__proto__".
Proof.
  destruct (decide (k ∈ JsObject.keys (orderRecord columnConfig record))) as [Hin|Hnin].
  - split; [intros _|tauto].
    destruct (decide (k ∈ orderedColumns columnConfig /\ k <> "__proto__"))
      as [?|Hk]; [assumption|].
    exfalso. pose proof (orderRecord_own columnConfig record k) as Hget.
    rewrite decide_False in Hget by exact Hk.
    apply own_property_None in Hget. contradiction.
  - split; [tauto|]. intros Hk. exfalso.
    apply own_property_None in Hnin. rewrite orderRecord_own in Hnin.
    rewrite decide_True in Hnin by exact Hk. discriminate.
Qed.






(** C8: ordering is idempotent: ordering the ordered records again changes
    nothing, for every configuration. *)
Theorem orderRecords_idempotent
    (records : list MergedRecord) (columnConfig : ColumnConfig) :
  orderRecords (orderRecords records columnConfig) columnConfig
  = orderRecords records columnConfig.
Proof.
  unfold orderRecords. rewrite map_map. apply map_ext. intros record.
  unfold orderRecord at 1.
  apply (assign_all_ext
           (fun c => JsValue.or_empty (JsObject.get (orderRecord columnConfig record) c))
           (fun c => JsValue.or_empty (JsObject.get record c)));
    [apply Enterprise_plain|].
  intros c Hc Hp.
  rewrite (get_own (orderRecord columnConfig record) c
             (JsValue.or_empty (JsObject.get record c))).
  - apply or_empty_idem.
  - rewrite orderRecord_own, decide_True by (split; assumption). reflexivity.
Qed.

(** ** The provenance field *)

(** A spread reads the spread object first and the base object otherwise. *)
Lemma spread_own (base o : JsObject.t) (k : string) :
  NoDup (JsObject.keys o) ->
  JsObject.own_property (JsObject.spread base o) k =
    match JsObject.own_property o k with
    | Some v => Some v
    | None => JsObject.own_property base k
    end.
Proof.
  unfold JsObject.spread, JsObject.entries, JsObject.keys.
  revert base. induction o as [|[k0 v0] o IH]; intros base Hwf;
    cbn [foldl JsObject.own_property].
  - reflexivity.
  - rewrite fmap_cons in Hwf. apply NoDup_cons in Hwf as [Hk0 Hwf].
    rewrite (IH _ Hwf). cbn [fst snd] in *. rewrite own_property_define.
    case_decide as Hk; [|reflexivity].
    subst k0. apply own_property_None in Hk0. rewrite Hk0. reflexivity.
Qed.

Lemma transformRecord_own (enterprise : JsValue) (removeSet : gset string)
    (record : CsvRecord) (k : string) :
  JsObject.wf record ->
  JsObject.own_property (transformRecord enterprise removeSet record) k =
    match (if decide (k ∈ removeSet) then None else JsObject.own_property record k) with
    | Some v => Some v
    | None => if decide (k = "Enterprise") then Some enterprise else None
    end.
Proof.
  intros Hwf. unfold transformRecord.
  rewrite spread_own by (apply filterRecord_wf, Hwf).
  rewrite (filterRecord_own _ _ _ Hwf).
  destruct (if decide (k ∈ removeSet) then None else JsObject.own_property record k);
    [reflexivity|].
  cbn [JsObject.own_property]. repeat case_decide; congruence.
Qed.

Lemma Enterprise_not_inherited : JsObject.inherited "Enterprise" = None.
Proof. reflexivity. Qed.

Lemma get_Enterprise (o : JsObject.t) :
  JsObject.get o "Enterprise" = JsObject.own_property o "Enterprise".
Proof.
  unfold JsObject.get. rewrite Enterprise_not_inherited.
  destruct (JsObject.own_property o "Enterprise"); reflexivity.
Qed.

(** C1, as the code has it: the source record is spread after the provenance
    field, so a source column named [Enterprise] that is not removed keeps
    its own value in the merged record; the provenance tag is read only when
    the source has no such column or the column is removed.  The file
    [ghec_orgA_data.csv] with the row Enterprise = Other is merged with
    Enterprise = Other, not GHEC. *)
Theorem mergeCsvFiles_source_Enterprise_column_wins
    (enterprise : JsValue) (removeSet : gset string) (record : CsvRecord)
    (v : JsValue) :
  JsObject.wf record ->
  JsObject.get record "Enterprise" = Some v ->
  ("Enterprise" ∉ removeSet ->
   JsObject.get (transformRecord enterprise removeSet record) "Enterprise" = Some v) /\
  ("Enterprise" ∈ removeSet ->
   JsObject.get (transformRecord enterprise removeSet record) "Enterprise"
   = Some enterprise) /\
  extractEnterprise file_with_Enterprise_column "ghec_orgA_data.csv"
  = inr (Str "GHEC") /\
  exists res st',
    mergeCsvFiles file_with_Enterprise_column "inputs"
      {| columns := ["Org_Name"]; columnsToRemove := None;
         duplicateCheckColumns := None |} initial_state = (Returned res, st') /\
    success res = true /\
    records res = [[("Enterprise", Str "Other"); ("Org_Name", Str "acme")]].
Proof.
  intros Hwf Hget. rewrite get_Enterprise in Hget. rewrite !get_Enterprise.
  rewrite (transformRecord_own _ _ _ _ Hwf), Hget.
  split; [|split; [|split]].
  - intros Hk. rewrite decide_False by exact Hk. reflexivity.
  - intros Hk. rewrite decide_True by exact Hk. rewrite decide_True by reflexivity.
    reflexivity.
  - vm_compute. reflexivity.
  - eexists _, _. split; [vm_compute; reflexivity|]. split; reflexivity.
Qed.

Lemma Enterprise_row_wf :
  JsObject.wf [("Enterprise", Str "Other"); ("Org_Name", Str "acme")].
Proof.
  split; [apply (bool_decide_unpack _); vm_compute; exact I|].
  split; [|apply (bool_decide_unpack _); vm_compute; exact I].
  repeat constructor.
Qed.

Lemma mergeCsvFiles_source_Enterprise_column_wins_witness :
  JsObject.wf [("Enterprise", Str "Other"); ("Org_Name", Str "acme")] /\
  JsObject.get [("Enterprise", Str "Other"); ("Org_Name", Str "acme")] "Enterprise"
    = Some (Str "Other") /\
  ("Enterprise" ∉ (∅ : gset string)) /\
  JsObject.get (transformRecord (Str "GHEC") ∅
                  [("Enterprise", Str "Other"); ("Org_Name", Str "acme")])
               "Enterprise" = Some (Str "Other").
Proof.
  assert (Hget : JsObject.get [("Enterprise", Str "Other"); ("Org_Name", Str "acme")]
                              "Enterprise" = Some (Str "Other")) by reflexivity.
  assert (Hk : "Enterprise" ∉ (∅ : gset string)) by apply not_elem_of_empty.
  split; [exact Enterprise_row_wf|]. split; [exact Hget|]. split; [exact Hk|].
  exact (proj1 (mergeCsvFiles_source_Enterprise_column_wins (Str "GHEC") ∅
                  [("Enterprise", Str "Other"); ("Org_Name", Str "acme")]
                  (Str "Other") Enterprise_row_wf Hget) Hk).
Defined.

(** ** Strings *)

Lemma append_nil_l (s : string) : "" +:+ s = s.
Proof. reflexivity. Qed.

Lemma append_cons (a : ascii) (s t : string) : String a s +:+ t = String a (s +:+ t).
Proof. reflexivity. Qed.

Lemma append_nil_r (s : string) : s +:+ "" = s.
Proof. induction s as [|a s IH]; [reflexivity|]. rewrite append_cons, IH. reflexivity. Qed.

Lemma append_assoc (s t u : string) : (s +:+ t) +:+ u = s +:+ (t +:+ u).
Proof.
  induction s as [|a s IH]; [reflexivity|].
  rewrite !append_cons, IH. reflexivity.
Qed.


Lemma indexOf_app_char (c : ascii) (pre post : string) :
  JsString.lacks c pre ->
  JsString.indexOf c (pre +:+ String c post) = Some (String.length pre).
Proof.
  induction pre as [|a pre IH];
    rewrite ?append_nil_l, ?append_cons;
    cbn [JsString.indexOf JsString.lacks String.length]; intros Hl.
  - rewrite Ascii.eqb_refl. reflexivity.
  - destruct Hl as [Hne Hl]. apply Ascii.eqb_neq in Hne. rewrite Hne.
    rewrite (IH Hl). reflexivity.
Qed.

Lemma indexOf_lacks (c : ascii) (s : string) :
  JsString.lacks c s -> JsString.indexOf c s = None.
Proof.
  induction s as [|a s IH]; cbn; [reflexivity|].
  intros [Hne Hl]. apply Ascii.eqb_neq in Hne. rewrite Hne, (IH Hl). reflexivity.
Qed.

Lemma indexOf_None_lacks (c : ascii) (s : string) :
  JsString.indexOf c s = None -> JsString.lacks c s.
Proof.
  induction s as [|a s IH]; cbn; [trivial|].
  destruct (Ascii.eqb a c) eqn:Heq; [discriminate|].
  apply Ascii.eqb_neq in Heq. intros H. split; [exact Heq|].
  apply IH. destruct (JsString.indexOf c s); [discriminate|reflexivity].
Qed.

Lemma indexOf_Some_split (c : ascii) (s : string) (n : nat) :
  JsString.indexOf c s = Some n ->
  exists pre post, s = pre +:+ String c post /\ JsString.lacks c pre /\
                   n = String.length pre.
Proof.
  revert n. induction s as [|a s IH]; intros n; cbn [JsString.indexOf]; [discriminate|].
  destruct (Ascii.eqb a c) eqn:Heq.
  - apply Ascii.eqb_eq in Heq as ->. intros [= <-].
    exists "", s. repeat split.
  - destruct (JsString.indexOf c s) as [m|]; [|discriminate].
    cbn. intros [= <-]. destruct (IH m eq_refl) as (pre & post & -> & Hl & ->).
    exists (String a pre), post. rewrite append_cons. cbn [JsString.lacks String.length].
    apply Ascii.eqb_neq in Heq. auto.
Qed.

Lemma substring0_app (pre post : string) :
  JsString.substring0 (String.length pre) (pre +:+ post) = pre.
Proof.
  induction pre as [|a pre IH];
    rewrite ?append_nil_l, ?append_cons;
    cbn [JsString.substring0 String.length].
  - destruct post; reflexivity.
  - rewrite IH. reflexivity.
Qed.

Lemma startsWith_app (p s : string) : JsString.startsWith p (p +:+ s) = true.
Proof.
  induction p as [|a p IH]; [reflexivity|].
  rewrite append_cons. cbn [JsString.startsWith].
  rewrite Ascii.eqb_refl, IH. reflexivity.
Qed.

Lemma includes_startsWith (p s : string) :
  JsString.startsWith p s = true -> JsString.includes p s = true.
Proof. intros H. destruct s; cbn [JsString.includes]; rewrite H; reflexivity. Qed.

(** ** extractEnterprise *)

Lemma ENTERPRISE_MAPPING_own (enterprisePrefix : string) (tag : JsValue) :
  JsObject.own_property ENTERPRISE_MAPPING enterprisePrefix = Some tag ->
  (enterprisePrefix = "ghec" /\ tag = Str "GHEC") \/
  (enterprisePrefix = "ghec-emu" /\ tag = Str "GHEC-EMU") \/
  (enterprisePrefix = "ghes" /\ tag = Str "GHES").
Proof.
  unfold ENTERPRISE_MAPPING. cbn [JsObject.own_property].
  repeat case_decide; intros [= <-]; subst; auto.
Qed.

Lemma ENTERPRISE_MAPPING_truthy (enterprisePrefix : string) (tag : JsValue) :
  JsObject.own_property ENTERPRISE_MAPPING enterprisePrefix = Some tag ->
  JsValue.truthy tag = true.
Proof.
  intros H. destruct (ENTERPRISE_MAPPING_own _ _ H) as [[_ ->]|[[_ ->]|[_ ->]]];
    reflexivity.
Qed.

(** What [extractEnterprise] does once the prefix is cut off. *)
Lemma extractEnterprise_prefix (env : Env) (filename pre post : string) :
  path.basename_ext filename ".csv" = pre +:+ "_" +:+ post ->
  JsString.lacks "_" pre ->
  extractEnterprise env filename =
    match JsObject.get ENTERPRISE_MAPPING
            (JsString.toLowerCase (unicode_lower env) pre) with
    | Some enterprise =>
        if negb (JsValue.truthy enterprise)
        then inl (unknown_prefix_message
                    (JsString.toLowerCase (unicode_lower env) pre) filename)
        else inr enterprise
    | None => inl (unknown_prefix_message
                     (JsString.toLowerCase (unicode_lower env) pre) filename)
    end.
Proof.
  intros Hbase Hpre. unfold extractEnterprise.
  rewrite Hbase. change ("_" +:+ post) with (String "_" post).
  rewrite (indexOf_app_char _ _ _ Hpre), substring0_app. reflexivity.
Qed.

(** C4, as the code has it: when the base name (without its [.csv]
    extension) is [pre_post] with no underscore in [pre], the lowercased
    [pre] decides the outcome: the mapped tag when it is a key of the table;
    the unknown-prefix error when it is neither a key of the table nor a
    name that the table inherits from [Object.prototype]; and the inherited
    member, returned as if it were a tag, when it is such a name.  A base
    name without underscore gives the invalid-format error, and the two
    errors never coincide.  The file [constructor_org.csv] resolves to the
    function [Object] instead of failing with the unknown-prefix error. *)
Theorem extractEnterprise_resolves_prefix (env : Env) (filename : string) :
  (forall pre post,
     path.basename_ext filename ".csv" = pre +:+ "_" +:+ post ->
     JsString.lacks "_" pre ->
     (forall tag,
        JsObject.own_property ENTERPRISE_MAPPING
          (JsString.toLowerCase (unicode_lower env) pre) = Some tag ->
        extractEnterprise env filename = inr tag) /\
     ((JsString.toLowerCase (unicode_lower env) pre ∉ JsObject.keys ENTERPRISE_MAPPING) ->
      (JsString.toLowerCase (unicode_lower env) pre ∉ JsObject.prototype_names) ->
      extractEnterprise env filename
      = inl (unknown_prefix_message
               (JsString.toLowerCase (unicode_lower env) pre) filename)) /\
     (JsString.toLowerCase (unicode_lower env) pre ∈ JsObject.prototype_names ->
      extractEnterprise env filename
      = inr (Inherited (JsString.toLowerCase (unicode_lower env) pre)))) /\
  (JsString.lacks "_" (path.basename_ext filename ".csv") ->
   extractEnterprise env filename = inl (invalid_format_message filename)) /\
  (forall enterprisePrefix filename',
     invalid_format_message filename
     <> unknown_prefix_message enterprisePrefix filename') /\
  extractEnterprise env "constructor_org.csv" = inr (Inherited "constructor").
Proof.
  split; [|split; [|split]].
  - intros pre post Hbase Hpre.
    rewrite (extractEnterprise_prefix env filename pre post Hbase Hpre).
    split; [|split].
    + intros tag Htag. rewrite (get_own _ _ _ Htag).
      rewrite (ENTERPRISE_MAPPING_truthy _ _ Htag). reflexivity.
    + intros Hkey Hproto. rewrite (get_not_own _ _ Hkey).
      rewrite (proj2 (inherited_None _) Hproto). reflexivity.
    + intros Hproto.
      assert (Hkey : JsString.toLowerCase (unicode_lower env) pre
                     ∉ JsObject.keys ENTERPRISE_MAPPING).
      { intros Hkey. revert Hproto. cbn in Hkey.
        repeat (apply elem_of_cons in Hkey as [->|Hkey];
                [intros Hp; apply (bool_decide_pack _) in Hp; vm_compute in Hp;
                 exact Hp|]).
        apply elem_of_nil in Hkey as []. }
      rewrite (get_not_own _ _ Hkey), (inherited_Some _ Hproto). reflexivity.
  - intros Hl. unfold extractEnterprise. rewrite (indexOf_lacks _ _ Hl). reflexivity.
  - intros enterprisePrefix filename'. unfold invalid_format_message, unknown_prefix_message.
    discriminate.
  - vm_compute. reflexivity.
Qed.

Lemma extractEnterprise_resolves_prefix_witness :
  path.basename_ext "GHEC-EMU_dva-admin_data.csv" ".csv"
    = "GHEC-EMU" +:+ "_" +:+ "dva-admin_data" /\
  JsString.lacks "_" "GHEC-EMU" /\
  JsObject.own_property ENTERPRISE_MAPPING
    (JsString.toLowerCase (unicode_lower two_files) "GHEC-EMU") = Some (Str "GHEC-EMU") /\
  extractEnterprise two_files "GHEC-EMU_dva-admin_data.csv" = inr (Str "GHEC-EMU").
Proof.
  assert (Hb : path.basename_ext "GHEC-EMU_dva-admin_data.csv" ".csv"
               = "GHEC-EMU" +:+ "_" +:+ "dva-admin_data") by (vm_compute; reflexivity).
  assert (Hl : JsString.lacks "_" "GHEC-EMU") by (cbn; repeat split; discriminate).
  assert (Hm : JsObject.own_property ENTERPRISE_MAPPING
                 (JsString.toLowerCase (unicode_lower two_files) "GHEC-EMU")
               = Some (Str "GHEC-EMU"))
    by (vm_compute; reflexivity).
  split; [exact Hb|]. split; [exact Hl|]. split; [exact Hm|].
  exact (proj1 (proj1 (extractEnterprise_resolves_prefix two_files
                         "GHEC-EMU_dva-admin_data.csv")
                  "GHEC-EMU" "dva-admin_data" Hb Hl) (Str "GHEC-EMU") Hm).
Defined.

(** ** Blank values *)

Lemma strip_space_shorter (s s' : string) :
  JsString.strip_space s = Some s' -> (String.length s' < String.length s)%nat.
Proof.
  unfold JsString.strip_space.
  destruct s as [|a [|b [|c s3]]]; cbn [String.length];
    repeat case_match; intros [= <-]; cbn [String.length]; lia.
Qed.

Lemma trimStart_upto_enough (n m : nat) (s : string) :
  (String.length s <= n)%nat -> (String.length s <= m)%nat ->
  JsString.trimStart_upto n s = JsString.trimStart_upto m s.
Proof.
  revert m s. induction n as [|n IH]; intros m s Hn Hm.
  - destruct s; [|cbn in Hn; lia]. destruct m; reflexivity.
  - destruct m as [|m].
    + destruct s; [reflexivity|cbn in Hm; lia].
    + cbn [JsString.trimStart_upto].
      destruct (JsString.strip_space s) as [s'|] eqn:Hs; [|reflexivity].
      apply strip_space_shorter in Hs. apply IH; lia.
Qed.

Lemma trimStart_eq (s : string) :
  JsString.trimStart s =
    match JsString.strip_space s with
    | Some s' => JsString.trimStart s'
    | None => s
    end.
Proof.
  unfold JsString.trimStart at 1.
  destruct (String.length s) as [|n] eqn:Hlen.
  - destruct s; [reflexivity|discriminate].
  - cbn [JsString.trimStart_upto].
    destruct (JsString.strip_space s) as [s'|] eqn:Hs; [|reflexivity].
    apply strip_space_shorter in Hs. unfold JsString.trimStart.
    apply trimStart_upto_enough; lia.
Qed.

Lemma whitespace_only_upto_enough (n m : nat) (s : string) :
  (String.length s <= n)%nat -> (String.length s <= m)%nat ->
  JsString.whitespace_only_upto n s = JsString.whitespace_only_upto m s.
Proof.
  revert m s. induction n as [|n IH]; intros m s Hn Hm.
  - destruct s; [|cbn in Hn; lia]. destruct m; reflexivity.
  - destruct m as [|m].
    + destruct s; [reflexivity|cbn in Hm; lia].
    + destruct s as [|a s]; [reflexivity|]. cbn [JsString.whitespace_only_upto].
      destruct (JsString.strip_space (String a s)) as [s'|] eqn:Hs; [|reflexivity].
      apply strip_space_shorter in Hs. apply IH; lia.
Qed.

Lemma whitespace_only_eq (s : string) :
  JsString.whitespace_only s =
    match s with
    | EmptyString => true
    | String _ _ =>
        match JsString.strip_space s with
        | Some s' => JsString.whitespace_only s'
        | None => false
        end
    end.
Proof.
  unfold JsString.whitespace_only at 1. destruct s as [|a s]; [reflexivity|].
  cbn [String.length JsString.whitespace_only_upto].
  destruct (JsString.strip_space (String a s)) as [s'|] eqn:Hs; [|reflexivity].
  apply strip_space_shorter in Hs. unfold JsString.whitespace_only.
  apply whitespace_only_upto_enough; cbn [String.length] in *; lia.
Qed.

Lemma whitespace_only_trimStart (s : string) :
  JsString.whitespace_only (JsString.trimStart s) = JsString.whitespace_only s.
Proof.
  remember (String.length s) as n eqn:Hn. revert s Hn.
  induction n as [n IH] using lt_wf_ind. intros s Hn.
  rewrite (trimStart_eq s), (whitespace_only_eq s).
  destruct (JsString.strip_space s) as [s'|] eqn:Hs.
  - destruct s as [|a s]; [discriminate|].
    apply (IH (String.length s')); [|reflexivity].
    apply strip_space_shorter in Hs. lia.
  - destruct s as [|a s]; [reflexivity|]. rewrite whitespace_only_eq, Hs. reflexivity.
Qed.

Lemma trimEnd_empty (s : string) :
  JsString.trimEnd s = "" <-> JsString.whitespace_only s = true.
Proof.
  destruct s as [|a s]; cbn [JsString.trimEnd].
  - split; reflexivity.
  - destruct (JsString.whitespace_only (String a s)); split; try reflexivity;
      discriminate.
Qed.

(** The test [value.trim() === ""] holds of the white-space-only values. *)
Lemma trim_empty_iff (s : string) :
  JsString.trim s = "" <-> JsString.whitespace_only s = true.
Proof.
  unfold JsString.trim. rewrite trimEnd_empty, whitespace_only_trimStart. reflexivity.
Qed.

Lemma whitespace_only_false_trim (v : string) :
  JsString.whitespace_only v = false <-> JsString.trim v <> "".
Proof.
  rewrite trim_empty_iff. destruct (JsString.whitespace_only v); split;
    congruence.
Qed.

Lemma ascii_of_nat_eq (a : ascii) (n : nat) : nat_of_ascii a = n -> a = ascii_of_nat n.
Proof. intros <-. symmetry. apply ascii_nat_embedding. Qed.

Lemma strip_space_inv (s s' : string) :
  JsString.strip_space s = Some s' -> exists w, w ∈ white_space /\ s = w +:+ s'.
Proof.
  unfold JsString.strip_space. cbv zeta.
  destruct s as [|a s1]; [discriminate|].
  destruct ((9 <=? nat_of_ascii a)%nat && (nat_of_ascii a <=? 13)%nat
            || (nat_of_ascii a =? 32)%nat) eqn:H1.
  { intros [= <-].
    rewrite orb_true_iff, andb_true_iff, !Nat.leb_le, Nat.eqb_eq in H1.
    assert (Hx : (nat_of_ascii a = 9 \/ nat_of_ascii a = 10 \/ nat_of_ascii a = 11 \/
                  nat_of_ascii a = 12 \/ nat_of_ascii a = 13 \/ nat_of_ascii a = 32)%nat)
      by lia.
    exists (String a ""). split; [|reflexivity].
    repeat (destruct Hx as [Hx|Hx]);
      apply ascii_of_nat_eq in Hx; subst a;
      apply (bool_decide_unpack _); vm_compute; exact I. }
  destruct s1 as [|b s2]; [discriminate|].
  destruct ((nat_of_ascii a =? 194)%nat && (nat_of_ascii b =? 160)%nat) eqn:H2.
  { intros [= <-]. rewrite andb_true_iff, !Nat.eqb_eq in H2. destruct H2 as [Ha Hb].
    apply ascii_of_nat_eq in Ha, Hb. subst a b.
    exists (utf8 [194; 160]%nat). split; [|reflexivity].
    apply (bool_decide_unpack _); vm_compute; exact I. }
  destruct s2 as [|c s3]; [discriminate|].
  repeat match goal with
  | |- (if ?cond then _ else _) = _ -> _ => destruct cond eqn:?
  end; try discriminate; intros [= <-];
  repeat match goal with
  | H : _ && _ = true |- _ => apply andb_true_iff in H as [? ?]
  | H : (_ =? _)%nat = true |- _ => apply Nat.eqb_eq, ascii_of_nat_eq in H
  end; subst.
  - exists (utf8 [225; 154; 128]%nat). split; [|reflexivity].
    apply (bool_decide_unpack _); vm_compute; exact I.
  - match goal with H : _ || _ = true |- _ =>
      rewrite !orb_true_iff, andb_true_iff, !Nat.leb_le, !Nat.eqb_eq in H;
      assert (Hz : (nat_of_ascii c = 128 \/ nat_of_ascii c = 129 \/
                    nat_of_ascii c = 130 \/ nat_of_ascii c = 131 \/
                    nat_of_ascii c = 132 \/ nat_of_ascii c = 133 \/
                    nat_of_ascii c = 134 \/ nat_of_ascii c = 135 \/
                    nat_of_ascii c = 136 \/ nat_of_ascii c = 137 \/
                    nat_of_ascii c = 138 \/ nat_of_ascii c = 168 \/
                    nat_of_ascii c = 169 \/ nat_of_ascii c = 175)%nat) by lia
    end.
    exists (String (ascii_of_nat 226) (String (ascii_of_nat 128) (String c ""))).
    split; [|reflexivity].
    repeat (destruct Hz as [Hz|Hz]);
      apply ascii_of_nat_eq in Hz; subst c;
      apply (bool_decide_unpack _); vm_compute; exact I.
  - exists (utf8 [226; 129; 159]%nat). split; [|reflexivity].
    apply (bool_decide_unpack _); vm_compute; exact I.
  - exists (utf8 [227; 128; 128]%nat). split; [|reflexivity].
    apply (bool_decide_unpack _); vm_compute; exact I.
  - exists (utf8 [239; 187; 191]%nat). split; [|reflexivity].
    apply (bool_decide_unpack _); vm_compute; exact I.
Qed.

Lemma strip_space_white (w s : string) :
  w ∈ white_space -> JsString.strip_space (w +:+ s) = Some s /\ w <> "".
Proof.
  unfold white_space. intros Hw.
  repeat (apply elem_of_cons in Hw as [->|Hw]; [split; [reflexivity|discriminate]|]).
  apply elem_of_nil in Hw as [].
Qed.

(** The values that [trim] empties are the blank ones. *)
Lemma whitespace_only_blank (s : string) :
  JsString.whitespace_only s = true <-> blank s.
Proof.
  split.
  - remember (String.length s) as n eqn:Hn. revert s Hn.
    induction n as [n IH] using lt_wf_ind. intros s Hn.
    rewrite whitespace_only_eq. destruct s as [|a s]; [intros _; constructor|].
    destruct (JsString.strip_space (String a s)) as [s'|] eqn:Hs; [|discriminate].
    intros Hws. destruct (strip_space_inv _ _ Hs) as (w & Hw & ->).
    apply blank_space; [exact Hw|].
    apply (IH (String.length s')); [|reflexivity|exact Hws].
    apply strip_space_shorter in Hs. lia.
  - induction 1 as [|w s Hw _ IH]; [reflexivity|].
    destruct (strip_space_white w s Hw) as [Hs Hne].
    rewrite whitespace_only_eq.
    destruct (w +:+ s) eqn:Hws.
    + destruct w; [congruence|discriminate].
    + rewrite Hs. exact IH.
Qed.

(** ** The scan of checkForDuplicates *)

Lemma rows_of_elem (column : string) (records : list MergedRecord) (index : nat)
    (v : string) (n : nat) :
  n ∈ rows_of column records index v <->
  exists i record, records !! i = Some record /\ n = (index + i + 2)%nat /\
                   cell_value column record = Str v /\ JsString.trim v <> "".
Proof.
  revert index. induction records as [|r records IH]; intros index; cbn [rows_of].
  - split; [intros H; apply elem_of_nil in H as [] | intros (i & r & H & _); discriminate].
  - rewrite elem_of_app, IH. split.
    + intros [Hn|(i & r' & Hi & -> & Hc)].
      * case_decide as Hd; [|apply elem_of_nil in Hn as []].
        apply list_elem_of_singleton in Hn as ->.
        exists 0%nat, r. split; [reflexivity|]. split; [lia|exact Hd].
      * exists (S i), r'. split; [exact Hi|]. split; [lia|exact Hc].
    + intros ([|i] & r' & Hi & -> & Hc).
      * left. injection Hi as <-. rewrite decide_True by exact Hc.
        apply list_elem_of_singleton. lia.
      * right. exists i, r'. split; [exact Hi|]. split; [lia|exact Hc].
Qed.

Lemma rows_of_lower_bound (column : string) (records : list MergedRecord)
    (index : nat) (v : string) :
  Forall (fun n => (index + 2 <= n)%nat) (rows_of column records index v).
Proof.
  apply Forall_forall. intros n Hn. apply rows_of_elem in Hn as (i & _ & _ & -> & _). lia.
Qed.

Lemma rows_of_increasing (column : string) (records : list MergedRecord)
    (index : nat) (v : string) :
  StronglySorted lt (rows_of column records index v).
Proof.
  revert index. induction records as [|r records IH]; intros index; cbn [rows_of].
  - constructor.
  - case_decide; cbn [app]; [|apply IH].
    constructor; [apply IH|].
    eapply Forall_impl; [apply rows_of_lower_bound|]. cbn. intros n Hn. lia.
Qed.

(** The scan fails exactly on a value that is not a string. *)
Lemma scan_record_outcome (column : string) (m : JsMap.t (nat * list nat))
    (index : nat) (record : MergedRecord) :
  (JsValue.is_text (cell_value column record) = true /\
   exists m', scan_record column m index record = inr m') \/
  (JsValue.is_text (cell_value column record) = false /\
   scan_record column m index record = inl trim_not_a_function).
Proof.
  unfold scan_record. destruct (cell_value column record) as [v|name]; cbn.
  - left. split; [reflexivity|]. case_decide; [eauto|].
    destruct (JsMap.get m v); eauto.
  - right. auto.
Qed.

Lemma scan_outcome (column : string) (records : list MergedRecord) (index : nat)
    (m : JsMap.t (nat * list nat)) :
  (text_cells column records /\
   exists m', forEach_index (scan_record column) records index m = inr m') \/
  (~ text_cells column records /\
   forEach_index (scan_record column) records index m = inl trim_not_a_function).
Proof.
  unfold text_cells. revert index m.
  induction records as [|r records IH]; intros index m; cbn [forEach_index].
  - left. split; [constructor|eauto].
  - destruct (scan_record_outcome column m index r) as [[Ht (m1 & ->)]|[Ht ->]].
    + destruct (IH (S index) m1) as [[Hall Hrun]|[Hall Hrun]].
      * left. split; [constructor; assumption|exact Hrun].
      * right. split; [|exact Hrun]. intros H. apply Forall_cons in H as [_ H]. auto.
    + right. split; [|reflexivity]. intros H. apply Forall_cons in H as [H _]. congruence.
Qed.

(** What the scan has recorded for a value, from what the table held. *)
Lemma scan_get (column : string) (records : list MergedRecord) (index : nat)
    (m m' : JsMap.t (nat * list nat)) (v : string) :
  forEach_index (scan_record column) records index m = inr m' ->
  JsMap.get m' v =
    match JsMap.get m v with
    | Some existing =>
        Some ((existing.1 + length (rows_of column records index v))%nat,
              existing.2 ++ rows_of column records index v)
    | None =>
        match rows_of column records index v with
        | [] => None
        | rows => Some (length rows, rows)
        end
    end.
Proof.
  revert index m. induction records as [|r records IH]; intros index m;
    cbn [forEach_index rows_of].
  - intros [= <-]. destruct (JsMap.get m v) as [[c rn]|]; [|reflexivity].
    cbn. rewrite Nat.add_0_r, app_nil_r. reflexivity.
  - unfold scan_record at 1.
    destruct (cell_value column r) as [w|name] eqn:Hcell; [|discriminate].
    destruct (decide (JsString.trim w = "")) as [Hblank|Hval].
    + intros Hrun. rewrite (IH _ _ Hrun).
      rewrite decide_False by (intros [[= <-] Hv]; contradiction). reflexivity.
    + destruct (decide (w = v)) as [->|Hne].
      * rewrite decide_True by auto.
        destruct (JsMap.get m v) as [[c rn]|] eqn:Hget; intros Hrun;
          rewrite (IH _ _ Hrun), JsMap_get_set, decide_True by reflexivity; cbn.
        -- rewrite <- app_assoc. cbn. do 2 f_equal. lia.
        -- reflexivity.
      * rewrite decide_False by (intros [[= ?] _]; contradiction). cbn [app].
        destruct (JsMap.get m w) as [[c rn]|]; intros Hrun;
          rewrite (IH _ _ Hrun), JsMap_get_set, decide_False by exact Hne; reflexivity.
Qed.

Lemma StronglySorted_snoc (l : list nat) (x : nat) :
  StronglySorted lt l -> Forall (fun n => (n < x)%nat) l ->
  StronglySorted lt (l ++ [x]).
Proof. apply StronglySorted_snoc_rel. Qed.

Lemma scan_record_invariant (column : string) (index : nat)
    (m m' : JsMap.t (nat * list nat)) (record : MergedRecord) :
  scan_record column m index record = inr m' ->
  scan_invariant index m -> scan_invariant (S index) m'.
Proof.
  intros Hrun (Hnd & Hne & Hsorted & Hbound).
  assert (Hbound' : Forall (fun n => (n < S index + 2)%nat) (heads m)).
  { eapply Forall_impl; [exact Hbound|]. cbn. intros n Hn. lia. }
  unfold scan_record in Hrun.
  destruct (cell_value column record) as [w|name]; [|discriminate].
  case_decide as Hblank; [injection Hrun as <-; repeat split; assumption|].
  destruct (JsMap.get m w) as [[c rn]|] eqn:Hget; injection Hrun as <-.
  - cbn [fst snd].
    destruct (JsMap_set_split m _ (c, rn) ((c + 1)%nat, rn ++ [(index + 2)%nat]) Hget)
      as (m1 & m2 & Hm & ->).
    subst m.
    assert (Hrn : rn <> []).
    { apply Forall_app in Hne as [_ Hne]. apply Forall_cons in Hne as [Hrn _]. exact Hrn. }
    assert (Hheads : heads (m1 ++ (w, ((c + 1)%nat, rn ++ [(index + 2)%nat])) :: m2)
                     = heads (m1 ++ (w, (c, rn)) :: m2)).
    { unfold heads. rewrite !fmap_app, !fmap_cons. cbn [fst snd].
      destruct rn; [contradiction|reflexivity]. }
    unfold scan_invariant. rewrite Hheads.
    split; [|split; [|split]]; try assumption.
    + rewrite fmap_app, fmap_cons in *. exact Hnd.
    + apply Forall_app in Hne as [Hne1 Hne2]. apply Forall_cons in Hne2 as [_ Hne2].
      apply Forall_app. split; [exact Hne1|]. apply Forall_cons. split; [|exact Hne2].
      cbn. destruct rn; discriminate.
  - apply JsMap_get_None in Hget. rewrite (JsMap_set_fresh _ _ _ Hget).
    unfold scan_invariant, heads. rewrite !fmap_app. cbn [fmap list_fmap fst snd hd].
    split; [|split; [|split]].
    + apply NoDup_app. split; [exact Hnd|]. split; [|apply NoDup_singleton].
      intros k Hk Hk'. apply list_elem_of_singleton in Hk'. subst k. contradiction.
    + apply Forall_app. split; [exact Hne|]. apply Forall_singleton. discriminate.
    + apply StronglySorted_snoc; assumption.
    + apply Forall_app. split; [exact Hbound'|]. apply Forall_singleton. lia.
Qed.

Lemma scan_invariant_final (column : string) (records : list MergedRecord)
    (index : nat) (m m' : JsMap.t (nat * list nat)) :
  forEach_index (scan_record column) records index m = inr m' ->
  scan_invariant index m ->
  scan_invariant (index + length records) m'.
Proof.
  revert index m. induction records as [|r records IH]; intros index m;
    cbn [forEach_index length].
  - intros [= <-]. rewrite Nat.add_0_r. auto.
  - destruct (scan_record column m index r) as [|m1] eqn:H1; [discriminate|].
    intros Hrun Hinv.
    replace (index + S (length records))%nat with (S index + length records)%nat by lia.
    eapply IH; [exact Hrun|]. eapply scan_record_invariant; eassumption.
Qed.

Lemma scan_invariant_empty : scan_invariant 0 [].
Proof. repeat split; constructor. Qed.

(** ** The stable sort of the report *)

Lemma sort_insert_Permutation {A} (compare : A -> A -> Z) (x : A) (l : list A) :
  sort_insert compare x l ≡ₚ x :: l.
Proof.
  induction l as [|y l IH]; cbn [sort_insert]; [reflexivity|].
  destruct (compare x y <=? 0)%Z; [reflexivity|].
  rewrite IH. apply Permutation_swap.
Qed.

Lemma Array_sort_Permutation {A} (compare : A -> A -> Z) (l : list A) :
  Array_sort compare l ≡ₚ l.
Proof.
  unfold Array_sort. induction l as [|x l IH]; cbn [foldr]; [reflexivity|].
  rewrite sort_insert_Permutation, IH. reflexivity.
Qed.

Lemma sort_insert_reported (x : DuplicateValue) (l : list DuplicateValue) :
  StronglySorted reported_before l ->
  Forall (fun y => (first_row x < first_row y)%nat) l ->
  StronglySorted reported_before (sort_insert by_count_descending x l).
Proof.
  induction l as [|y l IH]; cbn [sort_insert]; intros Hs Hf.
  - repeat constructor.
  - apply StronglySorted_inv in Hs as [Hs Hy]. apply Forall_cons in Hf as [Hxy Hf].
    unfold by_count_descending at 1.
    destruct (Z.leb_spec (Z.of_nat (count y) - Z.of_nat (count x)) 0) as [Hle|Hgt].
    + constructor; [constructor; assumption|].
      apply Forall_cons. split.
      * unfold reported_before. lia.
      * rewrite Forall_forall in Hy, Hf |- *. intros z Hz.
        specialize (Hy z Hz). specialize (Hf z Hz). unfold reported_before in *. lia.
    + constructor; [apply IH; assumption|].
      rewrite sort_insert_Permutation. apply Forall_cons. split; [|exact Hy].
      unfold reported_before. lia.
Qed.

(** Sorting by count, descending, keeps values of equal count in the order
    in which they were first seen. *)
Lemma Array_sort_reported (l : list DuplicateValue) :
  StronglySorted (fun a b => (first_row a < first_row b)%nat) l ->
  StronglySorted reported_before (Array_sort by_count_descending l).
Proof.
  unfold Array_sort. induction l as [|x l IH]; cbn [foldr]; intros Hs.
  - constructor.
  - apply StronglySorted_inv in Hs as [Hs Hx].
    apply sort_insert_reported; [apply IH, Hs|].
    fold (Array_sort by_count_descending l). rewrite Array_sort_Permutation. exact Hx.
Qed.

(** ** The report of one column *)

(** The table that the scan of a column builds, when the scan ends. *)
Lemma duplicateValuesOf_table (column : string) (records : list MergedRecord)
    (report : list DuplicateValue) :
  duplicateValuesOf records column = inr report ->
  exists m, forEach_index (scan_record column) records 0 [] = inr m /\
            report = duplicates_in m /\
            scan_invariant (length records) m /\
            forall v, JsMap.get m v =
                        match rows_of column records 0 v with
                        | [] => None
                        | rows => Some (length rows, rows)
                        end.
Proof.
  unfold duplicateValuesOf.
  destruct (forEach_index (scan_record column) records 0 []) as [|m] eqn:Hscan;
    [discriminate|].
  intros [= <-]. exists m. split; [reflexivity|]. split; [reflexivity|]. split.
  - apply (scan_invariant_final column records 0 [] m Hscan scan_invariant_empty).
  - intros v. rewrite (scan_get _ _ _ _ _ v Hscan). reflexivity.
Qed.

Lemma duplicateValuesOf_elem (column : string) (records : list MergedRecord)
    (report : list DuplicateValue) (e : DuplicateValue) :
  duplicateValuesOf records column = inr report ->
  e ∈ report <->
  rowNumbers e = rows_of column records 0 (value e) /\
  count e = length (rowNumbers e) /\ (2 <= count e)%nat.
Proof.
  intros Hrep. destruct (duplicateValuesOf_table _ _ _ Hrep)
    as (m & _ & -> & (Hnd & _ & _ & _) & Hget).
  unfold duplicates_in, JsMap.entries. rewrite Array_sort_Permutation.
  rewrite list_elem_of_In, in_map_iff. split.
  - intros ([k [c rn]] & <- & Hin). apply filter_In in Hin as [Hin Hc].
    cbn [fst snd] in *. apply Nat.ltb_lt in Hc.
    apply list_elem_of_In, (JsMap_elem_get _ _ _ Hnd) in Hin.
    rewrite Hget in Hin. cbn [value count rowNumbers].
    destruct (rows_of column records 0 k) as [|n rows]; [discriminate|].
    injection Hin as <- <-. split; [reflexivity|]. split; [reflexivity|lia].
  - destruct e as [v c rn]. cbn [value count rowNumbers]. intros (-> & -> & Hc).
    exists (v, (length (rows_of column records 0 v), rows_of column records 0 v)).
    split; [reflexivity|]. apply filter_In. split.
    + apply list_elem_of_In, JsMap_get_Some_elem. rewrite Hget.
      destruct (rows_of column records 0 v); [cbn in Hc; lia|reflexivity].
    + cbn [fst snd]. apply Nat.ltb_lt. lia.
Qed.

Lemma duplicateValuesOf_sorted (column : string) (records : list MergedRecord)
    (report : list DuplicateValue) :
  duplicateValuesOf records column = inr report ->
  StronglySorted reported_before report.
Proof.
  intros Hrep. destruct (duplicateValuesOf_table _ _ _ Hrep)
    as (m & _ & -> & (_ & _ & Hsorted & _) & _).
  unfold duplicates_in, JsMap.entries. apply Array_sort_reported.
  revert Hsorted. clear. unfold heads.
  induction m as [|[k [c rn]] m IH];
    cbn [List.filter map fst snd fmap list_fmap]; intros Hs.
  - constructor.
  - apply StronglySorted_inv in Hs as [Hs Hhd]. specialize (IH Hs).
    destruct (1 <? c)%nat; cbn [map fst snd]; [|exact IH].
    constructor; [exact IH|].
    apply Forall_forall. intros b Hb. apply list_elem_of_In, in_map_iff in Hb
      as ([k' [c' rn']] & <- & Hin). apply filter_In in Hin as [Hin _].
    rewrite Forall_forall in Hhd. unfold first_row. cbn.
    apply (Hhd (hd 0%nat rn')). apply list_elem_of_fmap.
    exists (k', (c', rn')). split; [reflexivity|]. apply list_elem_of_In, Hin.
Qed.

Lemma duplicateValuesOf_values_NoDup (column : string) (records : list MergedRecord)
    (report : list DuplicateValue) :
  duplicateValuesOf records column = inr report ->
  NoDup (value <$> report).
Proof.
  intros Hrep. destruct (duplicateValuesOf_table _ _ _ Hrep)
    as (m & _ & -> & (Hnd & _ & _ & _) & _).
  unfold duplicates_in, JsMap.entries. rewrite Array_sort_Permutation.
  revert Hnd. clear.
  induction m as [|[k [c rn]] m IH];
    cbn [List.filter map fst snd fmap list_fmap]; intros Hnd.
  - constructor.
  - apply NoDup_cons in Hnd as [Hk Hnd]. specialize (IH Hnd).
    destruct (1 <? c)%nat; cbn [map fst snd fmap list_fmap value]; [|exact IH].
    apply NoDup_cons. split; [|exact IH].
    intros Hin. apply Hk. apply list_elem_of_fmap in Hin as (b & Hkb & Hb).
    apply list_elem_of_In, in_map_iff in Hb as ([k' [c' rn']] & <- & Hin).
    apply filter_In in Hin as [Hin _]. cbn in Hkb. subst k'.
    apply list_elem_of_fmap. exists (k, (c', rn')). split; [reflexivity|].
    apply list_elem_of_In, Hin.
Qed.

(** The report of a column exists exactly when its values are strings. *)
Lemma duplicateValuesOf_outcome (column : string) (records : list MergedRecord) :
  (text_cells column records /\
   exists report, duplicateValuesOf records column = inr report) \/
  (~ text_cells column records /\
   duplicateValuesOf records column = inl trim_not_a_function).
Proof.
  unfold duplicateValuesOf.
  destruct (scan_outcome column records 0 []) as [[Ht (m & ->)]|[Ht ->]];
    [left|right]; eauto.
Qed.

Lemma duplicateValuesOf_text (column : string) (records : list MergedRecord) :
  text_cells column records ->
  exists report, duplicateValuesOf records column = inr report.
Proof.
  intros Ht. destruct (duplicateValuesOf_outcome column records) as [[_ H]|[H _]];
    [exact H|contradiction].
Qed.

Lemma two_elements_length {A} (l : list A) (x y : A) :
  x ∈ l -> y ∈ l -> x <> y -> (2 <= length l)%nat.
Proof.
  destruct l as [|a [|b l]]; cbn; intros Hx Hy Hne; [| |lia].
  - apply elem_of_nil in Hx as [].
  - apply list_elem_of_singleton in Hx, Hy. congruence.
Qed.

Lemma blank_trim (v : string) : blank v <-> JsString.trim v = "".
Proof. rewrite trim_empty_iff. symmetry. apply whitespace_only_blank. Qed.

Lemma duplicateValuesOf_rows (column : string) (records : list MergedRecord)
    (report : list DuplicateValue) (e : DuplicateValue) :
  duplicateValuesOf records column = inr report ->
  e ∈ report ->
  ~ blank (value e) /\
  (forall n, n ∈ rowNumbers e <->
             exists i record, records !! i = Some record /\ n = (i + 2)%nat /\
                              cell_value column record = Str (value e)) /\
  StronglySorted lt (rowNumbers e) /\
  count e = length (rowNumbers e) /\ (2 <= count e)%nat.
Proof.
  intros Hrep He. apply (duplicateValuesOf_elem _ _ _ _ Hrep) in He
    as (Hrows & Hcount & Htwo).
  assert (Hnb : JsString.trim (value e) <> "").
  { destruct (rowNumbers e) as [|n rn] eqn:Hrn; [cbn in Hcount; lia|].
    assert (Hn : n ∈ rows_of column records 0 (value e))
      by (rewrite <- Hrows; apply list_elem_of_here).
    apply rows_of_elem in Hn as (_ & _ & _ & _ & _ & Hnb). exact Hnb. }
  split; [rewrite blank_trim; exact Hnb|].
  split; [|split; [|split]]; [| |exact Hcount|exact Htwo].
  - intros n. rewrite Hrows, rows_of_elem. split.
    + intros (i & r & Hi & -> & Hc & _). exists i, r. auto.
    + intros (i & r & Hi & -> & Hc). exists i, r. auto.
  - rewrite Hrows. apply rows_of_increasing.
Qed.

Lemma duplicateValuesOf_complete (column : string) (records : list MergedRecord)
    (report : list DuplicateValue) (v : string) (i j : nat) (ri rj : MergedRecord) :
  duplicateValuesOf records column = inr report ->
  i <> j -> records !! i = Some ri -> records !! j = Some rj ->
  cell_value column ri = Str v -> cell_value column rj = Str v ->
  ~ blank v ->
  exists e, e ∈ report /\ value e = v.
Proof.
  intros Hrep Hij Hi Hj Hci Hcj Hnb. rewrite blank_trim in Hnb.
  exists {| value := v; count := length (rows_of column records 0 v);
            rowNumbers := rows_of column records 0 v |}.
  split; [|reflexivity]. apply (duplicateValuesOf_elem _ _ _ _ Hrep).
  cbn [value count rowNumbers].
  split; [reflexivity|]. split; [reflexivity|].
  apply (two_elements_length _ (i + 2)%nat (j + 2)%nat); [| |lia];
    apply rows_of_elem; [exists i, ri | exists j, rj]; auto.
Qed.

(** ** checkForDuplicates *)

(** The loop over the checked columns touches the console only. *)
Lemma checkForDuplicates_loop_frame (records : list MergedRecord)
    (columnsToCheck : list string) (results : list DuplicateCheckResult) (st : State) :
  created (checkForDuplicates_loop records columnsToCheck results st).2 = created st /\
  written (checkForDuplicates_loop records columnsToCheck results st).2 = written st /\
  result (checkForDuplicates_loop records columnsToCheck results st).2 = result st.
Proof.
  revert results st.
  induction columnsToCheck as [|c cols IH]; intros results st;
    cbn [checkForDuplicates_loop]; [auto|].
  destruct (columnExists records c); cbn [negb].
  - unfold mbind, M_bind, lift.
    destruct (duplicateValuesOf records c) as [msg|report]; [auto|]. apply IH.
  - unfold mbind, M_bind, console_warn, console_emit.
    destruct (IH results
                {| console := console st ++ [(WARN, skip_notice c)];
                   created := created st; written := written st;
                   result := result st |}) as (H1 & H2 & H3).
    auto.
Qed.

(** What the loop has done when it returns: one entry per checked column that
    the first record has, in order, each with the report of its column, and
    one notice per checked column that the first record lacks. *)
Lemma checkForDuplicates_loop_returned (records : list MergedRecord)
    (columnsToCheck : list string) (results results' : list DuplicateCheckResult)
    (st st' : State) :
  checkForDuplicates_loop records columnsToCheck results st = (Returned results', st') ->
  exists new,
    results' = results ++ new /\
    column <$> new = List.filter (columnExists records) columnsToCheck /\
    Forall (fun res => duplicateValuesOf records (column res)
                       = inr (duplicateValues res)) new /\
    console st' = console st ++
      map (fun c => (WARN, skip_notice c))
          (List.filter (fun c => negb (columnExists records c)) columnsToCheck).
Proof.
  revert results st.
  induction columnsToCheck as [|c cols IH]; intros results st;
    cbn [checkForDuplicates_loop List.filter].
  - intros [= <- <-]. exists []. rewrite !app_nil_r. repeat split. constructor.
  - destruct (columnExists records c); cbn [negb].
    + unfold mbind, M_bind, lift.
      destruct (duplicateValuesOf records c) as [msg|report] eqn:Hrep; [discriminate|].
      intros Hrun. destruct (IH _ _ Hrun) as (new & -> & Hcols & Hall & Hcon).
      exists ({| column := c; duplicateValues := report |} :: new).
      rewrite <- app_assoc. split; [reflexivity|]. split; [|split].
      * rewrite fmap_cons. cbn [column]. rewrite Hcols. reflexivity.
      * constructor; [exact Hrep|exact Hall].
      * exact Hcon.
    + unfold mbind, M_bind, console_warn, console_emit.
      intros Hrun. destruct (IH _ _ Hrun) as (new & -> & Hcols & Hall & Hcon).
      exists new. split; [reflexivity|]. split; [exact Hcols|]. split; [exact Hall|].
      rewrite Hcon. cbn [console map]. rewrite <- app_assoc. reflexivity.
Qed.

(** The loop returns, or throws the [TypeError] of [value.trim()]; it throws
    exactly when a checked column that the first record has holds a value
    that is not a string. *)
Lemma checkForDuplicates_loop_outcome (records : list MergedRecord)
    (columnsToCheck : list string) (results : list DuplicateCheckResult) (st : State) :
  ((forall c, c ∈ columnsToCheck -> columnExists records c = true ->
              text_cells c records) /\
   exists results' st',
     checkForDuplicates_loop records columnsToCheck results st
     = (Returned results', st')) \/
  ((exists c, c ∈ columnsToCheck /\ columnExists records c = true /\
              ~ text_cells c records) /\
   exists st',
     checkForDuplicates_loop records columnsToCheck results st
     = (Thrown trim_not_a_function, st')).
Proof.
  revert results st.
  induction columnsToCheck as [|c cols IH]; intros results st;
    cbn [checkForDuplicates_loop].
  - left. split; [intros c Hc; apply elem_of_nil in Hc as []|].
    eexists _, _. reflexivity.
  - destruct (columnExists records c) eqn:Hex; cbn [negb].
    + unfold mbind, M_bind, lift.
      destruct (duplicateValuesOf_outcome c records) as [[Ht (report & ->)]|[Ht ->]].
      * destruct (IH (results ++ [{| column := c; duplicateValues := report |}]) st)
          as [[Hall Hrun]|[(c' & Hc' & Hex' & Ht') Hrun]].
        -- left. split; [|exact Hrun]. intros c' Hc' Hex'.
           apply elem_of_cons in Hc' as [->|Hc']; [exact Ht|auto].
        -- right. split; [|exact Hrun]. exists c'.
           split; [apply list_elem_of_further, Hc'|auto].
      * right. split; [|eexists; reflexivity]. exists c.
        split; [apply list_elem_of_here|auto].
    + unfold mbind, M_bind, console_warn, console_emit.
      match goal with |- context [checkForDuplicates_loop records cols results ?s] =>
        destruct (IH results s) as [[Hall Hrun]|[(c' & Hc' & Hex' & Ht') Hrun]] end.
      * left. split; [|exact Hrun]. intros c' Hc' Hex'.
        apply elem_of_cons in Hc' as [->|Hc']; [congruence|auto].
      * right. split; [|exact Hrun]. exists c'.
        split; [apply list_elem_of_further, Hc'|auto].
Qed.

Lemma checkForDuplicates_text (records : list MergedRecord)
    (columnsToCheck : list string) (st : State) :
  (forall c, c ∈ columnsToCheck -> columnExists records c = true ->
             text_cells c records) ->
  exists results st',
    checkForDuplicates records columnsToCheck st = (Returned results, st').
Proof.
  intros Hall. unfold checkForDuplicates.
  destruct (checkForDuplicates_loop_outcome records columnsToCheck [] st)
    as [[_ Hrun]|[(c & Hc & Hex & Ht) _]]; [exact Hrun|].
  exfalso. apply Ht, Hall; assumption.
Qed.

Lemma sample_report :
  duplicateValuesOf [[("Repo_Name", Str "a")]; [("Repo_Name", Str "a")];
                     [("Repo_Name", Str "b")]] "Repo_Name"
  = inr [{| value := "a"; count := 2; rowNumbers := [2; 3]%nat |}].
Proof. vm_compute. reflexivity. Qed.

(** C5, amended: for a checked column that the first record has (the test
    of presence of the code), in a check whose values are strings, the
    report holds one entry per non-blank value that occurs at least twice;
    the entry carries the number of occurrences and the rows of the
    occurrences (index + 2, in increasing order); the entries are in
    descending order of count, values of equal count in the order in which
    they were first seen.  The values a, a, b give the single entry
    a, 2, [2; 3]. *)
Theorem checkForDuplicates_reports_repeated_values
    (records : list MergedRecord) (columnsToCheck : list string)
    (checked : string) (st : State) :
  checked ∈ columnsToCheck ->
  columnExists records checked = true ->
  (forall c, c ∈ columnsToCheck -> columnExists records c = true ->
             text_cells c records) ->
  exists results report st',
    checkForDuplicates records columnsToCheck st = (Returned results, st') /\
    duplicateValuesOf records checked = inr report /\
    {| column := checked; duplicateValues := report |} ∈ results /\
    (forall res, res ∈ results -> column res = checked ->
                 duplicateValues res = report) /\
    (forall e, e ∈ report ->
       ~ blank (value e) /\
       (forall n, n ∈ rowNumbers e <->
                  exists i record, records !! i = Some record /\ n = (i + 2)%nat /\
                                   cell_value checked record = Str (value e)) /\
       StronglySorted lt (rowNumbers e) /\
       count e = length (rowNumbers e) /\ (2 <= count e)%nat) /\
    (forall v i j ri rj,
       i <> j -> records !! i = Some ri -> records !! j = Some rj ->
       cell_value checked ri = Str v -> cell_value checked rj = Str v ->
       ~ blank v ->
       exists e, e ∈ report /\ value e = v) /\
    NoDup (value <$> report) /\
    StronglySorted reported_before report /\
    duplicateValuesOf [[("Repo_Name", Str "a")]; [("Repo_Name", Str "a")];
                       [("Repo_Name", Str "b")]] "Repo_Name"
    = inr [{| value := "a"; count := 2; rowNumbers := [2; 3]%nat |}].
Proof.
  intros Hin Hex Htext.
  destruct (checkForDuplicates_text records columnsToCheck st Htext)
    as (results & st' & Hrun).
  destruct (duplicateValuesOf_text checked records (Htext _ Hin Hex))
    as (report & Hrep).
  exists results, report, st'. split; [exact Hrun|]. split; [exact Hrep|].
  unfold checkForDuplicates in Hrun.
  apply checkForDuplicates_loop_returned in Hrun as (new & -> & Hcols & Hall & _).
  cbn [app].
  assert (Hentry : forall res, res ∈ new -> column res = checked ->
                               duplicateValues res = report).
  { intros res Hres Hcol. rewrite Forall_forall in Hall.
    specialize (Hall res Hres). rewrite Hcol, Hrep in Hall. congruence. }
  split; [|split; [exact Hentry|]].
  { assert (Hc : checked ∈ column <$> new).
    { rewrite Hcols. apply list_elem_of_In, filter_In.
      split; [apply list_elem_of_In, Hin|exact Hex]. }
    apply list_elem_of_fmap in Hc as (res & Hcol & Hres).
    rewrite <- (Hentry res Hres (eq_sym Hcol)), Hcol. destruct res; exact Hres. }
  split; [intros e; apply duplicateValuesOf_rows, Hrep|].
  split; [intros v i j ri rj; apply duplicateValuesOf_complete, Hrep|].
  split; [eapply duplicateValuesOf_values_NoDup, Hrep|].
  split; [eapply duplicateValuesOf_sorted, Hrep|].
  exact sample_report.
Qed.

Lemma sample_text_cells :
  forall c, c ∈ ["Org_Name"; "Repo_Name"] ->
            columnExists [[("Repo_Name", Str "a")]; [("Repo_Name", Str "a")];
                          [("Repo_Name", Str "b")]] c = true ->
            text_cells c [[("Repo_Name", Str "a")]; [("Repo_Name", Str "a")];
                          [("Repo_Name", Str "b")]].
Proof.
  intros c Hc _.
  repeat (apply elem_of_cons in Hc as [->|Hc]; [repeat constructor|]).
  apply elem_of_nil in Hc as [].
Qed.

Lemma checkForDuplicates_reports_repeated_values_witness :
  "Repo_Name" ∈ ["Org_Name"; "Repo_Name"] /\
  columnExists [[("Repo_Name", Str "a")]; [("Repo_Name", Str "a")];
                [("Repo_Name", Str "b")]] "Repo_Name" = true /\
  exists results report st',
    checkForDuplicates [[("Repo_Name", Str "a")]; [("Repo_Name", Str "a")];
                        [("Repo_Name", Str "b")]]
                       ["Org_Name"; "Repo_Name"] initial_state
    = (Returned results, st') /\
    duplicateValuesOf [[("Repo_Name", Str "a")]; [("Repo_Name", Str "a")];
                       [("Repo_Name", Str "b")]] "Repo_Name" = inr report /\
    {| column := "Repo_Name"; duplicateValues := report |} ∈ results.
Proof.
  assert (Hin : "Repo_Name" ∈ ["Org_Name"; "Repo_Name"])
    by (apply (bool_decide_unpack _); vm_compute; exact I).
  assert (Hex : columnExists [[("Repo_Name", Str "a")]; [("Repo_Name", Str "a")];
                              [("Repo_Name", Str "b")]] "Repo_Name" = true)
    by (vm_compute; reflexivity).
  split; [exact Hin|]. split; [exact Hex|].
  destruct (checkForDuplicates_reports_repeated_values
              [[("Repo_Name", Str "a")]; [("Repo_Name", Str "a")];
               [("Repo_Name", Str "b")]]
              ["Org_Name"; "Repo_Name"] "Repo_Name" initial_state Hin Hex
              sample_text_cells)
    as (results & report & st' & Hrun & Hrep & Hres & _).
  exists results, report, st'. split; [exact Hrun|]. split; [exact Hrep|exact Hres].
Defined.

(** C5, as stated, fails: the column [Repo_Name] is present in the records
    (the second and the third have it, with the same value), but not in the
    first; the column is skipped and the value, which occurs twice, is not
    reported. *)
Lemma checkForDuplicates_column_absent_from_first_record :
  [[("Org_Name", Str "acme")];
   [("Repo_Name", Str "r"); ("Org_Name", Str "acme")];
   [("Repo_Name", Str "r")]] !! 1%nat
  = Some [("Repo_Name", Str "r"); ("Org_Name", Str "acme")] /\
  [[("Org_Name", Str "acme")];
   [("Repo_Name", Str "r"); ("Org_Name", Str "acme")];
   [("Repo_Name", Str "r")]] !! 2%nat
  = Some [("Repo_Name", Str "r")] /\
  cell_value "Repo_Name" [("Repo_Name", Str "r"); ("Org_Name", Str "acme")] = Str "r" /\
  cell_value "Repo_Name" [("Repo_Name", Str "r")] = Str "r" /\
  ~ blank "r" /\
  checkForDuplicates
    [[("Org_Name", Str "acme")];
     [("Repo_Name", Str "r"); ("Org_Name", Str "acme")];
     [("Repo_Name", Str "r")]] ["Repo_Name"] initial_state
  = (Returned [],
     {| console := [(WARN, skip_notice "Repo_Name")]; created := []; written := [];
        result := initial_result |}).
Proof.
  split; [reflexivity|]. split; [reflexivity|].
  split; [reflexivity|]. split; [reflexivity|].
  split; [rewrite blank_trim; vm_compute; discriminate|].
  vm_compute. reflexivity.
Qed.

(** C6: a blank or white-space-only value is never counted: the scan leaves
    the table as it is on such a record, no reported value is blank, no
    reported row holds a blank value, and a column whose values are blank
    except at one record has no duplicate entry. *)
Theorem checkForDuplicates_skips_blank_values
    (records : list MergedRecord) (checked : string) :
  (forall valueMap index record v,
     cell_value checked record = Str v -> blank v ->
     scan_record checked valueMap index record = inr valueMap) /\
  (forall report, duplicateValuesOf records checked = inr report ->
   forall e, e ∈ report ->
     ~ blank (value e) /\
     forall n, n ∈ rowNumbers e ->
       exists i record v, records !! i = Some record /\ n = (i + 2)%nat /\
                          cell_value checked record = Str v /\ ~ blank v) /\
  (forall i0,
     (forall i record, records !! i = Some record -> i <> i0 ->
                       exists v, cell_value checked record = Str v /\ blank v) ->
     (forall record, records !! i0 = Some record ->
                     JsValue.is_text (cell_value checked record) = true) ->
     duplicateValuesOf records checked = inr [] /\
     forall columnsToCheck st results st',
       checkForDuplicates records columnsToCheck st = (Returned results, st') ->
       forall res, res ∈ results -> column res = checked -> duplicateValues res = []).
Proof.
  split; [|split].
  - intros valueMap index record v Hcell Hws. unfold scan_record. rewrite Hcell.
    rewrite decide_True by (apply blank_trim, Hws). reflexivity.
  - intros report Hrep e He.
    destruct (duplicateValuesOf_rows _ _ _ _ Hrep He) as (Hnb & Hrows & _).
    split; [exact Hnb|]. intros n Hn. apply Hrows in Hn as (i & r & Hi & -> & Hc).
    exists i, r, (value e). auto.
  - intros i0 Hblank Htext0.
    assert (Htext : text_cells checked records).
    { apply Forall_forall. intros r Hr. apply list_elem_of_lookup in Hr as (i & Hi).
      destruct (decide (i = i0)) as [->|Hne]; [apply (Htext0 r Hi)|].
      destruct (Hblank i r Hi Hne) as (v & -> & _). reflexivity. }
    destruct (duplicateValuesOf_text checked records Htext) as (report & Hrep).
    assert (Hnil : report = []).
    { destruct report as [|e dv]; [reflexivity|]. exfalso.
      assert (He : e ∈ e :: dv) by apply list_elem_of_here.
      destruct (duplicateValuesOf_rows _ _ _ _ Hrep He)
        as (Hnb & Hrows & Hinc & Hcount & Htwo).
      destruct (rowNumbers e) as [|n1 [|n2 rn]] eqn:Hrn; cbn in Hcount; [lia|lia|].
      assert (Hlt : (n1 < n2)%nat).
      { apply StronglySorted_inv in Hinc as [_ Hf]. apply Forall_cons in Hf as [Hlt _].
        exact Hlt. }
      destruct (proj1 (Hrows n1)) as (i1 & r1 & Hi1 & -> & Hc1);
        [apply list_elem_of_here|].
      destruct (proj1 (Hrows n2)) as (i2 & r2 & Hi2 & -> & Hc2);
        [apply list_elem_of_further, list_elem_of_here|].
      destruct (decide (i1 = i0)) as [->|Hne1].
      - assert (Hne2 : i2 <> i0) by lia.
        destruct (Hblank i2 r2 Hi2 Hne2) as (v & Hv & Hb).
        rewrite Hc2 in Hv. injection Hv as <-. contradiction.
      - destruct (Hblank i1 r1 Hi1 Hne1) as (v & Hv & Hb).
        rewrite Hc1 in Hv. injection Hv as <-. contradiction. }
    subst report. split; [exact Hrep|].
    intros columnsToCheck st results st' Hrun res Hres Hcol.
    unfold checkForDuplicates in Hrun.
    apply checkForDuplicates_loop_returned in Hrun as (new & -> & _ & Hall & _).
    cbn [app] in Hres. rewrite Forall_forall in Hall. specialize (Hall res Hres).
    rewrite Hcol, Hrep in Hall. congruence.
Qed.

Lemma checkForDuplicates_skips_blank_values_witness :
  (forall i record,
     [[("Repo_Name", Str (utf8 [32; 194; 160; 9]))]; [("Repo_Name", Str "solo")];
      [("Repo_Name", Str "")]; [("Org_Name", Str "acme")]] !! i = Some record ->
     i <> 1%nat ->
     exists v, cell_value "Repo_Name" record = Str v /\ blank v) /\
  duplicateValuesOf
    [[("Repo_Name", Str (utf8 [32; 194; 160; 9]))]; [("Repo_Name", Str "solo")];
     [("Repo_Name", Str "")]; [("Org_Name", Str "acme")]] "Repo_Name" = inr [].
Proof.
  assert (Hblank : forall i record,
     [[("Repo_Name", Str (utf8 [32; 194; 160; 9]))]; [("Repo_Name", Str "solo")];
      [("Repo_Name", Str "")]; [("Org_Name", Str "acme")]] !! i = Some record ->
     i <> 1%nat ->
     exists v, cell_value "Repo_Name" record = Str v /\ blank v).
  { intros [|[|[|[|i]]]] record Hi Hne; try discriminate; try congruence;
      injection Hi as <-; eexists; (split; [vm_compute; reflexivity|]);
      apply whitespace_only_blank; vm_compute; reflexivity. }
  assert (Htext : forall record,
     [[("Repo_Name", Str (utf8 [32; 194; 160; 9]))]; [("Repo_Name", Str "solo")];
      [("Repo_Name", Str "")]; [("Org_Name", Str "acme")]] !! 1%nat = Some record ->
     JsValue.is_text (cell_value "Repo_Name" record) = true).
  { intros record [= <-]. reflexivity. }
  split; [exact Hblank|].
  exact (proj1 (proj2 (proj2 (checkForDuplicates_skips_blank_values
    [[("Repo_Name", Str (utf8 [32; 194; 160; 9]))]; [("Repo_Name", Str "solo")];
     [("Repo_Name", Str "")]; [("Org_Name", Str "acme")]] "Repo_Name")) 1%nat
    Hblank Htext)).
Defined.

Lemma columnExists_first (first : MergedRecord) (rest : list MergedRecord)
    (checked : string) :
  columnExists (first :: rest) checked = JsObject.has first checked.
Proof. reflexivity. Qed.

Lemma has_true (o : JsObject.t) (k : string) :
  JsObject.has o k = true <-> k ∈ JsObject.keys o \/ k ∈ JsObject.prototype_names.
Proof.
  unfold JsObject.has. rewrite orb_true_iff, hasOwnProperty_true, bool_decide_eq_true.
  reflexivity.
Qed.

Lemma has_false (o : JsObject.t) (k : string) :
  JsObject.has o k = false <->
  (k ∉ JsObject.keys o) /\ (k ∉ JsObject.prototype_names).
Proof.
  unfold JsObject.has. rewrite orb_false_iff, hasOwnProperty_false, bool_decide_eq_false.
  reflexivity.
Qed.

(** A column that is a name inherited from [Object.prototype], and that the
    first record does not own, is found by [in]; the value read for it is
    not a string and the check throws. *)
Lemma checkForDuplicates_inherited_name (first : MergedRecord)
    (rest : list MergedRecord) (name : string) (st : State) :
  name ∈ JsObject.prototype_names -> name ∉ JsObject.keys first ->
  columnExists (first :: rest) name = true /\
  checkForDuplicates (first :: rest) [name] st = (Thrown trim_not_a_function, st).
Proof.
  intros Hproto Hown.
  assert (Hex : columnExists (first :: rest) name = true).
  { rewrite columnExists_first. apply has_true. auto. }
  split; [exact Hex|].
  unfold checkForDuplicates. cbn [checkForDuplicates_loop]. rewrite Hex. cbn [negb].
  unfold mbind, M_bind, lift, duplicateValuesOf. cbn [forEach_index].
  unfold scan_record, cell_value.
  rewrite (get_not_own _ _ Hown), (inherited_Some _ Hproto). reflexivity.
Qed.

(** C10, as the code has it: whether a checked column exists is read off the
    first record alone.  With no record, or with a first record that lacks
    the key, for a key that is not a name inherited from [Object.prototype],
    the column is skipped with a notice on the console and has no entry in
    the report, whatever the later records hold.  For an inherited name
    ([constructor], [toString], ...) that the first record lacks, the column
    is not skipped: the check throws a [TypeError]. *)
Theorem checkForDuplicates_presence_from_first_record
    (records : list MergedRecord) (columnsToCheck : list string)
    (checked : string) (st : State) :
  records = [] \/
  (exists first rest, records = first :: rest /\
                      (checked ∉ JsObject.keys first) /\
                      (checked ∉ JsObject.prototype_names)) ->
  (forall first rest rest',
     columnExists (first :: rest) checked = columnExists (first :: rest') checked) /\
  columnExists records checked = false /\
  checkForDuplicates records [checked] st
  = (Returned [],
     {| console := console st ++ [(WARN, skip_notice checked)];
        created := created st; written := written st; result := result st |}) /\
  (forall results st',
     checkForDuplicates records columnsToCheck st = (Returned results, st') ->
     (forall res, res ∈ results -> column res <> checked) /\
     (checked ∈ columnsToCheck -> (WARN, skip_notice checked) ∈ console st')) /\
  (forall first rest name,
     name ∈ JsObject.prototype_names -> name ∉ JsObject.keys first ->
     columnExists (first :: rest) name = true /\
     checkForDuplicates (first :: rest) [name] st
     = (Thrown trim_not_a_function, st)).
Proof.
  intros Hfirst. split; [reflexivity|].
  assert (Hex : columnExists records checked = false).
  { destruct Hfirst as [->|(first & rest & -> & Hk & Hp)]; [reflexivity|].
    rewrite columnExists_first. apply has_false. auto. }
  split; [exact Hex|]. split; [|split].
  - unfold checkForDuplicates. cbn [checkForDuplicates_loop]. rewrite Hex. reflexivity.
  - intros results st' Hrun. unfold checkForDuplicates in Hrun.
    apply checkForDuplicates_loop_returned in Hrun as (new & -> & Hcols & _ & Hcon).
    cbn [app]. split.
    + intros res Hres Hcol.
      assert (Hc : checked ∈ column <$> new).
      { apply list_elem_of_fmap. exists res. auto. }
      rewrite Hcols in Hc. apply list_elem_of_In, filter_In in Hc as [_ Hc]. congruence.
    + intros Hin. rewrite Hcon. apply elem_of_app. right.
      apply list_elem_of_In, in_map_iff. exists checked. split; [reflexivity|].
      apply filter_In. split; [apply list_elem_of_In, Hin|]. rewrite Hex. reflexivity.
  - intros first rest name. apply checkForDuplicates_inherited_name.
Qed.

Lemma checkForDuplicates_presence_from_first_record_witness :
  (exists first rest,
     [[("Org_Name", Str "acme")]; [("Repo_Name", Str "r"); ("Org_Name", Str "acme")];
      [("Repo_Name", Str "r")]] = first :: rest /\
     ("Repo_Name" ∉ JsObject.keys first) /\
     ("Repo_Name" ∉ JsObject.prototype_names)) /\
  checkForDuplicates
    [[("Org_Name", Str "acme")]; [("Repo_Name", Str "r"); ("Org_Name", Str "acme")];
     [("Repo_Name", Str "r")]] ["Repo_Name"] initial_state
  = (Returned [],
     {| console := [(WARN, skip_notice "Repo_Name")]; created := []; written := [];
        result := initial_result |}).
Proof.
  assert (Hfirst : exists first rest,
     [[("Org_Name", Str "acme")]; [("Repo_Name", Str "r"); ("Org_Name", Str "acme")];
      [("Repo_Name", Str "r")]] = first :: rest /\
     ("Repo_Name" ∉ JsObject.keys first) /\
     ("Repo_Name" ∉ JsObject.prototype_names)).
  { eexists _, _. split; [reflexivity|].
    split; apply (bool_decide_unpack _); vm_compute; exact I. }
  split; [exact Hfirst|].
  exact (proj1 (proj2 (proj2 (checkForDuplicates_presence_from_first_record
           [[("Org_Name", Str "acme")];
            [("Repo_Name", Str "r"); ("Org_Name", Str "acme")];
            [("Repo_Name", Str "r")]] ["Repo_Name"] "Repo_Name" initial_state
           (or_intror Hfirst))))).
Defined.

(** ** checkForDuplicates, as a whole *)

Lemma List_filter_decide {A} (f : A -> bool) (P : A -> Prop)
    `{!forall x, Decision (P x)} (l : list A) :
  (forall x, f x = true <-> P x) -> List.filter f l = filter P l.
Proof.
  intros Hf. induction l as [|x l IH]; cbn [List.filter]; [reflexivity|].
  destruct (f x) eqn:Hx.
  - rewrite filter_cons_True by (apply Hf, Hx). rewrite IH. reflexivity.
  - rewrite filter_cons_False; [exact IH|].
    intros HP. apply Hf in HP. congruence.
Qed.

(** X6: [checkForDuplicates] creates no directory, writes no file and leaves
    the [result] object alone.  It returns when every checked column found
    in the first record holds strings in all records: the report then lists,
    in the order given, the checked columns found (a column checked twice is
    reported twice), the console receives one notice per checked column not
    found, in order, and without records the report is empty.  It throws the
    [TypeError] of [value.trim()] when a checked column that is found holds
    a value that is not a string. *)
Theorem checkForDuplicates_report_shape
    (records : list MergedRecord) (columnsToCheck : list string) (st : State) :
  (created (checkForDuplicates records columnsToCheck st).2 = created st /\
   written (checkForDuplicates records columnsToCheck st).2 = written st /\
   result (checkForDuplicates records columnsToCheck st).2 = result st) /\
  (((forall c, c ∈ columnsToCheck -> columnExists records c = true ->
               text_cells c records) /\
    exists results st',
      checkForDuplicates records columnsToCheck st = (Returned results, st') /\
      column <$> results
      = filter (fun c => columnExists records c = true) columnsToCheck /\
      console st' = console st ++
        map (fun c => (WARN, skip_notice c))
            (filter (fun c => columnExists records c = false) columnsToCheck) /\
      (records = [] -> results = [])) \/
   ((exists c, c ∈ columnsToCheck /\ columnExists records c = true /\
               ~ text_cells c records) /\
    exists st',
      checkForDuplicates records columnsToCheck st
      = (Thrown trim_not_a_function, st'))).
Proof.
  split; [apply checkForDuplicates_loop_frame|]. unfold checkForDuplicates.
  destruct (checkForDuplicates_loop_outcome records columnsToCheck [] st)
    as [[Hall (results & st' & Hrun)]|[Hbad Hrun]]; [left|right; auto].
  split; [exact Hall|]. exists results, st'. split; [exact Hrun|].
  apply checkForDuplicates_loop_returned in Hrun as (new & -> & Hcols & _ & Hcon).
  cbn [app]. split; [|split].
  - rewrite Hcols. apply List_filter_decide. intros c. reflexivity.
  - rewrite Hcon. do 2 f_equal. apply List_filter_decide. intros c.
    apply negb_true_iff.
  - intros ->. apply fmap_nil_inv with (f := column). rewrite Hcols. clear.
    induction columnsToCheck as [|c cols IH]; [reflexivity|exact IH].
Qed.

(** X7: in a report of a column every row number lies between 2 and the
    number of records plus one, a count never exceeds the number of records,
    an entry is determined by its value, and no row is listed under two
    entries. *)
Theorem duplicateValuesOf_rows_bounds
    (records : list MergedRecord) (checked : string) (report : list DuplicateValue) :
  duplicateValuesOf records checked = inr report ->
  forall e, e ∈ report ->
    (forall n, n ∈ rowNumbers e -> (2 <= n <= length records + 1)%nat) /\
    (count e <= length records)%nat /\
    (forall e', e' ∈ report -> value e' = value e -> e' = e) /\
    (forall e' n, e' ∈ report -> n ∈ rowNumbers e -> n ∈ rowNumbers e' -> e' = e).
Proof.
  intros Hrep e He.
  destruct (duplicateValuesOf_rows _ _ _ _ Hrep He) as (_ & Hrows & Hinc & Hcount & _).
  assert (Hbound : forall n, n ∈ rowNumbers e -> (2 <= n <= length records + 1)%nat).
  { intros n Hn. apply Hrows in Hn as (i & r & Hi & -> & _).
    apply lookup_lt_Some in Hi. lia. }
  assert (Hsame : forall e', e' ∈ report -> value e' = value e -> e' = e).
  { intros e' He' Hv.
    apply (duplicateValuesOf_elem _ _ _ _ Hrep) in He as (Hr & Hc & _).
    apply (duplicateValuesOf_elem _ _ _ _ Hrep) in He' as (Hr' & Hc' & _).
    destruct e as [v c rn], e' as [v' c' rn']. cbn in *. subst. reflexivity. }
  split; [exact Hbound|]. split; [|split; [exact Hsame|]].
  - rewrite Hcount.
    assert (Hsub : rowNumbers e ⊆+ seq 2 (length records)).
    { apply NoDup_submseteq.
      - clear -Hinc. induction Hinc as [|n l Hs IH Hf]; constructor; [|exact IH].
        intros Hin. rewrite Forall_forall in Hf. specialize (Hf n Hin). lia.
      - intros n Hn. apply Hbound in Hn. apply list_elem_of_In, in_seq. lia. }
    apply submseteq_length in Hsub. rewrite length_seq in Hsub. exact Hsub.
  - intros e' n He' Hn Hn'. apply Hsame; [exact He'|].
    destruct (duplicateValuesOf_rows _ _ _ _ Hrep He') as (_ & Hrows' & _).
    apply Hrows in Hn as (i & r & Hi & -> & Hc).
    apply Hrows' in Hn' as (i' & r' & Hi' & Heq & Hc').
    assert (i' = i) by lia. subst i'. rewrite Hi in Hi'. injection Hi' as <-.
    congruence.
Qed.

Lemma duplicateValuesOf_rows_bounds_witness :
  duplicateValuesOf [[("Repo_Name", Str "a")]; [("Repo_Name", Str "a")];
                     [("Repo_Name", Str "b")]] "Repo_Name"
  = inr [{| value := "a"; count := 2; rowNumbers := [2; 3]%nat |}] /\
  {| value := "a"; count := 2; rowNumbers := [2; 3]%nat |}
    ∈ [{| value := "a"; count := 2; rowNumbers := [2; 3]%nat |}] /\
  (count {| value := "a"; count := 2; rowNumbers := [2; 3]%nat |} <= 3)%nat.
Proof.
  assert (Hrep : duplicateValuesOf [[("Repo_Name", Str "a")]; [("Repo_Name", Str "a")];
                                    [("Repo_Name", Str "b")]] "Repo_Name"
                 = inr [{| value := "a"; count := 2; rowNumbers := [2; 3]%nat |}])
    by (vm_compute; reflexivity).
  assert (He : {| value := "a"; count := 2; rowNumbers := [2; 3]%nat |}
               ∈ [{| value := "a"; count := 2; rowNumbers := [2; 3]%nat |}])
    by apply list_elem_of_here.
  split; [exact Hrep|]. split; [exact He|].
  exact (proj1 (proj2 (duplicateValuesOf_rows_bounds _ _ _ Hrep _ He))).
Defined.

(** X8: on records produced by [orderRecords], which is what
    [processCsvMerge] hands to the check, a checked column is found exactly
    when there is at least one record and the column is [Enterprise], a
    configured column other than [__proto__], or a name that every object
    inherits; a name that is inherited and not configured is found and makes
    the check throw. *)
Theorem checkForDuplicates_on_ordered_records
    (records : list MergedRecord) (columnConfig : ColumnConfig) (checked : string)
    (st : State) :
  (columnExists (orderRecords records columnConfig) checked = true <->
   records <> [] /\
   ((checked ∈ orderedColumns columnConfig /\ checked <> "__proto__") \/
    checked ∈ JsObject.prototype_names)) /\
  (records <> [] -> checked ∈ JsObject.prototype_names ->
   checked ∉ orderedColumns columnConfig ->
   checkForDuplicates (orderRecords records columnConfig) [checked] st
   = (Thrown trim_not_a_function, st)).
Proof.
  unfold orderRecords. destruct records as [|r records]; cbn [map].
  - split; [|congruence]. split; [discriminate|intros [? _]; congruence].
  - split.
    + rewrite columnExists_first, has_true, orderRecord_keys_elem.
      split; [intros ?; split; [discriminate|assumption]|tauto].
    + intros _ Hproto Hnot. apply checkForDuplicates_inherited_name; [exact Hproto|].
      rewrite orderRecord_keys_elem. tauto.
Qed.

Lemma checkForDuplicates_on_ordered_records_witness :
  [[("Enterprise", Str "GHEC"); ("Org_Name", Str "acme")]] <> [] /\
  "toString" ∈ JsObject.prototype_names /\
  ("toString" ∉ orderedColumns two_columns) /\
  checkForDuplicates
    (orderRecords [[("Enterprise", Str "GHEC"); ("Org_Name", Str "acme")]] two_columns)
    ["toString"] initial_state
  = (Thrown trim_not_a_function, initial_state).
Proof.
  assert (H1 : [[("Enterprise", Str "GHEC"); ("Org_Name", Str "acme")]] <> [])
    by discriminate.
  assert (H2 : "toString" ∈ JsObject.prototype_names)
    by (apply (bool_decide_unpack _); vm_compute; exact I).
  assert (H3 : "toString" ∉ orderedColumns two_columns)
    by (apply (bool_decide_unpack _); vm_compute; exact I).
  split; [exact H1|]. split; [exact H2|]. split; [exact H3|].
  exact (proj2 (checkForDuplicates_on_ordered_records _ two_columns "toString"
                  initial_state) H1 H2 H3).
Defined.

(** ** Computations that leave the output alone *)

Create HintDb keeps discriminated.

Lemma keeps_files_ret {A} (a : A) : keeps_files (mret a).
Proof. intros st. split; reflexivity. Qed.

Lemma keeps_files_throw {A} (msg : string) : keeps_files (@throw A msg).
Proof. intros st. split; reflexivity. Qed.

Lemma keeps_files_crash {A} (msg : string) : keeps_files (@crash A msg).
Proof. intros st. split; reflexivity. Qed.

Lemma keeps_files_never {A} : keeps_files (@never A).
Proof. intros st. split; reflexivity. Qed.

Lemma keeps_files_lift {A} (r : Result A) : keeps_files (lift r).
Proof. intros st. destruct r; split; reflexivity. Qed.

Lemma keeps_files_bind {A B} (m : M A) (f : A -> M B) :
  keeps_files m -> (forall a, keeps_files (f a)) -> keeps_files (m ≫= f).
Proof.
  intros Hm Hf st. unfold mbind, M_bind. specialize (Hm st).
  destruct (m st) as [[a|e|e|] st']; cbn [snd] in *; try exact Hm.
  destruct (Hf a st') as [H1 H2]. destruct Hm as [H3 H4].
  split; congruence.
Qed.

Lemma keeps_files_try_catch {A} (body : M A) (handler : string -> M A) :
  keeps_files body -> (forall e, keeps_files (handler e)) ->
  keeps_files (try_catch body handler).
Proof.
  intros Hm Hf st. unfold try_catch. specialize (Hm st).
  destruct (body st) as [[a|e|e|] st']; cbn [snd] in *; try exact Hm.
  destruct (Hf e st') as [H1 H2]. destruct Hm as [H3 H4].
  split; congruence.
Qed.

Lemma keeps_files_console_emit (lvl : Level) (msg : string) :
  keeps_files (console_emit lvl msg).
Proof. intros st. split; reflexivity. Qed.

Lemma keeps_files_modify_result (f : ProcessingResult -> ProcessingResult) :
  keeps_files (modify_result f).
Proof. intros st. split; reflexivity. Qed.

Lemma keeps_files_get_result : keeps_files get_result.
Proof. intros st. split; reflexivity. Qed.

Lemma keeps_files_for_of {A} (xs : list A) (body : A -> M unit) :
  (forall x, keeps_files (body x)) -> keeps_files (for_of xs body).
Proof.
  intros Hbody. induction xs as [|x xs IH]; cbn [for_of].
  - apply keeps_files_ret.
  - apply keeps_files_bind; [apply Hbody|intros _; exact IH].
Qed.

Lemma keeps_files_if {A} (b : bool) (m1 m2 : M A) :
  keeps_files m1 -> keeps_files m2 -> keeps_files (if b then m1 else m2).
Proof. destruct b; auto. Qed.

#[local] Hint Resolve keeps_files_ret keeps_files_throw keeps_files_crash
  keeps_files_never keeps_files_lift
  keeps_files_console_emit keeps_files_modify_result keeps_files_get_result
  keeps_files_for_of keeps_files_if : keeps.
#[local] Hint Extern 2 (keeps_files (_ ≫= _)) =>
  apply keeps_files_bind; [|intros ?] : keeps.
#[local] Hint Extern 2 (keeps_files (try_catch _ _)) =>
  apply keeps_files_try_catch; [|intros ?] : keeps.
#[local] Hint Extern 1 (keeps_files (console_log _)) =>
  apply keeps_files_console_emit : keeps.
#[local] Hint Extern 1 (keeps_files (console_warn _)) =>
  apply keeps_files_console_emit : keeps.
#[local] Hint Extern 1 (keeps_files (console_error _)) =>
  apply keeps_files_console_emit : keeps.
#[local] Hint Extern 3 (keeps_files (match ?x with _ => _ end)) =>
  destruct x : keeps.

Lemma keeps_files_readCsvFile (env : Env) (filePath : string) :
  keeps_files (readCsvFile env filePath).
Proof. unfold readCsvFile. auto 10 with keeps. Qed.

Lemma keeps_files_getCsvHeaders (env : Env) (filePath : string) :
  keeps_files (getCsvHeaders env filePath).
Proof. unfold getCsvHeaders. auto 10 with keeps. Qed.

Lemma keeps_files_validateAndFilterColumns (filePath : string)
    (headers : list string) (columnConfig : ColumnConfig) :
  keeps_files (validateAndFilterColumns filePath headers columnConfig).
Proof. unfold validateAndFilterColumns. auto 10 with keeps. Qed.

Lemma keeps_files_loadColumnConfig (env : Env) (configPath : string) :
  keeps_files (loadColumnConfig env configPath).
Proof. unfold loadColumnConfig. auto 10 with keeps. Qed.

#[local] Hint Resolve keeps_files_readCsvFile keeps_files_getCsvHeaders
  keeps_files_validateAndFilterColumns keeps_files_loadColumnConfig : keeps.

Lemma keeps_files_processFile (env : Env) (columnConfig : ColumnConfig)
    (removeSet : gset string) (filePath : string) :
  keeps_files (processFile env columnConfig removeSet filePath).
Proof. unfold processFile. auto 20 with keeps. Qed.

#[local] Hint Resolve keeps_files_processFile : keeps.

Lemma keeps_files_mergeCsvFiles (env : Env) (inputDir : string)
    (columnConfig : ColumnConfig) :
  keeps_files (mergeCsvFiles env inputDir columnConfig).
Proof.
  unfold mergeCsvFiles, mergeCsvFiles_try, mergeCsvFiles_catch.
  auto 20 with keeps.
Qed.

(** ** validateAndFilterColumns *)

Lemma unexpectedColumns_filter (columnConfig : ColumnConfig) (headers : list string) :
  List.filter (fun header =>
                 negb (Set_has (new_Set (columns columnConfig)) header) &&
                 negb (Set_has (new_Set (or_nil (columnsToRemove columnConfig))) header))
              headers
  = unexpected_columns columnConfig headers.
Proof.
  unfold unexpected_columns. apply List_filter_decide. intros h.
  rewrite !Set_has_new_Set, andb_true_iff, !negb_true_iff, !bool_decide_eq_false.
  reflexivity.
Qed.

Lemma removedColumns_filter (columnConfig : ColumnConfig) (headers : list string) :
  List.filter (fun header =>
                 Set_has (new_Set (or_nil (columnsToRemove columnConfig))) header)
              headers
  = excluded_present columnConfig headers.
Proof.
  unfold excluded_present. apply List_filter_decide. intros h.
  rewrite Set_has_new_Set, bool_decide_eq_true. reflexivity.
Qed.

Lemma filteredHeaders_filter (columnConfig : ColumnConfig) (headers : list string) :
  List.filter (fun header =>
                 negb (Set_has (new_Set (or_nil (columnsToRemove columnConfig))) header))
              headers
  = filter (fun header => header ∉ or_nil (columnsToRemove columnConfig)) headers.
Proof.
  apply List_filter_decide. intros h.
  rewrite Set_has_new_Set, negb_true_iff, bool_decide_eq_false. reflexivity.
Qed.

Lemma excluded_present_empty_set (columnConfig : ColumnConfig) (headers : list string) :
  Set_size (new_Set (or_nil (columnsToRemove columnConfig))) = 0%nat ->
  excluded_present columnConfig headers = [].
Proof.
  unfold Set_size, new_Set, excluded_present. intros Hsize.
  apply size_empty_inv in Hsize.
  induction headers as [|h headers IH]; [reflexivity|].
  rewrite filter_cons_False; [exact IH|].
  intros Hh. apply (elem_of_list_to_set (C := gset string)) in Hh.
  apply Hsize in Hh. apply elem_of_empty in Hh. exact Hh.
Qed.

Lemma length_pos_nonempty {A} (l : list A) :
  (0 <? length l)%nat = bool_decide (l <> []).
Proof. destruct l; reflexivity. Qed.

(** The outcome of the validation of one file: the value returned and the
    state left. *)
Lemma validateAndFilterColumns_run (filePath : string) (headers : list string)
    (columnConfig : ColumnConfig) (st : State) :
  validateAndFilterColumns filePath headers columnConfig st =
    (Returned
       (filter (fun header => header ∉ or_nil (columnsToRemove columnConfig)) headers,
        header_warnings columnConfig filePath headers),
     {| console := console st ++ header_lines columnConfig filePath headers;
        created := created st; written := written st; result := result st |}).
Proof.
  unfold validateAndFilterColumns, header_lines, header_warnings.
  rewrite unexpectedColumns_filter, removedColumns_filter, filteredHeaders_filter.
  rewrite !length_pos_nonempty.
  unfold mbind, M_bind, mret, M_ret, console_warn, console_log, console_emit.
  destruct (decide (unexpected_columns columnConfig headers = [])) as [Hu|Hu].
  - rewrite bool_decide_eq_false_2 by tauto. cbn [map console created written result app].
    destruct (0 <? Set_size (new_Set (or_nil (columnsToRemove columnConfig))))%nat eqn:Hsz.
    + destruct (decide (excluded_present columnConfig headers = [])) as [He|He].
      * rewrite bool_decide_eq_false_2 by tauto. rewrite app_nil_r.
        destruct st; reflexivity.
      * rewrite bool_decide_eq_true_2 by exact He. reflexivity.
    + apply Nat.ltb_ge in Hsz.
      rewrite decide_True by (apply excluded_present_empty_set; lia).
      rewrite app_nil_r. destruct st; reflexivity.
  - rewrite bool_decide_eq_true_2 by exact Hu. cbn [map console created written result].
    destruct (0 <? Set_size (new_Set (or_nil (columnsToRemove columnConfig))))%nat eqn:Hsz.
    + destruct (decide (excluded_present columnConfig headers = [])) as [He|He].
      * rewrite bool_decide_eq_false_2 by tauto. reflexivity.
      * rewrite bool_decide_eq_true_2 by exact He.
        cbn [console created written result]. rewrite <- app_assoc. reflexivity.
    + apply Nat.ltb_ge in Hsz.
      rewrite decide_True by (apply excluded_present_empty_set; lia).
      reflexivity.
Qed.

(** ** The files of a run *)

Lemma file_ok_Processed (env : Env) (filePath : string) :
  file_ok env filePath = true <-> file_outcome env filePath = Processed.
Proof.
  unfold file_ok, file_outcome.
  destruct (extractEnterprise env (path.basename filePath)); [split; discriminate|].
  destruct (existsSync env filePath); cbn [negb];
    destruct (csv_headers env filePath); try (split; discriminate);
    destruct (csv_rows env filePath); split; (discriminate || reflexivity).
Qed.

Lemma first_failure_None (env : Env) (files : list string) :
  first_failure env files = None <-> Forall (fun f => file_ok env f = true) files.
Proof.
  induction files as [|f files IH]; cbn [first_failure].
  - split; [constructor|reflexivity].
  - rewrite Forall_cons, file_ok_Processed, <- IH.
    destruct (file_outcome env f); try (split; [discriminate|intros [[=] _]]).
    destruct (first_failure env files) as [[[pre g] o]|];
      split; try discriminate; try tauto. intros [_ [=]].
Qed.

Lemma first_failure_Some (env : Env) (files pre : list string) (f : string)
    (o : FileOutcome) :
  first_failure env files = Some (pre, f, o) ->
  (exists post, files = pre ++ f :: post) /\
  Forall (fun g => file_ok env g = true) pre /\
  file_outcome env f = o /\ o <> Processed /\ file_ok env f = false.
Proof.
  revert pre. induction files as [|g files IH]; intros pre; cbn [first_failure];
    [discriminate|].
  destruct (file_outcome env g) eqn:Hg.
  - destruct (first_failure env files) as [[[pre' f'] o']|]; [|discriminate].
    intros [= <- <- <-]. destruct (IH pre' eq_refl) as ((post & ->) & Hpre & Hf & Hne).
    split; [exists post; reflexivity|]. split; [|auto].
    constructor; [apply file_ok_Processed, Hg|exact Hpre].
  - intros [= <- <- <-]. split; [exists files; reflexivity|].
    split; [constructor|]. split; [exact Hg|]. split; [discriminate|].
    apply not_true_is_false. rewrite file_ok_Processed. congruence.
  - intros [= <- <- <-]. split; [exists files; reflexivity|].
    split; [constructor|]. split; [exact Hg|]. split; [discriminate|].
    apply not_true_is_false. rewrite file_ok_Processed. congruence.
  - intros [= <- <- <-]. split; [exists files; reflexivity|].
    split; [constructor|]. split; [exact Hg|]. split; [discriminate|].
    apply not_true_is_false. rewrite file_ok_Processed. congruence.
Qed.

(** A file that is not processed without error is the first such file of a
    list, or comes after it. *)
Lemma first_failure_exists (env : Env) (files : list string) :
  Exists (fun f => file_ok env f = false) files ->
  exists pre f o, first_failure env files = Some (pre, f, o).
Proof.
  intros Hex. destruct (first_failure env files) as [[[pre f] o]|] eqn:Hff; [eauto|].
  apply first_failure_None in Hff. apply Exists_exists in Hex as (f & Hin & Hf).
  rewrite Forall_forall in Hff. specialize (Hff f Hin). congruence.
Qed.

(** ** The loop of mergeCsvFiles *)

(** The body of the loop on one file: how it ends and what it leaves in
    [result]. *)
Lemma processFile_run (env : Env) (columnConfig : ColumnConfig)
    (filePath : string) (st : State) :
  exists st',
    processFile env columnConfig (new_Set (or_nil (columnsToRemove columnConfig)))
                filePath st
    = (outcome_of filePath (file_outcome env filePath), st') /\
    result st' = file_step env columnConfig (result st) filePath /\
    written st' = written st /\ created st' = created st.
Proof.
  unfold file_step, file_outcome, failure_step, merge_step, warnings_before_failure,
    file_records, file_headers, processFile.
  unfold try_catch, mbind, M_bind, lift, getCsvHeaders, readCsvFile.
  unfold console_log at 1. unfold console_emit at 1.
  destruct (extractEnterprise env (path.basename filePath)) as [e|enterprise].
  { eexists. split; [reflexivity|]. cbn. auto. }
  destruct (existsSync env filePath) eqn:Hex; cbn [negb].
  2:{ eexists. split; [reflexivity|]. cbn.
      destruct (csv_headers env filePath); auto. }
  destruct (csv_headers env filePath) as [headers|e|e|] eqn:Hh.
  2:{ eexists. split; [reflexivity|]. cbn. auto. }
  2:{ eexists. split; [reflexivity|]. cbn.
      unfold push_errors. rewrite app_nil_r. destruct (result st); auto. }
  2:{ eexists. split; [reflexivity|]. cbn.
      unfold push_errors. rewrite app_nil_r. destruct (result st); auto. }
  unfold mret at 1. unfold M_ret at 1. rewrite validateAndFilterColumns_run.
  unfold modify_result at 1. cbn [fst snd console created written result].
  destruct (csv_rows env filePath) as [rows|e|e|] eqn:Hr.
  - unfold mbind, M_bind, mret, M_ret, modify_result, console_log, console_emit.
    cbn [fst snd console created written result].
    eexists. split; [reflexivity|]. cbn [result written created].
    rewrite length_map. auto.
  - eexists. split; [reflexivity|]. cbn [outcome_of result written created].
    unfold modify_result, console_error, console_emit, throw, mbind, M_bind.
    cbn [result written created]. unfold push_errors. cbn [errors success records
      totalFiles totalRecords]. rewrite <- app_assoc. auto.
  - eexists. split; [reflexivity|]. cbn [result written created]. auto.
  - eexists. split; [reflexivity|]. cbn [result written created]. auto.
Qed.

(** The loop over files that are all processed without error. *)
Lemma for_of_ok_run (env : Env) (columnConfig : ColumnConfig)
    (files : list string) (st : State) :
  Forall (fun f => file_ok env f = true) files ->
  exists st',
    for_of files
      (processFile env columnConfig (new_Set (or_nil (columnsToRemove columnConfig))))
      st = (Returned tt, st') /\
    result st' = foldl (merge_step env columnConfig) (result st) files /\
    written st' = written st /\ created st' = created st.
Proof.
  revert st. induction files as [|f files IH]; intros st Hok; cbn [for_of foldl].
  - exists st. auto.
  - apply Forall_cons in Hok as [Hf Hok].
    destruct (processFile_run env columnConfig f st) as (st1 & Hrun & Hres & Hw & Hc).
    apply file_ok_Processed in Hf. unfold file_step in Hres. rewrite Hf in Hrun, Hres.
    destruct (IH st1 Hok) as (st2 & Hrun2 & Hres2 & Hw2 & Hc2).
    exists st2. unfold mbind, M_bind. rewrite Hrun. cbn [outcome_of].
    split; [exact Hrun2|]. rewrite Hres2, Hres, Hw2, Hc2. auto.
Qed.

(** The loop stops at the first file that is not processed without error,
    and ends as the body does on this file. *)
Lemma for_of_fail_run (env : Env) (columnConfig : ColumnConfig)
    (files pre : list string) (f : string) (o : FileOutcome) (st : State) :
  first_failure env files = Some (pre, f, o) ->
  exists st',
    for_of files
      (processFile env columnConfig (new_Set (or_nil (columnsToRemove columnConfig))))
      st = (outcome_of f o, st') /\
    o <> Processed /\
    result st' = file_step env columnConfig
                   (foldl (merge_step env columnConfig) (result st) pre) f /\
    written st' = written st /\ created st' = created st.
Proof.
  intros Hff. apply first_failure_Some in Hff as ((post & ->) & Hpre & Hf & Hne & _).
  revert st. induction Hpre as [|g pre Hg Hpre IH]; intros st; cbn [app for_of foldl].
  - destruct (processFile_run env columnConfig f st) as (st1 & Hrun & Hres & Hw & Hc).
    rewrite Hf in Hrun. unfold mbind, M_bind. rewrite Hrun.
    exists st1. destruct o; cbn [outcome_of]; [congruence|auto..].
  - destruct (processFile_run env columnConfig g st) as (st1 & Hrun & Hres & Hw & Hc).
    apply file_ok_Processed in Hg. unfold file_step in Hres. rewrite Hg in Hrun, Hres.
    unfold mbind, M_bind. rewrite Hrun. cbn [outcome_of].
    destruct (IH st1) as (st2 & Hrun2 & _ & Hres2 & Hw2 & Hc2).
    exists st2. split; [exact Hrun2|]. split; [exact Hne|].
    rewrite Hres2, Hres, Hw2, Hc2. auto.
Qed.

(** ** mergeCsvFiles *)

Lemma getCsvFiles_inr (env : Env) (inputDir : string) (files : list string) :
  getCsvFiles env inputDir = inr files ->
  existsSync env inputDir = true /\ files <> [] /\
  exists entries,
    readdirSync env inputDir = inr entries /\
    files = map (fun file => path.join inputDir file)
                (List.filter (is_csv_name env) entries).
Proof.
  unfold getCsvFiles.
  destruct (existsSync env inputDir); cbn [negb]; [|discriminate].
  destruct (readdirSync env inputDir) as [msg|entries]; [discriminate|].
  case_decide as Hlen; [discriminate|]. intros [= <-].
  split; [reflexivity|]. split.
  - intros Hnil. apply Hlen. unfold is_csv_name in Hnil. rewrite Hnil. reflexivity.
  - exists entries. split; reflexivity.
Qed.

(** [mergeCsvFiles] by the outcome of its [try] block. *)
Lemma mergeCsvFiles_unfold (env : Env) (inputDir : string)
    (columnConfig : ColumnConfig) (st : State) :
  mergeCsvFiles env inputDir columnConfig st =
    match mergeCsvFiles_try env inputDir columnConfig
            {| console := console st; created := created st; written := written st;
               result := initial_result |} with
    | (Thrown e, st1) =>
        (Returned (result (mergeCsvFiles_catch e st1).2), (mergeCsvFiles_catch e st1).2)
    | (Returned _, st1) => (Returned (result st1), st1)
    | (Crashed e, st1) => (Crashed e, st1)
    | (Pending, st1) => (Pending, st1)
    end.
Proof.
  unfold mergeCsvFiles.
  unfold mbind at 1. unfold M_bind at 1. unfold modify_result at 1.
  unfold mbind at 1. unfold M_bind at 1. unfold try_catch.
  destruct (mergeCsvFiles_try env inputDir columnConfig _) as [[[]|e|e|] st1];
    try reflexivity.
  unfold mergeCsvFiles_catch, mbind, M_bind, modify_result, get_result.
  cbn [result errors set_success]. destruct (negb _); reflexivity.
Qed.

(** The [catch] block records a message that [result] does not hold yet. *)
Lemma mergeCsvFiles_catch_run (errorMsg : string) (st : State) :
  mergeCsvFiles_catch errorMsg st =
    (Returned tt,
     {| console := console st; created := created st; written := written st;
        result :=
          (if decide (errorMsg ∈ errors (result st))
           then set_success false (result st)
           else push_errors [errorMsg] (set_success false (result st))) |}).
Proof.
  unfold mergeCsvFiles_catch, mbind, M_bind, modify_result, get_result, Array_includes.
  cbn [result errors set_success console created written].
  case_decide as Hin.
  - rewrite bool_decide_eq_true_2 by exact Hin. reflexivity.
  - rewrite bool_decide_eq_false_2 by exact Hin. reflexivity.
Qed.

(** The [try] block up to the loop. *)
Lemma mergeCsvFiles_try_unfold (env : Env) (inputDir : string)
    (columnConfig : ColumnConfig) (st : State) :
  mergeCsvFiles_try env inputDir columnConfig st =
    match getCsvFiles env inputDir with
    | inl msg => (Thrown msg, st)
    | inr csvFiles =>
        (for_of csvFiles
           (processFile env columnConfig
              (new_Set (or_nil (columnsToRemove columnConfig)))) ;;
         modify_result (set_success true) ;;
         r ← get_result;
         console_log ("✅ Successfully merged " +:+ pretty (totalRecords r) +:+
                      " records from " +:+ pretty (totalFiles r) +:+ " files"))
          {| console := console st ++
               [(LOG, "Found " +:+ pretty (length csvFiles) +:+
                      " CSV files to process")];
             created := created st; written := written st;
             result := set_totalFiles (length csvFiles) (result st) |}
    end.
Proof.
  unfold mergeCsvFiles_try.
  unfold mbind at 1. unfold M_bind at 1. unfold lift at 1.
  destruct (getCsvFiles env inputDir) as [msg|files]; reflexivity.
Qed.

(** The run in which the files cannot be listed. *)
Lemma mergeCsvFiles_no_files_run (env : Env) (inputDir : string)
    (columnConfig : ColumnConfig) (st : State) (msg : string) :
  getCsvFiles env inputDir = inl msg ->
  mergeCsvFiles env inputDir columnConfig st
  = (Returned (no_files_result msg),
     {| console := console st; created := created st; written := written st;
        result := no_files_result msg |}).
Proof.
  intros Hfiles. rewrite mergeCsvFiles_unfold, mergeCsvFiles_try_unfold, Hfiles.
  rewrite mergeCsvFiles_catch_run. cbn [snd result errors initial_result].
  rewrite decide_False by apply not_elem_of_nil. reflexivity.
Qed.

Lemma foldl_merge_step (env : Env) (columnConfig : ColumnConfig)
    (files : list string) (res : ProcessingResult) :
  let final := foldl (merge_step env columnConfig) res files in
  success final = success res /\ totalFiles final = totalFiles res /\
  errors final = errors res ++
    concat (map (fun f => header_warnings columnConfig f (file_headers env f)) files) /\
  records final = records res ++
    concat (map (file_records env columnConfig) files) /\
  totalRecords final =
    (totalRecords res +
     length (concat (map (file_records env columnConfig) files)))%nat.
Proof.
  revert res. induction files as [|f files IH]; intros res; cbn [foldl map concat].
  - rewrite !app_nil_r. cbn [length]. rewrite Nat.add_0_r. auto.
  - specialize (IH (merge_step env columnConfig res f)).
    cbn zeta in IH. destruct IH as (-> & -> & -> & -> & ->).
    unfold merge_step.
    cbn [success totalFiles errors records totalRecords push_records push_errors].
    rewrite <- !app_assoc, length_app, Nat.add_assoc. auto.
Qed.

(** A run in which every file is processed without error. *)
Lemma mergeCsvFiles_ok_run (env : Env) (inputDir : string)
    (columnConfig : ColumnConfig) (st : State) (files : list string) :
  getCsvFiles env inputDir = inr files ->
  Forall (fun f => file_ok env f = true) files ->
  exists res st',
    mergeCsvFiles env inputDir columnConfig st = (Returned res, st') /\
    result st' = res /\ written st' = written st /\ created st' = created st /\
    success res = true /\ totalFiles res = length files /\
    errors res =
      concat (map (fun f => header_warnings columnConfig f (file_headers env f)) files) /\
    records res = concat (map (file_records env columnConfig) files) /\
    totalRecords res = length (records res).
Proof.
  intros Hfiles Hok.
  rewrite mergeCsvFiles_unfold, mergeCsvFiles_try_unfold, Hfiles.
  unfold mbind at 1. unfold M_bind at 1.
  match goal with |- context [for_of files ?b ?s] =>
    destruct (for_of_ok_run env columnConfig files s Hok)
      as (st1 & -> & Hres & Hw & Hc) end.
  cbn [result written created] in Hres, Hw, Hc.
  unfold mbind, M_bind, modify_result, get_result, console_log, console_emit.
  cbn [result console written created fst snd].
  eexists _, _. split; [reflexivity|]. cbn [result written created].
  split; [reflexivity|]. split; [exact Hw|]. split; [exact Hc|].
  rewrite Hres.
  destruct (foldl_merge_step env columnConfig files
              (set_totalFiles (length files) initial_result))
    as (Hs & Ht & He & Hr & Hn).
  cbn [success totalFiles errors records totalRecords set_success].
  rewrite Ht, He, Hr, Hn. cbn. auto.
Qed.

(** The message of a rejected file is in [result] when the outer [catch]
    receives it. *)
Lemma failure_message_recorded (env : Env) (columnConfig : ColumnConfig)
    (res : ProcessingResult) (f cause : string) :
  file_failure_message f cause ∈ errors (failure_step env columnConfig res f cause).
Proof.
  unfold failure_step, push_errors. cbn [errors].
  rewrite !elem_of_app, list_elem_of_singleton. auto.
Qed.

(** A run that stops at a file: how it ends, by what the processing of the
    file comes to. *)
Lemma mergeCsvFiles_fail_run (env : Env) (inputDir : string)
    (columnConfig : ColumnConfig) (st : State) (files pre : list string)
    (f : string) (o : FileOutcome) :
  getCsvFiles env inputDir = inr files ->
  first_failure env files = Some (pre, f, o) ->
  exists st',
    mergeCsvFiles env inputDir columnConfig st
    = (match o with
       | Processed => Returned (result st')
       | Rejected _ => Returned (result st')
       | Dies message => Crashed message
       | Hangs => Pending
       end, st') /\
    result st' = file_step env columnConfig
                   (foldl (merge_step env columnConfig)
                          (set_totalFiles (length files) initial_result) pre) f /\
    written st' = written st /\ created st' = created st.
Proof.
  intros Hfiles Hff.
  rewrite mergeCsvFiles_unfold, mergeCsvFiles_try_unfold, Hfiles.
  unfold mbind at 1. unfold M_bind at 1.
  match goal with |- context [for_of files ?b ?s] =>
    destruct (for_of_fail_run env columnConfig files pre f o s Hff)
      as (st1 & -> & Hne & Hres & Hw & Hc) end.
  cbn [result written created] in Hres, Hw, Hc.
  apply first_failure_Some in Hff as (_ & _ & Hf & _).
  destruct o as [|cause|message|]; cbn [outcome_of]; [congruence| | |].
  - rewrite mergeCsvFiles_catch_run. cbn [snd result].
    assert (Hin : file_failure_message f cause ∈ errors (result st1)).
    { rewrite Hres. unfold file_step. rewrite Hf. apply failure_message_recorded. }
    rewrite decide_True by exact Hin.
    assert (Hs : set_success false (result st1) = result st1).
    { rewrite Hres. unfold file_step. rewrite Hf. unfold failure_step, push_errors.
      cbn [set_success success records totalFiles totalRecords errors].
      destruct (foldl_merge_step env columnConfig pre
                  (set_totalFiles (length files) initial_result)) as (-> & _).
      reflexivity. }
    rewrite Hs. destruct st1 as [c cr w r]. cbn [console created written result] in *.
    exists {| console := c; created := cr; written := w; result := r |}.
    split; [reflexivity|]. cbn [result written created]. auto.
  - exists st1. auto.
  - exists st1. auto.
Qed.

(** ** Warnings *)

Lemma unexpected_warning_marked (filePath : string) (unexpectedColumns : list string) :
  JsString.includes warning_sign (unexpected_warning filePath unexpectedColumns) = true.
Proof. apply includes_startsWith. unfold unexpected_warning. apply startsWith_app. Qed.

Lemma unexpected_warning_not_note (filePath filePath' : string)
    (unexpectedColumns removedColumns : list string) :
  unexpected_warning filePath unexpectedColumns <> removed_note filePath' removedColumns.
Proof.
  unfold unexpected_warning, removed_note, warning_sign.
  rewrite !append_cons. intros [=].
Qed.

Lemma header_warnings_total (env : Env) (columnConfig : ColumnConfig)
    (files : list string) :
  length (List.filter (fun error => JsString.includes warning_sign error)
            (concat (map (fun f => header_warnings columnConfig f (file_headers env f))
                         files)))
  = length (filter (fun f => unexpected_columns columnConfig (file_headers env f) <> [])
                   files).
Proof.
  induction files as [|f files IH]; [reflexivity|].
  cbn [map concat]. rewrite List.filter_app, length_app, IH.
  unfold header_warnings at 1.
  destruct (decide (unexpected_columns columnConfig (file_headers env f) = [])) as [Hu|Hu].
  - rewrite filter_cons_False by tauto. reflexivity.
  - rewrite filter_cons_True by exact Hu. cbn [List.filter].
    rewrite unexpected_warning_marked. reflexivity.
Qed.

(** C7: a header is unexpected exactly when it is neither a canonical column
    nor an excluded one, and the unexpected headers keep the order of the
    file; a file with an unexpected header adds exactly one warning string
    and any other file none; the note about removed columns goes to the
    console only and is never a warning.  In a run that succeeds the
    messages of the result are these warnings, so that the warning total is
    the number of files with an unexpected header. *)
Theorem unexpected_columns_warn_once_per_file
    (env : Env) (inputDir : string) (columnConfig : ColumnConfig) (st : State)
    (files : list string) :
  getCsvFiles env inputDir = inr files ->
  Forall (fun f => file_ok env f = true) files ->
  (forall filePath headers st0,
     exists filteredHeaders warnings st1,
       validateAndFilterColumns filePath headers columnConfig st0
       = (Returned (filteredHeaders, warnings), st1) /\
       (forall h, h ∈ unexpected_columns columnConfig headers <->
                  h ∈ headers /\ (h ∉ columns columnConfig) /\
                  (h ∉ or_nil (columnsToRemove columnConfig))) /\
       unexpected_columns columnConfig headers `sublist_of` headers /\
       warnings = (if decide (unexpected_columns columnConfig headers = []) then []
                   else [unexpected_warning filePath
                           (unexpected_columns columnConfig headers)]) /\
       (excluded_present columnConfig headers <> [] ->
        (LOG, removed_note filePath (excluded_present columnConfig headers))
          ∈ console st1) /\
       (forall removedColumns, removed_note filePath removedColumns ∉ warnings) /\
       result st1 = result st0) /\
  exists res st',
    mergeCsvFiles env inputDir columnConfig st = (Returned res, st') /\
    success res = true /\
    errors res =
      concat (map (fun f => header_warnings columnConfig f (file_headers env f)) files) /\
    warning_total res =
      length (filter (fun f => unexpected_columns columnConfig (file_headers env f) <> [])
                     files).
Proof.
  intros Hfiles Hok. split.
  - intros filePath headers st0. rewrite validateAndFilterColumns_run.
    eexists _, _, _. split; [reflexivity|].
    split; [|split; [|split; [|split; [|split]]]].
    + intros h. unfold unexpected_columns. rewrite list_elem_of_filter. tauto.
    + apply sublist_filter.
    + reflexivity.
    + intros Hne. cbn [console]. unfold header_lines.
      rewrite decide_False by exact Hne.
      rewrite !elem_of_app. right. right. apply list_elem_of_here.
    + intros removedColumns. unfold header_warnings. case_decide.
      * apply not_elem_of_nil.
      * intros Hin%list_elem_of_singleton. symmetry in Hin.
        exact (unexpected_warning_not_note _ _ _ _ Hin).
    + reflexivity.
  - destruct (mergeCsvFiles_ok_run env inputDir columnConfig st files Hfiles Hok)
      as (res & st' & Hrun & _ & _ & _ & Hs & _ & He & _).
    exists res, st'. split; [exact Hrun|]. split; [exact Hs|]. split; [exact He|].
    unfold warning_total. rewrite He. apply header_warnings_total.
Qed.

Lemma two_files_listed :
  getCsvFiles two_files "inputs"
  = inr ["inputs/ghec_orgA_data.csv"; "inputs/ghes_orgB_data.csv"].
Proof. vm_compute. reflexivity. Qed.

Lemma two_files_ok :
  Forall (fun f => file_ok two_files f = true)
         ["inputs/ghec_orgA_data.csv"; "inputs/ghes_orgB_data.csv"].
Proof. repeat constructor; vm_compute; reflexivity. Qed.

Lemma unexpected_columns_warn_once_per_file_witness :
  getCsvFiles two_files "inputs"
    = inr ["inputs/ghec_orgA_data.csv"; "inputs/ghes_orgB_data.csv"] /\
  Forall (fun f => file_ok two_files f = true)
         ["inputs/ghec_orgA_data.csv"; "inputs/ghes_orgB_data.csv"] /\
  exists res st',
    mergeCsvFiles two_files "inputs" two_columns initial_state = (Returned res, st') /\
    success res = true /\
    warning_total res =
      length (filter (fun f => unexpected_columns two_columns (file_headers two_files f)
                               <> [])
                     ["inputs/ghec_orgA_data.csv"; "inputs/ghes_orgB_data.csv"]).
Proof.
  split; [exact two_files_listed|]. split; [exact two_files_ok|].
  destruct (unexpected_columns_warn_once_per_file two_files "inputs" two_columns
              initial_state _ two_files_listed two_files_ok)
    as (_ & res & st' & Hrun & Hs & _ & Hw).
  exists res, st'. split; [exact Hrun|]. split; [exact Hs|exact Hw].
Defined.

(** X10: [validateAndFilterColumns] returns the headers that are not
    removed, in the order of the file; together with the removed ones they
    are the headers of the file; every unexpected header is among the
    returned ones; there is no warning exactly when every header is a
    canonical or a removed column; no file is written and the [result]
    object is left alone. *)
Theorem validateAndFilterColumns_headers (filePath : string)
    (headers : list string) (columnConfig : ColumnConfig) (st : State) :
  exists filteredHeaders warnings st',
    validateAndFilterColumns filePath headers columnConfig st
    = (Returned (filteredHeaders, warnings), st') /\
    filteredHeaders
    = filter (fun h => h ∉ or_nil (columnsToRemove columnConfig)) headers /\
    filteredHeaders ++ excluded_present columnConfig headers ≡ₚ headers /\
    unexpected_columns columnConfig headers `sublist_of` filteredHeaders /\
    (warnings = [] <->
     forall h, h ∈ headers ->
               h ∈ columns columnConfig \/ h ∈ or_nil (columnsToRemove columnConfig)) /\
    written st' = written st /\ created st' = created st /\ result st' = result st.
Proof.
  rewrite validateAndFilterColumns_run. eexists _, _, _. split; [reflexivity|].
  split; [reflexivity|]. split; [|split; [|split; [|repeat split; reflexivity]]].
  - unfold excluded_present. induction headers as [|h headers IH]; [reflexivity|].
    destruct (decide (h ∈ or_nil (columnsToRemove columnConfig))) as [Hh|Hh].
    + rewrite filter_cons_False by tauto. rewrite filter_cons_True by exact Hh.
      rewrite <- Permutation_middle, IH. reflexivity.
    + rewrite filter_cons_True by exact Hh. rewrite filter_cons_False by exact Hh.
      cbn [app]. rewrite IH. reflexivity.
  - unfold unexpected_columns. induction headers as [|h headers IH]; [constructor|].
    destruct (decide (h ∈ or_nil (columnsToRemove columnConfig))) as [Hr|Hr].
    + rewrite !filter_cons_False by tauto. exact IH.
    + rewrite (filter_cons_True (fun h => h ∉ or_nil (columnsToRemove columnConfig)))
        by exact Hr.
      destruct (decide (h ∈ columns columnConfig)) as [Hc|Hc].
      * rewrite filter_cons_False by tauto. apply sublist_cons, IH.
      * rewrite filter_cons_True by tauto. apply sublist_skip, IH.
  - unfold header_warnings. case_decide as Hu.
    + split; [intros _|reflexivity]. intros h Hh.
      destruct (decide (h ∈ columns columnConfig)) as [?|Hc]; [auto|].
      destruct (decide (h ∈ or_nil (columnsToRemove columnConfig))) as [?|Hr]; [auto|].
      exfalso. eapply (filter_nil_not_elem_of _ _ h Hu); [|exact Hh]. tauto.
    + split; [discriminate|]. intros Hall. exfalso. apply Hu.
      unfold unexpected_columns. clear Hu.
      induction headers as [|h headers IH]; [reflexivity|].
      rewrite filter_cons_False.
      * apply IH. intros h' Hh'. apply Hall, list_elem_of_further, Hh'.
      * destruct (Hall h (list_elem_of_here _ _)); tauto.
Qed.

(** ** The configuration *)

Lemma loadColumnConfig_ok_run (env : Env) (configPath : string)
    (columnConfig : ColumnConfig) (st : State) :
  existsSync env configPath = true ->
  json_config env configPath = inr columnConfig ->
  exists st',
    loadColumnConfig env configPath st = (Returned columnConfig, st') /\
    written st' = written st /\ created st' = created st /\ result st' = result st.
Proof.
  intros Hex Hjson. unfold loadColumnConfig, try_catch. rewrite Hex. cbn [negb].
  unfold mbind, M_bind, lift, console_log, console_emit, mret, M_ret. rewrite Hjson.
  eexists. split; [reflexivity|]. repeat split; reflexivity.
Qed.

Lemma loadColumnConfig_fail_run (env : Env) (configPath : string) (st : State) :
  existsSync env configPath = false \/
  (exists message, json_config env configPath = inl message) ->
  exists cause,
    loadColumnConfig env configPath st
    = (Thrown ("Error loading column configuration: " +:+ cause), st) /\
    (cause = "Column configuration file does not exist: " +:+ configPath \/
     json_config env configPath = inl cause).
Proof.
  intros Hcase. unfold loadColumnConfig, try_catch.
  destruct (existsSync env configPath); cbn [negb].
  - destruct Hcase as [[=]|(message & Hjson)].
    unfold mbind, M_bind, lift, throw. rewrite Hjson. eauto.
  - unfold throw. eauto.
Qed.

(** The configuration loads, or the load throws and leaves the state. *)
Lemma loadColumnConfig_run (env : Env) (configPath : string) (st : State) :
  (exists columnConfig st',
     existsSync env configPath = true /\
     json_config env configPath = inr columnConfig /\
     loadColumnConfig env configPath st = (Returned columnConfig, st') /\
     written st' = written st /\ created st' = created st /\
     result st' = result st) \/
  (exists cause,
     loadColumnConfig env configPath st
     = (Thrown ("Error loading column configuration: " +:+ cause), st) /\
     (cause = "Column configuration file does not exist: " +:+ configPath \/
      json_config env configPath = inl cause)).
Proof.
  destruct (existsSync env configPath) eqn:Hex.
  - destruct (json_config env configPath) as [message|columnConfig] eqn:Hjson.
    + right. rewrite <- Hjson. apply loadColumnConfig_fail_run. eauto.
    + left. destruct (loadColumnConfig_ok_run env configPath columnConfig st Hex Hjson)
        as (st' & Hrun & Hw & Hc & Hr).
      exists columnConfig, st'. auto 10.
  - right. apply loadColumnConfig_fail_run. auto.
Qed.

(** ** processCsvMerge *)

(** [processCsvMerge]: the [try] block from the load of the configuration
    on, and the [catch]. *)
Lemma processCsvMerge_unfold (env : Env)
    (inputDir outputDir outputFilename columnConfigPath : string) (st : State) :
  processCsvMerge env inputDir outputDir outputFilename columnConfigPath st =
    try_catch
      (columnConfig ← loadColumnConfig env columnConfigPath;
       res ← mergeCsvFiles env inputDir columnConfig;
       if negb (success res)
       then throw ("Merge failed: " +:+ JsString.join ", " (errors res))
       else processCsvMerge_output env outputDir outputFilename columnConfig res)
      (fun errorMsg =>
         console_error ("CSV merge failed: " +:+ errorMsg) ;;
         throw errorMsg)
      {| console := console st ++ opening_lines inputDir outputDir columnConfigPath;
         created := created st; written := written st; result := result st |}.
Proof.
  unfold processCsvMerge, processCsvMerge_try, try_catch, opening_lines.
  unfold mbind at 1. unfold M_bind at 1. unfold console_log at 1, console_emit at 1.
  unfold mbind at 1. unfold M_bind at 1. unfold console_log at 1, console_emit at 1.
  unfold mbind at 1. unfold M_bind at 1. unfold console_log at 1, console_emit at 1.
  unfold mbind at 1. unfold M_bind at 1. unfold console_log at 1, console_emit at 1.
  cbn [console created written result]. rewrite <- !app_assoc. reflexivity.
Qed.

(** The [catch] of [processCsvMerge] on a message. *)
Lemma processCsvMerge_catch_run (errorMsg : string) (st : State) :
  (console_error ("CSV merge failed: " +:+ errorMsg) ;; throw errorMsg) st
  = (@Thrown unit errorMsg,
     {| console := console st ++ [(ERROR, "CSV merge failed: " +:+ errorMsg)];
        created := created st; written := written st; result := result st |}).
Proof. reflexivity. Qed.

(** ** The fail-fast policy *)

(** A run that cannot merge has a failure. *)
Lemma run_failure_exists (env : Env) (inputDir : string) :
  (exists msg, getCsvFiles env inputDir = inl msg) \/
  (exists files, getCsvFiles env inputDir = inr files /\
                 Exists (fun f => file_ok env f = false) files) ->
  exists k, run_failure env inputDir = Some k.
Proof.
  unfold run_failure. intros [(msg & ->)|(files & -> & Hex)]; [eauto|].
  destruct (first_failure_exists env files Hex) as (pre & f & o & Hff).
  rewrite Hff. apply first_failure_Some in Hff as (_ & _ & _ & Hne & _).
  destruct o; [congruence|eauto..].
Qed.

(** How [mergeCsvFiles] ends in a run that has a failure. *)
Lemma mergeCsvFiles_failure_run (env : Env) (inputDir : string)
    (columnConfig : ColumnConfig) (st : State) (k : RunFailure) :
  run_failure env inputDir = Some k ->
  exists o st',
    mergeCsvFiles env inputDir columnConfig st = (o, st') /\
    written st' = written st /\ created st' = created st /\
    match k with
    | Caught => exists res, o = Returned res /\ success res = false
    | Died message => o = Crashed message
    | Hung => o = Pending
    end.
Proof.
  unfold run_failure.
  destruct (getCsvFiles env inputDir) as [msg|files] eqn:Hfiles.
  - intros [= <-]. rewrite (mergeCsvFiles_no_files_run _ _ _ _ _ Hfiles).
    eexists _, _. split; [reflexivity|]. cbn [written created]. eauto.
  - destruct (first_failure env files) as [[[pre f] o]|] eqn:Hff; [|discriminate].
    destruct (mergeCsvFiles_fail_run env inputDir columnConfig st files pre f o
                Hfiles Hff) as (st' & Hrun & Hres & Hw & Hc).
    intros Hk. exists (match o with
                       | Dies message => Crashed message
                       | Hangs => Pending
                       | _ => Returned (result st')
                       end), st'.
    split; [rewrite Hrun; destruct o; reflexivity|]. split; [exact Hw|].
    split; [exact Hc|].
    destruct o as [|cause|message|]; try discriminate; injection Hk as <-;
      try reflexivity.
    eexists. split; [reflexivity|]. rewrite Hres.
    apply first_failure_Some in Hff as (_ & _ & Hf & _).
    unfold file_step. rewrite Hf. unfold failure_step, push_errors. cbn [success].
    destruct (foldl_merge_step env columnConfig pre
                (set_totalFiles (length files) initial_result)) as (-> & _).
    reflexivity.
Qed.

(** How [processCsvMerge] ends in a run that has a failure: the load of the
    configuration comes first. *)
Lemma processCsvMerge_failure_run (env : Env)
    (inputDir outputDir outputFilename columnConfigPath : string) (st : State)
    (k : RunFailure) :
  run_failure env inputDir = Some k ->
  exists o st',
    processCsvMerge env inputDir outputDir outputFilename columnConfigPath st
    = (o, st') /\
    written st' = written st /\ created st' = created st /\
    ((exists cause,
        o = Thrown ("Error loading column configuration: " +:+ cause) /\
        (cause = "Column configuration file does not exist: " +:+ columnConfigPath \/
         json_config env columnConfigPath = inl cause)) \/
     (existsSync env columnConfigPath = true /\
      exists columnConfig st1 st2,
        json_config env columnConfigPath = inr columnConfig /\
        match k with
        | Caught =>
            exists res,
              mergeCsvFiles env inputDir columnConfig st1 = (Returned res, st2) /\
              o = Thrown ("Merge failed: " +:+ JsString.join ", " (errors res)) /\
              console st' = console st2 ++ [(ERROR, "CSV merge failed: Merge failed: "
                                               +:+ JsString.join ", " (errors res))]
        | Died message => o = Crashed message
        | Hung => o = Pending
        end)).
Proof.
  intros Hk. rewrite processCsvMerge_unfold.
  match goal with |- context [try_catch _ _ ?s] => set (st0 := s) end.
  assert (Hw0 : written st0 = written st) by reflexivity.
  assert (Hc0 : created st0 = created st) by reflexivity.
  unfold try_catch. unfold mbind at 1. unfold M_bind at 1.
  destruct (loadColumnConfig_run env columnConfigPath st0)
    as [(columnConfig & st1 & Hex & Hjson & -> & Hw1 & Hc1 & _)|(cause & -> & Hcause)].
  - destruct (mergeCsvFiles_failure_run env inputDir columnConfig st1 k Hk)
      as (mo & st2 & Hrun & Hw2 & Hc2 & Hshape).
    unfold mbind at 1. unfold M_bind at 1. rewrite Hrun.
    destruct k as [|message|].
    + destruct Hshape as (res & -> & Hs). rewrite Hs. cbn [negb].
      unfold throw, mbind, M_bind, console_error, console_emit.
      eexists _, _. split; [reflexivity|]. cbn [written created console].
      split; [congruence|]. split; [congruence|]. right. split; [exact Hex|].
      exists columnConfig, st1, st2. split; [exact Hjson|].
      exists res. split; [exact Hrun|]. split; [reflexivity|].
      rewrite <- append_assoc. reflexivity.
    + subst mo. eexists _, _. split; [reflexivity|].
      split; [congruence|]. split; [congruence|]. right. split; [exact Hex|].
      exists columnConfig, st1, st2. auto.
    + subst mo. eexists _, _. split; [reflexivity|].
      split; [congruence|]. split; [congruence|]. right. split; [exact Hex|].
      exists columnConfig, st1, st2. auto.
  - unfold throw, mbind, M_bind, console_error, console_emit.
    eexists _, _. split; [reflexivity|]. cbn [written created].
    split; [reflexivity|]. split; [reflexivity|]. left. eauto.
Qed.

(** C2, as the code has it.  When the files cannot be listed (the directory
    is missing, or holds no [.csv] file), or the processing of a file is not
    without error, no file is written and no directory is created, and the
    orchestrator does not return.  When the failure is an exception (the
    name does not resolve, the file is missing, the parser reports an
    error), the merge result has [success = false] and the orchestrator
    throws.  When the read stream of a file fails (an unreadable file, a
    directory named as a CSV file), its [error] event has no listener:
    there is no merge result, and nothing is thrown to the caller.  When the
    file is empty, the headers awaited never come. *)
Theorem merge_failure_writes_nothing (env : Env)
    (inputDir outputDir outputFilename columnConfigPath : string)
    (columnConfig : ColumnConfig) (st : State) :
  (exists msg, getCsvFiles env inputDir = inl msg) \/
  (exists files, getCsvFiles env inputDir = inr files /\
                 Exists (fun f => file_ok env f = false) files) ->
  exists k,
    run_failure env inputDir = Some k /\
    (exists o st',
       mergeCsvFiles env inputDir columnConfig st = (o, st') /\
       written st' = written st /\ created st' = created st /\
       match k with
       | Caught => exists res, o = Returned res /\ success res = false
       | Died message => o = Crashed message
       | Hung => o = Pending
       end) /\
    (exists o st',
       processCsvMerge env inputDir outputDir outputFilename columnConfigPath st
       = (o, st') /\
       written st' = written st /\ created st' = created st /\
       (forall a, o <> Returned a) /\
       match k with
       | Caught => exists msg, o = Thrown msg
       | Died message =>
           o = Crashed message \/
           exists cause, o = Thrown ("Error loading column configuration: " +:+ cause)
       | Hung =>
           o = Pending \/
           exists cause, o = Thrown ("Error loading column configuration: " +:+ cause)
       end).
Proof.
  intros Hfail. destruct (run_failure_exists env inputDir Hfail) as (k & Hk).
  exists k. split; [exact Hk|].
  split; [apply mergeCsvFiles_failure_run, Hk|].
  destruct (processCsvMerge_failure_run env inputDir outputDir outputFilename
              columnConfigPath st k Hk)
    as (o & st' & Hrun & Hw & Hc & Hshape).
  exists o, st'. split; [exact Hrun|]. split; [exact Hw|]. split; [exact Hc|].
  destruct Hshape as [(cause & -> & _)|(_ & cc & st1 & st2 & _ & Hshape)].
  - split; [discriminate|]. destruct k; eauto.
  - destruct k as [|message|].
    + destruct Hshape as (res & _ & -> & _). split; [discriminate|eauto].
    + subst o. split; [discriminate|auto].
    + subst o. split; [discriminate|auto].
Qed.

Lemma merge_failure_writes_nothing_witness :
  (exists files, getCsvFiles one_directory_entry "inputs" = inr files /\
                 Exists (fun f => file_ok one_directory_entry f = false) files) /\
  run_failure one_directory_entry "inputs"
  = Some (Died "EISDIR: illegal operation on a directory, read") /\
  (exists st',
     mergeCsvFiles one_directory_entry "inputs" two_columns initial_state
     = (Crashed "EISDIR: illegal operation on a directory, read", st') /\
     written st' = []) /\
  (exists o st',
     processCsvMerge one_directory_entry "inputs" "output" "merged_data"
                     "column-config.json" initial_state = (o, st') /\
     written st' = [] /\ forall a, o <> Returned a).
Proof.
  assert (Hfail : exists files,
            getCsvFiles one_directory_entry "inputs" = inr files /\
            Exists (fun f => file_ok one_directory_entry f = false) files).
  { exists ["inputs/ghec_orgA_data.csv"; "inputs/ghes_orgB_data.csv"].
    split; [vm_compute; reflexivity|].
    apply Exists_cons_tl, Exists_cons_hd. vm_compute. reflexivity. }
  split; [exact Hfail|].
  destruct (merge_failure_writes_nothing one_directory_entry "inputs" "output"
              "merged_data" "column-config.json" two_columns initial_state
              (or_intror Hfail))
    as (k & Hk & (o & st' & Hrun & Hw & _ & Hshape) & (o' & st'' & Hrun' & Hw' & _ & Hnot & _)).
  assert (Hk' : run_failure one_directory_entry "inputs"
                = Some (Died "EISDIR: illegal operation on a directory, read"))
    by (vm_compute; reflexivity).
  rewrite Hk' in Hk. injection Hk as <-. subst o.
  split; [exact Hk'|]. split.
  - exists st'. split; [exact Hrun|exact Hw].
  - exists o', st''. split; [exact Hrun'|]. split; [exact Hw'|exact Hnot].
Defined.

(** ** mergeCsvFiles, every outcome *)

Lemma merge_step_counts (env : Env) (columnConfig : ColumnConfig)
    (files : list string) (res : ProcessingResult) :
  counts_agree res -> counts_agree (foldl (merge_step env columnConfig) res files).
Proof.
  unfold counts_agree. intros Hres.
  destruct (foldl_merge_step env columnConfig files res) as (_ & _ & _ & -> & ->).
  rewrite length_app, Hres. reflexivity.
Qed.

(** A file that stops the loop adds messages to [result], and nothing
    else. *)
Lemma file_step_stopped (env : Env) (columnConfig : ColumnConfig)
    (res : ProcessingResult) (f : string) :
  file_outcome env f <> Processed ->
  success (file_step env columnConfig res f) = success res /\
  records (file_step env columnConfig res f) = records res /\
  totalFiles (file_step env columnConfig res f) = totalFiles res /\
  totalRecords (file_step env columnConfig res f) = totalRecords res.
Proof.
  unfold file_step. destruct (file_outcome env f); [congruence|auto..].
Qed.

Lemma run_failure_None (env : Env) (inputDir : string) :
  run_failure env inputDir = None <->
  exists files, getCsvFiles env inputDir = inr files /\
                Forall (fun f => file_ok env f = true) files.
Proof.
  unfold run_failure. destruct (getCsvFiles env inputDir) as [msg|files].
  - split; [discriminate|intros (files & [=] & _)].
  - destruct (first_failure env files) as [[[pre f] o]|] eqn:Hff.
    + pose proof (first_failure_Some _ _ _ _ _ Hff) as ((post & ->) & _ & _ & Hne & Hf).
      split.
      * destruct o; try discriminate. congruence.
      * intros (files & [= <-] & Hall).
        apply Forall_app in Hall as [_ Hall]. apply Forall_cons in Hall as [Hall _].
        congruence.
    + split; [|reflexivity]. intros _. exists files. split; [reflexivity|].
      apply first_failure_None, Hff.
Qed.

(** X11: [mergeCsvFiles] never throws: it returns its [result] object, or
    the process dies on a stream error, or the run hangs on an event that
    never comes.  In every case no file is written and no directory is
    created, the record counter of [result] equals the number of records
    held, and the file counter is the number of [.csv] files found (zero
    when the listing failed), also when the run stopped at a file. *)
Theorem mergeCsvFiles_counters (env : Env) (inputDir : string)
    (columnConfig : ColumnConfig) (st : State) :
  exists o st',
    mergeCsvFiles env inputDir columnConfig st = (o, st') /\
    (forall e, o <> Thrown e) /\
    (forall res, o = Returned res -> res = result st') /\
    written st' = written st /\ created st' = created st /\
    counts_agree (result st') /\
    totalFiles (result st') = match getCsvFiles env inputDir with
                              | inr files => length files
                              | inl _ => 0%nat
                              end.
Proof.
  destruct (getCsvFiles env inputDir) as [msg|files] eqn:Hfiles.
  - rewrite (mergeCsvFiles_no_files_run env inputDir columnConfig st msg Hfiles).
    eexists _, _. split; [reflexivity|]. cbn [result written created].
    split; [discriminate|]. split; [intros res [= <-]; reflexivity|].
    repeat split.
  - destruct (first_failure env files) as [[[pre f] o]|] eqn:Hff.
    + destruct (mergeCsvFiles_fail_run env inputDir columnConfig st files pre f o
                  Hfiles Hff) as (st' & Hrun & Hres & Hw & Hc).
      apply first_failure_Some in Hff as (_ & _ & Hf & Hne & _).
      eexists _, st'. split; [exact Hrun|].
      split; [destruct o; discriminate|].
      split; [destruct o; intros res [=]; congruence|].
      split; [exact Hw|]. split; [exact Hc|].
      assert (Hne' : file_outcome env f <> Processed) by congruence.
      destruct (file_step_stopped env columnConfig
                  (foldl (merge_step env columnConfig)
                         (set_totalFiles (length files) initial_result) pre) f Hne')
        as (_ & Hr & Ht & Hn).
      unfold counts_agree. rewrite Hres, Hr, Ht, Hn. split.
      * apply merge_step_counts. reflexivity.
      * destruct (foldl_merge_step env columnConfig pre
                    (set_totalFiles (length files) initial_result)) as (_ & -> & _).
        reflexivity.
    + apply first_failure_None in Hff.
      destruct (mergeCsvFiles_ok_run env inputDir columnConfig st files Hfiles Hff)
        as (res & st' & Hrun & Hres & Hw & Hc & _ & Ht & _ & _ & Hn).
      exists (Returned res), st'. split; [exact Hrun|]. split; [discriminate|].
      split; [intros res' [= <-]; congruence|]. split; [exact Hw|]. split; [exact Hc|].
      unfold counts_agree. rewrite Hres. auto.
Qed.

(** X12: [mergeCsvFiles] returns exactly when no read stream fails and no
    awaited event stays out; the result it returns has [success = true]
    exactly when the listing of the directory succeeds and every listed file
    is processed without error. *)
Theorem mergeCsvFiles_success_iff (env : Env) (inputDir : string)
    (columnConfig : ColumnConfig) (st : State) :
  ((exists res st', mergeCsvFiles env inputDir columnConfig st = (Returned res, st')) <->
   run_failure env inputDir = None \/ run_failure env inputDir = Some Caught) /\
  (forall res st',
     mergeCsvFiles env inputDir columnConfig st = (Returned res, st') ->
     (success res = true <->
      exists files, getCsvFiles env inputDir = inr files /\
                    Forall (fun f => file_ok env f = true) files)).
Proof.
  destruct (run_failure env inputDir) as [k|] eqn:Hk.
  - destruct (mergeCsvFiles_failure_run env inputDir columnConfig st k Hk)
      as (o & st' & Hrun & _ & _ & Hshape).
    rewrite Hrun. split.
    + destruct k as [|message|].
      * destruct Hshape as (res & -> & _). split; [auto|eauto].
      * subst o. split; [intros (res & st1 & [=])|intros [[=]|[=]]].
      * subst o. split; [intros (res & st1 & [=])|intros [[=]|[=]]].
    + intros res st1 Heq. rewrite <- run_failure_None, Hk.
      destruct k as [|message|]; [|subst o; discriminate..].
      destruct Hshape as (res' & -> & Hs). injection Heq as <- <-. rewrite Hs.
      split; discriminate.
  - pose proof (proj1 (run_failure_None env inputDir) Hk) as (files & Hfiles & Hok).
    destruct (mergeCsvFiles_ok_run env inputDir columnConfig st files Hfiles Hok)
      as (res & st' & Hrun & _ & _ & _ & Hs & _).
    rewrite Hrun. split; [split; [auto|eauto]|].
    intros res' st1 [= <- <-]. split; [eauto|intros _; exact Hs].
Qed.

(** X14: when the run stops at a file that throws, the result keeps what
    the files before it contributed (their records, counted, and their
    warnings), then the warning of the failing file if its headers had been
    read, and last the message of the failure, which names the file and the
    cause and is recorded once; no later file is touched. *)
Theorem mergeCsvFiles_stops_at_first_failure (env : Env) (inputDir : string)
    (columnConfig : ColumnConfig) (st : State) (files pre : list string)
    (f cause : string) :
  getCsvFiles env inputDir = inr files ->
  first_failure env files = Some (pre, f, Rejected cause) ->
  exists res st',
    mergeCsvFiles env inputDir columnConfig st = (Returned res, st') /\
    success res = false /\
    totalFiles res = length files /\
    records res = concat (map (file_records env columnConfig) pre) /\
    totalRecords res = length (records res) /\
    errors res =
      concat (map (fun f => header_warnings columnConfig f (file_headers env f)) pre) ++
      warnings_before_failure env columnConfig f ++
      ["Error processing file " +:+ path.basename f +:+ ": " +:+ cause] /\
    (exists post, files = pre ++ f :: post) /\
    Forall (fun g => file_ok env g = true) pre /\
    file_outcome env f = Rejected cause.
Proof.
  intros Hfiles Hff.
  destruct (mergeCsvFiles_fail_run env inputDir columnConfig st files pre f _
              Hfiles Hff) as (st' & Hrun & Hres & _).
  apply first_failure_Some in Hff as (Hpost & Hpre & Hf & _).
  exists (result st'), st'. split; [exact Hrun|]. rewrite Hres.
  unfold file_step. rewrite Hf.
  pose proof (merge_step_counts env columnConfig pre
                (set_totalFiles (length files) initial_result) eq_refl) as Hcount.
  destruct (foldl_merge_step env columnConfig pre
              (set_totalFiles (length files) initial_result))
    as (Hs & Ht & He & Hr & _).
  unfold counts_agree in Hcount.
  cbn [success totalFiles records totalRecords errors failure_step push_errors].
  rewrite Hs, Ht, Hr, He, Hcount, Hr.
  cbn [success totalFiles records errors set_totalFiles initial_result app].
  repeat split; assumption.
Qed.

Lemma mergeCsvFiles_stops_at_first_failure_witness :
  getCsvFiles one_unknown_prefix "inputs"
    = inr ["inputs/ghec_orgA_data.csv"; "inputs/notes_2024.csv";
           "inputs/ghec_orgC_data.csv"] /\
  first_failure one_unknown_prefix
    ["inputs/ghec_orgA_data.csv"; "inputs/notes_2024.csv"; "inputs/ghec_orgC_data.csv"]
  = Some (["inputs/ghec_orgA_data.csv"], "inputs/notes_2024.csv",
          Rejected "Unknown enterprise prefix: notes in file notes_2024.csv") /\
  exists res st',
    mergeCsvFiles one_unknown_prefix "inputs" two_columns initial_state
      = (Returned res, st') /\
    success res = false /\ totalFiles res = 3%nat /\
    records res
    = concat (map (file_records one_unknown_prefix two_columns)
                  ["inputs/ghec_orgA_data.csv"]).
Proof.
  assert (Hfiles : getCsvFiles one_unknown_prefix "inputs"
    = inr ["inputs/ghec_orgA_data.csv"; "inputs/notes_2024.csv";
           "inputs/ghec_orgC_data.csv"])
    by (vm_compute; reflexivity).
  assert (Hff : first_failure one_unknown_prefix
    ["inputs/ghec_orgA_data.csv"; "inputs/notes_2024.csv"; "inputs/ghec_orgC_data.csv"]
    = Some (["inputs/ghec_orgA_data.csv"], "inputs/notes_2024.csv",
            Rejected "Unknown enterprise prefix: notes in file notes_2024.csv"))
    by (vm_compute; reflexivity).
  split; [exact Hfiles|]. split; [exact Hff|].
  destruct (mergeCsvFiles_stops_at_first_failure one_unknown_prefix "inputs"
              two_columns initial_state _ _ _ _ Hfiles Hff)
    as (res & st' & Hrun & Hs & Ht & Hr & _).
  exists res, st'. split; [exact Hrun|]. split; [exact Hs|]. split; [exact Ht|exact Hr].
Defined.

(** The provenance field is an own field of every merged record. *)
Lemma transformRecord_has_Enterprise (enterprise : JsValue) (removeSet : gset string)
    (record : CsvRecord) :
  "Enterprise" ∈ JsObject.keys (transformRecord enterprise removeSet record).
Proof.
  unfold transformRecord, JsObject.spread, JsObject.entries.
  generalize (filterRecord record removeSet). intros o.
  assert (Hbase : "Enterprise" ∈ JsObject.keys [("Enterprise", enterprise)])
    by apply list_elem_of_here.
  revert Hbase. generalize [("Enterprise", enterprise)].
  induction o as [|[k v] o IH]; intros base Hbase; cbn [foldl]; [exact Hbase|].
  apply IH. apply keys_define_elem. auto.
Qed.

(** X21: in a run where every file is processed without error, the result
    holds the rows of the files in the order of the listing, each filtered
    and tagged; it counts the files and the rows; and every merged record
    has a field [Enterprise] of its own. *)
Theorem mergeCsvFiles_success_content (env : Env) (inputDir : string)
    (columnConfig : ColumnConfig) (st : State) (files : list string) :
  getCsvFiles env inputDir = inr files ->
  Forall (fun f => file_ok env f = true) files ->
  exists res st',
    mergeCsvFiles env inputDir columnConfig st = (Returned res, st') /\
    success res = true /\ totalFiles res = length files /\
    records res = concat (map (file_records env columnConfig) files) /\
    totalRecords res = length (records res) /\
    (forall record, record ∈ records res -> "Enterprise" ∈ JsObject.keys record).
Proof.
  intros Hfiles Hok.
  destruct (mergeCsvFiles_ok_run env inputDir columnConfig st files Hfiles Hok)
    as (res & st' & Hrun & _ & _ & _ & Hs & Ht & _ & Hr & Hn).
  exists res, st'. split; [exact Hrun|]. split; [exact Hs|]. split; [exact Ht|].
  split; [exact Hr|]. split; [exact Hn|].
  intros record Hin. rewrite Hr in Hin.
  apply list_elem_of_In, in_concat in Hin as (rs & Hrs & Hin).
  apply in_map_iff in Hrs as (f & <- & _). unfold file_records in Hin.
  destruct (extractEnterprise env (path.basename f)) as [|e]; [destruct Hin|].
  destruct (csv_rows env f) as [rows| | |]; try destruct Hin.
  apply in_map_iff in Hin as (row & <- & _). apply transformRecord_has_Enterprise.
Qed.

Lemma mergeCsvFiles_success_content_witness :
  getCsvFiles two_files "inputs"
    = inr ["inputs/ghec_orgA_data.csv"; "inputs/ghes_orgB_data.csv"] /\
  Forall (fun f => file_ok two_files f = true)
         ["inputs/ghec_orgA_data.csv"; "inputs/ghes_orgB_data.csv"] /\
  exists res st',
    mergeCsvFiles two_files "inputs" two_columns initial_state = (Returned res, st') /\
    success res = true /\ totalFiles res = 2%nat.
Proof.
  assert (Hfiles : getCsvFiles two_files "inputs"
                   = inr ["inputs/ghec_orgA_data.csv"; "inputs/ghes_orgB_data.csv"])
    by (vm_compute; reflexivity).
  assert (Hok : Forall (fun f => file_ok two_files f = true)
                       ["inputs/ghec_orgA_data.csv"; "inputs/ghes_orgB_data.csv"])
    by (repeat constructor; vm_compute; reflexivity).
  split; [exact Hfiles|]. split; [exact Hok|].
  destruct (mergeCsvFiles_success_content two_files "inputs" two_columns
              initial_state _ Hfiles Hok) as (res & st' & Hrun & Hs & Ht & _).
  exists res, st'. split; [exact Hrun|]. split; [exact Hs|exact Ht].
Defined.

(** X18: when the configuration loads and the merge fails by an exception
    (the files cannot be listed, or a file throws), [processCsvMerge] throws
    [Merge failed: ] followed by all the messages of the merge result joined
    with a comma (the warnings of the files read before included), logs it
    after [CSV merge failed: ] as the last line of the console, and writes
    no file. *)
Theorem processCsvMerge_merge_failure_message (env : Env)
    (inputDir outputDir outputFilename columnConfigPath : string)
    (columnConfig : ColumnConfig) (st : State) :
  existsSync env columnConfigPath = true ->
  json_config env columnConfigPath = inr columnConfig ->
  run_failure env inputDir = Some Caught ->
  exists res st1 st2 st',
    mergeCsvFiles env inputDir columnConfig st1 = (Returned res, st2) /\
    success res = false /\
    processCsvMerge env inputDir outputDir outputFilename columnConfigPath st
    = (Thrown ("Merge failed: " +:+ JsString.join ", " (errors res)), st') /\
    console st' = console st2 ++
      [(ERROR, "CSV merge failed: Merge failed: " +:+ JsString.join ", " (errors res))] /\
    written st' = written st /\ created st' = created st.
Proof.
  intros Hex Hjson Hk. rewrite processCsvMerge_unfold.
  unfold try_catch. unfold mbind at 1. unfold M_bind at 1.
  match goal with |- context [loadColumnConfig env columnConfigPath ?s] =>
    destruct (loadColumnConfig_ok_run env columnConfigPath columnConfig s Hex Hjson)
      as (st1 & Hl & Hw1 & Hc1 & _) end.
  rewrite Hl. cbn [written created] in Hw1, Hc1.
  destruct (mergeCsvFiles_failure_run env inputDir columnConfig st1 Caught Hk)
    as (mo & st2 & Hm & Hw2 & Hc2 & (res & -> & Hs)).
  unfold mbind at 1. unfold M_bind at 1. rewrite Hm, Hs. cbn [negb].
  unfold throw, mbind, M_bind, console_error, console_emit.
  exists res, st1, st2. eexists. split; [exact Hm|]. split; [exact Hs|].
  split; [reflexivity|]. cbn [console written created].
  split; [rewrite <- append_assoc; reflexivity|]. split; congruence.
Qed.

Lemma processCsvMerge_merge_failure_message_witness :
  existsSync one_unknown_prefix "column-config.json" = true /\
  json_config one_unknown_prefix "column-config.json" = inr two_columns /\
  run_failure one_unknown_prefix "inputs" = Some Caught /\
  exists res st',
    processCsvMerge one_unknown_prefix "inputs" "output" "merged_data"
                    "column-config.json" initial_state
    = (Thrown ("Merge failed: " +:+ JsString.join ", " (errors res)), st') /\
    written st' = [].
Proof.
  assert (Hex : existsSync one_unknown_prefix "column-config.json" = true)
    by (vm_compute; reflexivity).
  assert (Hjson : json_config one_unknown_prefix "column-config.json" = inr two_columns)
    by reflexivity.
  assert (Hk : run_failure one_unknown_prefix "inputs" = Some Caught)
    by (vm_compute; reflexivity).
  split; [exact Hex|]. split; [exact Hjson|]. split; [exact Hk|].
  destruct (processCsvMerge_merge_failure_message one_unknown_prefix "inputs"
              "output" "merged_data" "column-config.json" two_columns initial_state
              Hex Hjson Hk) as (res & st1 & st2 & st' & _ & _ & Hrun & _ & Hw & _).
  exists res, st'. split; [exact Hrun|exact Hw].
Defined.

(** ** The orchestrator *)

Create HintDb completes discriminated.

Lemma completes_ret {A} (a : A) : completes (mret a).
Proof. intros st. exists a, st. auto. Qed.

Lemma completes_bind {A B} (m : M A) (f : A -> M B) :
  completes m -> (forall a, completes (f a)) -> completes (m ≫= f).
Proof.
  intros Hm Hf st. destruct (Hm st) as (a & st1 & Hrun & Hw & Hc & Hr).
  destruct (Hf a st1) as (b & st2 & Hrun2 & Hw2 & Hc2 & Hr2).
  exists b, st2. unfold mbind, M_bind. rewrite Hrun.
  split; [exact Hrun2|]. split; [congruence|]. split; congruence.
Qed.

Lemma completes_console_emit (lvl : Level) (msg : string) :
  completes (console_emit lvl msg).
Proof. intros st. eexists _, _. split; [reflexivity|]. auto. Qed.

Lemma completes_if {A} (b : bool) (m1 m2 : M A) :
  completes m1 -> completes m2 -> completes (if b then m1 else m2).
Proof. destruct b; auto. Qed.

#[local] Hint Resolve completes_ret completes_console_emit completes_if : completes.
#[local] Hint Extern 2 (completes (_ ≫= _)) =>
  apply completes_bind; [|intros ?] : completes.
#[local] Hint Extern 1 (completes (console_log _)) =>
  apply completes_console_emit : completes.
#[local] Hint Extern 3 (completes (match ?x with _ => _ end)) =>
  destruct x : completes.

Lemma completes_displayDuplicates (duplicates : list DuplicateValue) (index : nat) :
  completes (displayDuplicates duplicates index).
Proof.
  revert index. induction duplicates as [|d duplicates IH]; intros index;
    cbn [displayDuplicates].
  - apply completes_ret.
  - apply completes_bind; [apply completes_console_emit|intros _; apply IH].
Qed.

#[local] Hint Resolve completes_displayDuplicates : completes.

Lemma completes_displayDuplicateResults_loop
    (duplicateResults : list DuplicateCheckResult) (total : nat) :
  completes (displayDuplicateResults_loop duplicateResults total).
Proof.
  revert total. induction duplicateResults as [|res rest IH]; intros total;
    cbn [displayDuplicateResults_loop]; auto 10 with completes.
Qed.

#[local] Hint Resolve completes_displayDuplicateResults_loop : completes.

Lemma completes_displayDuplicateResults (duplicateResults : list DuplicateCheckResult) :
  completes (displayDuplicateResults duplicateResults).
Proof. unfold displayDuplicateResults. auto 10 with completes. Qed.

Lemma completes_processCsvMerge_summary (columnConfig : ColumnConfig)
    (res : ProcessingResult) (outputPath : string) (header warnings : list string) :
  completes (processCsvMerge_summary columnConfig res outputPath header warnings).
Proof. unfold processCsvMerge_summary. auto 20 with completes. Qed.

(** ** writeCsvFile *)

Lemma writeCsvFile_run (env : Env) (records : list MergedRecord)
    (outputPath : string) (columns : list string) (st : State) :
  writeCsvFile env records outputPath columns st =
    match write_failure env outputPath with
    | None =>
        (Returned tt,
         {| console := console st ++
              [(LOG, "Successfully wrote " +:+ pretty (length records) +:+
                     " records to " +:+ outputPath)];
            created := created st ++ directory_created env outputPath;
            written := written st ++
              [{| out_path := outputPath; out_header := columns;
                  out_records := records |}];
            result := result st |})
    | Some message =>
        (Thrown ("Error writing CSV file " +:+ outputPath +:+ ": " +:+ message),
         {| console := console st;
            created := created st ++ directory_created env outputPath;
            written := written st; result := result st |})
    end.
Proof.
  unfold writeCsvFile, write_failure, directory_created, try_catch,
    ensureDirectoryExists, csvWriter_writeRecords.
  unfold mbind, M_bind, mret, M_ret, throw, console_log, console_emit.
  destruct (existsSync env (directory_of outputPath)); cbn [negb].
  - destruct (writeRecords env outputPath) as [message|];
      cbn [console created written result]; rewrite app_nil_r;
      [destruct st|]; reflexivity.
  - destruct (mkdirSync env (directory_of outputPath)) as [message|].
    + rewrite app_nil_r. destruct st; reflexivity.
    + destruct (writeRecords env outputPath) as [message|];
        cbn [console created written result]; reflexivity.
Qed.

(** ** The duplicate checks of a run *)

(** The checks return when the checked columns that are found hold strings,
    and throw otherwise; they touch the console only. *)
Lemma processCsvMerge_duplicates_run (columnConfig : ColumnConfig)
    (orderedRecords : list MergedRecord) (st : State) :
  exists o st',
    processCsvMerge_duplicates columnConfig orderedRecords st = (o, st') /\
    written st' = written st /\ created st' = created st /\
    result st' = result st /\
    (((forall c, c ∈ or_nil (duplicateCheckColumns columnConfig) ->
                 columnExists orderedRecords c = true ->
                 text_cells c orderedRecords) /\
      o = Returned tt) \/
     ((exists c, c ∈ or_nil (duplicateCheckColumns columnConfig) /\
                 columnExists orderedRecords c = true /\
                 ~ text_cells c orderedRecords) /\
      o = Thrown trim_not_a_function)).
Proof.
  unfold processCsvMerge_duplicates.
  destruct (duplicateCheckColumns columnConfig) as [cols|]; cbn [or_nil].
  2:{ exists (Returned tt), st. split; [reflexivity|]. repeat split; try reflexivity.
      left. split; [|reflexivity]. intros c Hc. apply elem_of_nil in Hc as []. }
  destruct cols as [|c0 cols]; cbn [length Nat.ltb Nat.leb].
  { exists (Returned tt), st. split; [reflexivity|]. repeat split; try reflexivity.
    left. split; [|reflexivity]. intros c Hc. apply elem_of_nil in Hc as []. }
  unfold mbind, M_bind, checkForDuplicates.
  pose proof (checkForDuplicates_loop_frame orderedRecords (c0 :: cols) [] st)
    as (Hc & Hw & Hr).
  destruct (checkForDuplicates_loop_outcome orderedRecords (c0 :: cols) [] st)
    as [[Hall (results & st1 & Hrun)]|[Hbad (st1 & Hrun)]];
    rewrite Hrun in Hc, Hw, Hr |- *; cbn [snd] in Hc, Hw, Hr.
  - destruct (completes_displayDuplicateResults results st1)
      as ([] & st2 & Hrun2 & Hw2 & Hc2 & Hr2).
    exists (Returned tt), st2. split; [exact Hrun2|].
    split; [congruence|]. split; [congruence|]. split; [congruence|]. auto.
  - exists (Thrown trim_not_a_function), st1. split; [reflexivity|]. auto 10.
Qed.

(** ** The output of a run *)

Lemma no_actual_errors (messages : list string) :
  all_warnings messages ->
  List.filter (fun error => negb (JsString.includes warning_sign error)) messages = [].
Proof.
  unfold all_warnings. induction 1 as [|m messages Hm _ IH]; [reflexivity|].
  cbn [List.filter]. rewrite Hm. exact IH.
Qed.

Lemma header_warnings_all_marked (env : Env) (columnConfig : ColumnConfig)
    (files : list string) :
  all_warnings
    (concat (map (fun f => header_warnings columnConfig f (file_headers env f)) files)).
Proof.
  unfold all_warnings. induction files as [|f files IH]; [constructor|].
  cbn [map concat]. apply Forall_app. split; [|exact IH].
  unfold header_warnings. case_decide; [constructor|].
  constructor; [apply unexpected_warning_marked|constructor].
Qed.

(** What [processCsvMerge] does with a result whose messages are all
    warnings: the file is written, or the writer's failure is thrown; the
    duplicate checks come after the file, and may throw. *)
Lemma processCsvMerge_output_run (env : Env) (outputDir outputFilename : string)
    (columnConfig : ColumnConfig) (res : ProcessingResult) (st : State) :
  all_warnings (errors res) ->
  exists o st',
    processCsvMerge_output env outputDir outputFilename columnConfig res st
    = (o, st') /\
    result st' = result st /\
    created st' = created st ++
                  directory_created env (output_path env outputDir outputFilename) /\
    match write_failure env (output_path env outputDir outputFilename) with
    | Some message =>
        o = Thrown ("Error writing CSV file " +:+
                    output_path env outputDir outputFilename +:+ ": " +:+ message) /\
        written st' = written st /\ console st' = console st
    | None =>
        written st' = written st ++
          [output_file env outputDir outputFilename columnConfig (records res)] /\
        (((forall c, c ∈ or_nil (duplicateCheckColumns columnConfig) ->
                     columnExists (orderRecords (records res) columnConfig) c = true ->
                     text_cells c (orderRecords (records res) columnConfig)) /\
          o = Returned tt) \/
         ((exists c, c ∈ or_nil (duplicateCheckColumns columnConfig) /\
                     columnExists (orderRecords (records res) columnConfig) c = true /\
                     ~ text_cells c (orderRecords (records res) columnConfig)) /\
          o = Thrown trim_not_a_function))
    end.
Proof.
  intros Hwarn. unfold processCsvMerge_output, output_file.
  rewrite (no_actual_errors _ Hwarn). cbn [length Nat.ltb Nat.leb]. cbn zeta.
  fold (output_path env outputDir outputFilename).
  unfold mbind at 1. unfold M_bind at 1. rewrite writeCsvFile_run.
  destruct (write_failure env (output_path env outputDir outputFilename))
    as [message|].
  { eexists _, _. split; [reflexivity|]. cbn [result created written console]. auto. }
  unfold mbind at 1. unfold M_bind at 1.
  match goal with |- context [processCsvMerge_duplicates _ _ ?s] =>
    destruct (processCsvMerge_duplicates_run columnConfig
                (orderRecords (records res) columnConfig) s)
      as (o & st1 & Hrun & Hw & Hc & Hr & Hshape) end.
  rewrite Hrun. cbn [written created result] in Hw, Hc, Hr.
  destruct Hshape as [[Hall ->]|[Hbad ->]].
  - match goal with |- context [processCsvMerge_summary ?a ?b ?c ?d ?e] =>
      destruct (completes_processCsvMerge_summary a b c d e st1)
        as ([] & st2 & Hrun2 & Hw2 & Hc2 & Hr2) end.
    exists (Returned tt), st2. split; [exact Hrun2|].
    split; [congruence|]. split; [congruence|]. split; [congruence|]. auto.
  - exists (Thrown trim_not_a_function), st1. split; [reflexivity|].
    split; [congruence|]. split; [congruence|]. split; [congruence|]. auto.
Qed.

(** [processCsvMerge] in a run where the configuration loads and every file
    is processed without error. *)
Lemma processCsvMerge_ok_run (env : Env)
    (inputDir outputDir outputFilename columnConfigPath : string)
    (columnConfig : ColumnConfig) (st : State) (files : list string) :
  existsSync env columnConfigPath = true ->
  json_config env columnConfigPath = inr columnConfig ->
  getCsvFiles env inputDir = inr files ->
  Forall (fun f => file_ok env f = true) files ->
  exists res st1 st2 o st3,
    mergeCsvFiles env inputDir columnConfig st1 = (Returned res, st2) /\
    written st2 = written st /\ created st2 = created st /\
    success res = true /\
    records res = concat (map (file_records env columnConfig) files) /\
    errors res =
      concat (map (fun f => header_warnings columnConfig f (file_headers env f)) files) /\
    processCsvMerge_output env outputDir outputFilename columnConfig res st2
    = (o, st3) /\
    processCsvMerge env inputDir outputDir outputFilename columnConfigPath st
    = match o with
      | Thrown e =>
          (Thrown e,
           {| console := console st3 ++ [(ERROR, "CSV merge failed: " +:+ e)];
              created := created st3; written := written st3;
              result := result st3 |})
      | _ => (o, st3)
      end.
Proof.
  intros Hex Hjson Hfiles Hok. rewrite processCsvMerge_unfold.
  unfold try_catch. unfold mbind at 1. unfold M_bind at 1.
  match goal with |- context [loadColumnConfig env columnConfigPath ?s] =>
    destruct (loadColumnConfig_ok_run env columnConfigPath columnConfig s Hex Hjson)
      as (st1 & Hl & Hw1 & Hc1 & _) end.
  rewrite Hl. cbn [written created] in Hw1, Hc1.
  destruct (mergeCsvFiles_ok_run env inputDir columnConfig st1 files Hfiles Hok)
    as (res & st2 & Hm & _ & Hw2 & Hc2 & Hs & _ & He & Hr & _).
  unfold mbind at 1. unfold M_bind at 1. rewrite Hm, Hs. cbn [negb].
  destruct (processCsvMerge_output env outputDir outputFilename columnConfig res st2)
    as [o st3] eqn:Hout.
  exists res, st1, st2, o, st3. split; [exact Hm|].
  split; [congruence|]. split; [congruence|]. split; [exact Hs|].
  split; [exact Hr|]. split; [exact He|]. split; [exact Hout|].
  destruct o; reflexivity.
Qed.

(** X15: when the configuration loads, every [.csv] file is processed
    without error and neither the creation of the output directory nor the
    writer fails, [processCsvMerge] writes exactly one file: its path is the
    output directory joined with name, timestamp and extension, its header
    is [Enterprise] followed by the configured columns, its rows are the
    ordered merged records of the files in the order of the listing; the
    directory is created when it does not exist.  The duplicate checks run
    after the file is written: the run returns when the checked columns
    that are found hold strings, and throws the [TypeError] of
    [value.trim()], with the file written, otherwise. *)
Theorem processCsvMerge_writes_one_file (env : Env)
    (inputDir outputDir outputFilename columnConfigPath : string)
    (columnConfig : ColumnConfig) (st : State) (files : list string) :
  existsSync env columnConfigPath = true ->
  json_config env columnConfigPath = inr columnConfig ->
  getCsvFiles env inputDir = inr files ->
  Forall (fun f => file_ok env f = true) files ->
  write_failure env (output_path env outputDir outputFilename) = None ->
  exists o st',
    processCsvMerge env inputDir outputDir outputFilename columnConfigPath st
    = (o, st') /\
    written st' = written st ++
      [{| out_path := output_path env outputDir outputFilename;
          out_header := "Enterprise" :: columns columnConfig;
          out_records :=
            orderRecords (concat (map (file_records env columnConfig) files))
                         columnConfig |}] /\
    created st' = created st ++
                  directory_created env (output_path env outputDir outputFilename) /\
    (((forall c, c ∈ or_nil (duplicateCheckColumns columnConfig) ->
         columnExists
           (orderRecords (concat (map (file_records env columnConfig) files))
                         columnConfig) c = true ->
         text_cells c
           (orderRecords (concat (map (file_records env columnConfig) files))
                         columnConfig)) /\
      o = Returned tt) \/
     ((exists c, c ∈ or_nil (duplicateCheckColumns columnConfig) /\
         columnExists
           (orderRecords (concat (map (file_records env columnConfig) files))
                         columnConfig) c = true /\
         ~ text_cells c
             (orderRecords (concat (map (file_records env columnConfig) files))
                           columnConfig)) /\
      o = Thrown trim_not_a_function)).
Proof.
  intros Hex Hjson Hfiles Hok Hwrite.
  destruct (processCsvMerge_ok_run env inputDir outputDir outputFilename
              columnConfigPath columnConfig st files Hex Hjson Hfiles Hok)
    as (res & st1 & st2 & o & st3 & _ & Hw2 & Hc2 & _ & Hr & He & Hout & Hrun).
  assert (Hwarn : all_warnings (errors res))
    by (rewrite He; apply header_warnings_all_marked).
  destruct (processCsvMerge_output_run env outputDir outputFilename columnConfig res
              st2 Hwarn) as (o' & st3' & Hout' & _ & Hc3 & Hshape).
  rewrite Hout in Hout'. injection Hout' as <- <-.
  rewrite Hwrite in Hshape. destruct Hshape as (Hw3 & Hshape).
  rewrite Hr in Hw3, Hshape. unfold output_file in Hw3.
  destruct Hshape as [[Hall ->]|[Hbad ->]]; rewrite Hrun.
  - eexists _, _. split; [reflexivity|].
    split; [rewrite Hw3, Hw2; reflexivity|]. split; [congruence|]. auto.
  - eexists _, _. split; [reflexivity|]. cbn [written created].
    split; [rewrite Hw3, Hw2; reflexivity|]. split; [congruence|]. auto.
Qed.

Lemma processCsvMerge_writes_one_file_witness :
  existsSync two_files "column-config.json" = true /\
  json_config two_files "column-config.json" = inr two_columns /\
  getCsvFiles two_files "inputs"
    = inr ["inputs/ghec_orgA_data.csv"; "inputs/ghes_orgB_data.csv"] /\
  Forall (fun f => file_ok two_files f = true)
         ["inputs/ghec_orgA_data.csv"; "inputs/ghes_orgB_data.csv"] /\
  write_failure two_files (output_path two_files "output" "merged_data") = None /\
  exists o st',
    processCsvMerge two_files "inputs" "output" "merged_data" "column-config.json"
                    initial_state = (o, st') /\
    written st' =
      [{| out_path := "output/merged_data_20250709_143045.csv";
          out_header := ["Enterprise"; "Org_Name"; "Repo_Name"];
          out_records :=
            [[("Enterprise", Str "GHEC"); ("Org_Name", Str "orgA");
              ("Repo_Name", Str "alpha")];
             [("Enterprise", Str "GHES"); ("Org_Name", Str "orgB");
              ("Repo_Name", Str "beta")]] |}] /\
    created st' = ["output"].
Proof.
  assert (Hex : existsSync two_files "column-config.json" = true)
    by (vm_compute; reflexivity).
  assert (Hjson : json_config two_files "column-config.json" = inr two_columns)
    by reflexivity.
  assert (Hfiles : getCsvFiles two_files "inputs"
                   = inr ["inputs/ghec_orgA_data.csv"; "inputs/ghes_orgB_data.csv"])
    by (vm_compute; reflexivity).
  assert (Hok : Forall (fun f => file_ok two_files f = true)
                       ["inputs/ghec_orgA_data.csv"; "inputs/ghes_orgB_data.csv"])
    by (repeat constructor; vm_compute; reflexivity).
  assert (Hwrite : write_failure two_files (output_path two_files "output" "merged_data")
                   = None) by (vm_compute; reflexivity).
  split; [exact Hex|]. split; [exact Hjson|]. split; [exact Hfiles|].
  split; [exact Hok|]. split; [exact Hwrite|].
  destruct (processCsvMerge_writes_one_file two_files "inputs" "output" "merged_data"
              "column-config.json" two_columns initial_state _ Hex Hjson Hfiles Hok
              Hwrite) as (o & st' & Hrun & Hw & Hc & _).
  exists o, st'. split; [exact Hrun|]. split.
  - rewrite Hw. vm_compute. reflexivity.
  - rewrite Hc. vm_compute. reflexivity.
Defined.



(** ** Runs without files *)

(** X13: when the input directory does not exist, or is listed and holds no
    [.csv] file, [mergeCsvFiles] returns [success = false] with no record,
    [totalFiles = 0], [totalRecords = 0] and exactly one message, the error
    of [getCsvFiles]. *)
Theorem mergeCsvFiles_without_files (env : Env) (inputDir : string)
    (columnConfig : ColumnConfig) (st : State) :
  existsSync env inputDir = false \/
  (exists entries, readdirSync env inputDir = inr entries /\
                   List.filter (is_csv_name env) entries = []) ->
  exists msg st',
    mergeCsvFiles env inputDir columnConfig st
    = (Returned {| success := false; records := []; totalFiles := 0;
                   totalRecords := 0; errors := [msg] |}, st') /\
    getCsvFiles env inputDir = inl msg /\
    (msg = "Input directory does not exist: " +:+ inputDir \/
     msg = "No CSV files found in directory: " +:+ inputDir).
Proof.
  intros Hcase.
  assert (Hmsg : exists msg, getCsvFiles env inputDir = inl msg /\
    (msg = "Input directory does not exist: " +:+ inputDir \/
     msg = "No CSV files found in directory: " +:+ inputDir)).
  { unfold getCsvFiles. destruct (existsSync env inputDir); cbn [negb]; [|eauto].
    destruct Hcase as [[=]|(entries & -> & Hnil)]. unfold is_csv_name in Hnil.
    rewrite Hnil. cbn. eauto. }
  destruct Hmsg as (msg & Hfiles & Hform).
  rewrite (mergeCsvFiles_no_files_run env inputDir columnConfig st msg Hfiles).
  eexists _, _. split; [reflexivity|]. auto.
Qed.

Lemma mergeCsvFiles_without_files_witness :
  (exists entries, readdirSync no_csv_file "inputs" = inr entries /\
                   List.filter (is_csv_name no_csv_file) entries = []) /\
  exists msg st',
    mergeCsvFiles no_csv_file "inputs" two_columns initial_state
    = (Returned {| success := false; records := []; totalFiles := 0;
                   totalRecords := 0; errors := [msg] |}, st').
Proof.
  assert (Hnil : exists entries, readdirSync no_csv_file "inputs" = inr entries /\
                                 List.filter (is_csv_name no_csv_file) entries = []).
  { exists ["notes.txt"]. split; vm_compute; reflexivity. }
  split; [exact Hnil|].
  destruct (mergeCsvFiles_without_files no_csv_file "inputs" two_columns initial_state
              (or_intror Hnil)) as (msg & st' & Hrun & _).
  exists msg, st'. exact Hrun.
Defined.

(** ** Runs without configuration *)

(** X16: when the configuration file is missing or cannot be parsed,
    [processCsvMerge] throws the message of [loadColumnConfig], which names
    the cause, before any merge: no file is written and the [result] object
    is not touched. *)
Theorem processCsvMerge_config_failure (env : Env)
    (inputDir outputDir outputFilename columnConfigPath : string) (st : State) :
  existsSync env columnConfigPath = false \/
  (exists message, json_config env columnConfigPath = inl message) ->
  exists cause st',
    processCsvMerge env inputDir outputDir outputFilename columnConfigPath st
    = (Thrown ("Error loading column configuration: " +:+ cause), st') /\
    (cause = "Column configuration file does not exist: " +:+ columnConfigPath \/
     json_config env columnConfigPath = inl cause) /\
    written st' = written st /\ created st' = created st /\ result st' = result st.
Proof.
  intros Hcase. rewrite processCsvMerge_unfold.
  unfold try_catch. unfold mbind at 1. unfold M_bind at 1.
  match goal with |- context [loadColumnConfig env columnConfigPath ?s] =>
    destruct (loadColumnConfig_fail_run env columnConfigPath s Hcase)
      as (cause & -> & Hcause) end.
  unfold mbind, M_bind, console_error, console_emit, throw.
  eexists _, _. split; [reflexivity|]. split; [exact Hcause|].
  cbn [written created result]. auto.
Qed.

Lemma processCsvMerge_config_failure_witness :
  existsSync without_config "column-config.json" = false /\
  exists cause st',
    processCsvMerge without_config "inputs" "output" "merged_data"
                    "column-config.json" initial_state
    = (Thrown ("Error loading column configuration: " +:+ cause), st') /\
    written st' = [].
Proof.
  assert (Hex : existsSync without_config "column-config.json" = false)
    by (vm_compute; reflexivity).
  split; [exact Hex|].
  destruct (processCsvMerge_config_failure without_config "inputs" "output"
              "merged_data" "column-config.json" initial_state (or_introl Hex))
    as (cause & st' & Hrun & _ & Hw & _).
  exists cause, st'. split; [exact Hrun|exact Hw].
Defined.

(** ** filterRecord, composed *)

Lemma filterRecord_empty (record : CsvRecord) :
  JsObject.wf record -> filterRecord record ∅ = record.
Proof.
  intros Hwf. rewrite (filterRecord_filter _ _ Hwf). clear.
  induction record as [|[k v] record IH]; [reflexivity|].
  rewrite filter_cons_True by (cbn; apply not_elem_of_empty).
  f_equal. exact IH.
Qed.

(** X2: on a row as the parser builds it, filtering with the empty set
    changes nothing, filtering twice is filtering with the union of the two
    sets, and filtering is idempotent. *)
Theorem filterRecord_compose (record : CsvRecord) (a b : gset string) :
  JsObject.wf record ->
  filterRecord record ∅ = record /\
  filterRecord (filterRecord record a) b = filterRecord record (a ∪ b) /\
  filterRecord (filterRecord record a) a = filterRecord record a.
Proof.
  intros Hwf.
  assert (Hcomp : forall c d : gset string,
            filterRecord (filterRecord record c) d = filterRecord record (c ∪ d)).
  { intros c d.
    rewrite (filterRecord_filter (filterRecord record c) d (filterRecord_wf _ _ Hwf)).
    rewrite !(filterRecord_filter record _ Hwf).
    rewrite list_filter_filter. apply list_filter_iff. intros [k v]. cbn.
    rewrite not_elem_of_union. tauto. }
  split; [|split].
  - apply filterRecord_empty, Hwf.
  - apply Hcomp.
  - rewrite Hcomp. f_equal. apply union_idemp_L.
Qed.

Lemma filterRecord_compose_witness :
  JsObject.wf [("Org_Name", Str "acme"); ("Full_URL", Str "u"); ("Created", Str "c")] /\
  filterRecord (filterRecord [("Org_Name", Str "acme"); ("Full_URL", Str "u");
                              ("Created", Str "c")]
                             (new_Set ["Full_URL"])) (new_Set ["Created"])
  = filterRecord [("Org_Name", Str "acme"); ("Full_URL", Str "u"); ("Created", Str "c")]
                 (new_Set ["Full_URL"] ∪ new_Set ["Created"]).
Proof.
  assert (Hwf : JsObject.wf [("Org_Name", Str "acme"); ("Full_URL", Str "u");
                             ("Created", Str "c")]).
  { split; [apply (bool_decide_unpack _); vm_compute; exact I|].
    split; [|apply (bool_decide_unpack _); vm_compute; exact I].
    repeat constructor. }
  split; [exact Hwf|].
  exact (proj1 (proj2 (filterRecord_compose
    [("Org_Name", Str "acme"); ("Full_URL", Str "u"); ("Created", Str "c")]
    (new_Set ["Full_URL"]) (new_Set ["Created"]) Hwf))).
Defined.

(** ** generateTimestamp *)







(** ** The two versions of the merge *)

(** X20: the current merge transforms a row as the first version of
    [mergeCsvFiles] transforms the filtered row; with no column to remove
    configured, the two versions give the same merged record for every row
    as the parser builds it. *)
Theorem transformRecord_extends_first_version
    (enterprise : JsValue) (columnConfig : ColumnConfig) (record : CsvRecord) :
  JsObject.wf record ->
  transformRecord enterprise (new_Set (or_nil (columnsToRemove columnConfig))) record
  = transformRecord_v1 enterprise
      (filterRecord record (new_Set (or_nil (columnsToRemove columnConfig)))) /\
  (or_nil (columnsToRemove columnConfig) = [] ->
   transformRecord enterprise (new_Set (or_nil (columnsToRemove columnConfig))) record
   = transformRecord_v1 enterprise record).
Proof.
  intros Hwf. split; [reflexivity|]. intros ->.
  unfold transformRecord, transformRecord_v1, new_Set. cbn [list_to_set foldr].
  rewrite (filterRecord_empty _ Hwf). reflexivity.
Qed.

Lemma transformRecord_extends_first_version_witness :
  JsObject.wf [("Org_Name", Str "acme"); ("Repo_Name", Str "r")] /\
  transformRecord (Str "GHES")
    (new_Set (or_nil (columnsToRemove
                        {| columns := ["Org_Name"]; columnsToRemove := None;
                           duplicateCheckColumns := None |})))
    [("Org_Name", Str "acme"); ("Repo_Name", Str "r")]
  = transformRecord_v1 (Str "GHES") [("Org_Name", Str "acme"); ("Repo_Name", Str "r")].
Proof.
  assert (Hwf : JsObject.wf [("Org_Name", Str "acme"); ("Repo_Name", Str "r")]).
  { split; [apply (bool_decide_unpack _); vm_compute; exact I|].
    split; [|apply (bool_decide_unpack _); vm_compute; exact I].
    repeat constructor. }
  split; [exact Hwf|].
  exact (proj2 (transformRecord_extends_first_version (Str "GHES")
                  {| columns := ["Org_Name"]; columnsToRemove := None;
                     duplicateCheckColumns := None |}
                  [("Org_Name", Str "acme"); ("Repo_Name", Str "r")] Hwf) eq_refl).
Defined.

(** ** extractEnterprise, every success *)

(** A value read from the table is a tag or an inherited member, and is
    truthy. *)
Lemma ENTERPRISE_MAPPING_get (enterprisePrefix : string) (tag : JsValue) :
  JsObject.get ENTERPRISE_MAPPING enterprisePrefix = Some tag ->
  JsValue.truthy tag = true /\
  ((enterprisePrefix ∈ JsObject.keys ENTERPRISE_MAPPING /\
    tag ∈ [Str "GHEC"; Str "GHEC-EMU"; Str "GHES"]) \/
   ((enterprisePrefix ∉ JsObject.keys ENTERPRISE_MAPPING) /\
    enterprisePrefix ∈ JsObject.prototype_names /\
    tag = Inherited enterprisePrefix)).
Proof.
  unfold JsObject.get.
  destruct (JsObject.own_property ENTERPRISE_MAPPING enterprisePrefix) as [t|] eqn:Hown.
  - intros [= <-]. split; [eapply ENTERPRISE_MAPPING_truthy, Hown|]. left.
    split; [eapply own_property_in_keys, Hown|].
    destruct (ENTERPRISE_MAPPING_own _ _ Hown) as [[_ ->]|[[_ ->]|[_ ->]]];
      apply (bool_decide_unpack _); vm_compute; exact I.
  - unfold JsObject.inherited. case_bool_decide as Hp; [|discriminate].
    intros [= <-]. split; [reflexivity|]. right.
    split; [apply own_property_None, Hown|]. auto.
Qed.

(** X1: [extractEnterprise] returns a value exactly when the base name is
    [pre_post] with no underscore in [pre] and the table, read at the
    lowercased [pre], yields that value; the value is one of the tags GHEC,
    GHEC-EMU and GHES when the lowercased [pre] is a key of the table, and
    otherwise the member of [Object.prototype] of that name. *)
Theorem extractEnterprise_succeeds_iff (env : Env) (filename : string)
    (tag : JsValue) :
  (extractEnterprise env filename = inr tag <->
   exists pre post,
     path.basename_ext filename ".csv" = pre +:+ "_" +:+ post /\
     JsString.lacks "_" pre /\
     JsObject.get ENTERPRISE_MAPPING (JsString.toLowerCase (unicode_lower env) pre)
     = Some tag) /\
  (extractEnterprise env filename = inr tag ->
   tag ∈ [Str "GHEC"; Str "GHEC-EMU"; Str "GHES"] \/
   exists name, name ∈ JsObject.prototype_names /\ tag = Inherited name).
Proof.
  assert (Hiff : extractEnterprise env filename = inr tag <->
    exists pre post,
     path.basename_ext filename ".csv" = pre +:+ "_" +:+ post /\
     JsString.lacks "_" pre /\
     JsObject.get ENTERPRISE_MAPPING (JsString.toLowerCase (unicode_lower env) pre)
     = Some tag).
  { split.
    - unfold extractEnterprise.
      destruct (JsString.indexOf "_" (path.basename_ext filename ".csv")) as [n|] eqn:Hidx;
        [|discriminate].
      apply indexOf_Some_split in Hidx as (pre & post & Hb & Hl & ->).
      rewrite Hb, substring0_app.
      destruct (JsObject.get ENTERPRISE_MAPPING
                  (JsString.toLowerCase (unicode_lower env) pre)) as [t|] eqn:Ht;
        [|discriminate].
      destruct (JsValue.truthy t); cbn [negb]; [|discriminate]. intros [= <-].
      exists pre, post. auto.
    - intros (pre & post & Hb & Hl & Ht).
      rewrite (extractEnterprise_prefix env filename pre post Hb Hl), Ht.
      rewrite (proj1 (ENTERPRISE_MAPPING_get _ _ Ht)). reflexivity. }
  split; [exact Hiff|].
  intros (pre & post & _ & _ & Ht)%Hiff.
  destruct (ENTERPRISE_MAPPING_get _ _ Ht) as (_ & [[_ Htag]|(_ & Hp & ->)]); eauto.
Qed.

(** ** The keys of merged and ordered records *)

Lemma define_wf (o : JsObject.t) (k : string) (v : JsValue) :
  JsObject.wf o -> k <> "__proto__" -> JsObject.wf (JsObject.define o k v).
Proof.
  intros (Hnd & Hs & Hp) Hk.
  split; [apply define_NoDup, Hnd|]. split; [apply define_sorted, Hs|].
  rewrite keys_define_elem. intros [?|?]; [congruence|contradiction].
Qed.

Lemma spread_wf (base o : JsObject.t) :
  JsObject.wf base -> "__proto__" ∉ JsObject.keys o ->
  JsObject.wf (JsObject.spread base o).
Proof.
  unfold JsObject.spread, JsObject.entries.
  revert base. induction o as [|[k v] o IH]; intros base Hwf Hp; cbn [foldl];
    [exact Hwf|].
  unfold JsObject.keys in Hp. rewrite fmap_cons in Hp. apply not_elem_of_cons in Hp as [Hk Hp]. cbn [fst] in Hk.
  apply IH; [|exact Hp]. apply define_wf; [exact Hwf|cbn [fst]; congruence].
Qed.

Lemma filter_ext_elem {A} (P1 P2 : A -> Prop)
    `{!forall x, Decision (P1 x)} `{!forall x, Decision (P2 x)} (l : list A) :
  (forall x, x ∈ l -> P1 x <-> P2 x) -> filter P1 l = filter P2 l.
Proof.
  induction l as [|a l IH]; intros Hext; [reflexivity|].
  assert (Htl : filter P1 l = filter P2 l).
  { apply IH. intros x Hx. apply Hext, list_elem_of_further, Hx. }
  destruct (decide (P1 a)) as [Ha|Ha].
  - rewrite !filter_cons_True; [f_equal; exact Htl| |exact Ha].
    apply Hext; [apply list_elem_of_here|exact Ha].
  - rewrite !filter_cons_False; [exact Htl| |exact Ha].
    intros Ha'. apply Ha, Hext; [apply list_elem_of_here|exact Ha'].
Qed.

Lemma keys_nil : JsObject.keys [] = [].
Proof. reflexivity. Qed.

Lemma keys_cons (k : string) (v : JsValue) (o : JsObject.t) :
  JsObject.keys ((k, v) :: o) = k :: JsObject.keys o.
Proof. reflexivity. Qed.

Lemma keys_snoc (k : string) (v : JsValue) (o : JsObject.t) :
  JsObject.keys (o ++ [(k, v)]) = JsObject.keys o ++ [k].
Proof. unfold JsObject.keys. rewrite fmap_app. reflexivity. Qed.

(** The keys of a spread: those of the base, and the new ones. *)
Lemma spread_keys_Permutation (base o : JsObject.t) :
  NoDup (JsObject.keys o) ->
  JsObject.keys (JsObject.spread base o)
  ≡ₚ JsObject.keys base ++ filter (fun k => k ∉ JsObject.keys base) (JsObject.keys o).
Proof.
  unfold JsObject.spread, JsObject.entries.
  revert base. induction o as [|[k v] o IH]; intros base Hnd; cbn [foldl fst snd].
  - rewrite keys_nil, filter_nil, app_nil_r. reflexivity.
  - rewrite keys_cons in Hnd |- *. apply NoDup_cons in Hnd as [Hk Hnd].
    rewrite (IH _ Hnd). clear IH.
    destruct (decide (k ∈ JsObject.keys base)) as [Hin|Hnin].
    + rewrite (filter_cons_False _ k) by tauto.
      rewrite keys_define_Permutation, decide_True by exact Hin.
      f_equiv.
      replace (filter (fun x => x ∉ JsObject.keys (JsObject.define base k v))
                      (JsObject.keys o))
        with (filter (fun x => x ∉ JsObject.keys base) (JsObject.keys o));
        [reflexivity|].
      apply list_filter_iff. intros x.
      rewrite keys_define_elem. split; [|tauto]. intros Hx [->|?]; contradiction.
    + rewrite (filter_cons_True _ k) by exact Hnin.
      rewrite keys_define_Permutation, decide_False by exact Hnin.
      rewrite <- Permutation_middle. cbn [app]. do 2 f_equiv.
      replace (filter (fun x => x ∉ JsObject.keys (JsObject.define base k v))
                      (JsObject.keys o))
        with (filter (fun x => x ∉ JsObject.keys base) (JsObject.keys o));
        [reflexivity|].
      apply filter_ext_elem. intros x Hx.
      rewrite keys_define_elem. split; [|tauto].
      intros Hxb [->|?]; contradiction.
Qed.

(** The keys of a spread whose new keys are not array indices: those of the
    base, then the new ones in their order. *)
Lemma spread_keys_plain (base o : JsObject.t) :
  NoDup (JsObject.keys o) ->
  Forall (fun k => JsObject.array_index k = None) (JsObject.keys o) ->
  JsObject.keys (JsObject.spread base o)
  = JsObject.keys base ++ filter (fun k => k ∉ JsObject.keys base) (JsObject.keys o).
Proof.
  unfold JsObject.spread, JsObject.entries.
  revert base. induction o as [|[k v] o IH]; intros base Hnd Hplain;
    cbn [foldl fst snd].
  - rewrite keys_nil, filter_nil, app_nil_r. reflexivity.
  - rewrite keys_cons in Hnd, Hplain |- *.
    apply NoDup_cons in Hnd as [Hk Hnd]. apply Forall_cons in Hplain as [Hidx Hplain].
    rewrite (IH _ Hnd Hplain). clear IH.
    unfold JsObject.define. destruct (JsObject.hasOwnProperty base k) eqn:Hown.
    + apply hasOwnProperty_true in Hown.
      rewrite (filter_cons_False _ k) by tauto. rewrite keys_replace. reflexivity.
    + apply hasOwnProperty_false in Hown. rewrite Hidx.
      rewrite (filter_cons_True _ k) by exact Hown.
      rewrite keys_snoc, <- app_assoc. cbn [app]. do 2 f_equal.
      apply filter_ext_elem. intros x Hx.
      rewrite elem_of_app, list_elem_of_singleton. split; [tauto|].
      intros Hxb [H | ->]; contradiction.
Qed.

(** X3: the merged record of a row as the parser builds it is an object
    whose keys are [Enterprise] and the source keys that are not removed,
    without repetition; when no source key is an array index the keys are
    [Enterprise] followed by the source keys that are neither removed nor
    [Enterprise], in their order (an array index such as 2024 comes before
    [Enterprise]); a removed column other than [Enterprise] is absent, and
    every other column keeps the source value. *)
Theorem transformRecord_keys
    (enterprise : JsValue) (removeSet : gset string) (record : CsvRecord) :
  JsObject.wf record ->
  JsObject.keys (transformRecord enterprise removeSet record)
  ≡ₚ "Enterprise" ::
     filter (fun k => k ∉ ["Enterprise"])
            (filter (fun k => k ∉ removeSet) (JsObject.keys record)) /\
  JsObject.wf (transformRecord enterprise removeSet record) /\
  (Forall (fun k => JsObject.array_index k = None) (JsObject.keys record) ->
   JsObject.keys (transformRecord enterprise removeSet record)
   = "Enterprise" ::
     filter (fun k => k ∉ ["Enterprise"])
            (filter (fun k => k ∉ removeSet) (JsObject.keys record))) /\
  (forall k, k ∈ removeSet -> k <> "Enterprise" ->
             JsObject.own_property (transformRecord enterprise removeSet record) k
             = None) /\
  (forall k, k ∉ removeSet -> k <> "Enterprise" ->
             JsObject.own_property (transformRecord enterprise removeSet record) k
             = JsObject.own_property record k).
Proof.
  intros Hwf. pose proof (filterRecord_wf record removeSet Hwf) as (Hnd' & Hs' & Hp').
  assert (Hkeys : JsObject.keys (filterRecord record removeSet)
                  = filter (fun k => k ∉ removeSet) (JsObject.keys record)).
  { rewrite (filterRecord_filter _ _ Hwf). apply keys_filter_excluded. }
  split; [|split; [|split; [|split]]].
  - unfold transformRecord. rewrite (spread_keys_Permutation _ _ Hnd'), Hkeys.
    reflexivity.
  - unfold transformRecord. apply spread_wf; [apply Enterprise_plain|exact Hp'].
  - intros Hplain. unfold transformRecord.
    rewrite (spread_keys_plain _ _ Hnd'), Hkeys; [reflexivity|].
    rewrite Hkeys. apply Forall_forall. intros k Hk.
    apply list_elem_of_filter in Hk as [_ Hk].
    rewrite Forall_forall in Hplain. apply Hplain, Hk.
  - intros k Hk Hne. rewrite (transformRecord_own _ _ _ _ Hwf).
    rewrite decide_True by exact Hk. rewrite decide_False by exact Hne. reflexivity.
  - intros k Hk Hne. rewrite (transformRecord_own _ _ _ _ Hwf).
    rewrite decide_False by exact Hk.
    destruct (JsObject.own_property record k); [reflexivity|].
    rewrite decide_False by exact Hne. reflexivity.
Qed.

Lemma transformRecord_keys_witness :
  JsObject.wf [("2024", Str "7"); ("Org_Name", Str "acme"); ("Full_URL", Str "u")] /\
  JsObject.keys (transformRecord (Str "GHEC") (new_Set ["Full_URL"])
                   [("2024", Str "7"); ("Org_Name", Str "acme"); ("Full_URL", Str "u")])
  = ["2024"; "Enterprise"; "Org_Name"] /\
  JsObject.wf (transformRecord (Str "GHEC") (new_Set ["Full_URL"])
                 [("2024", Str "7"); ("Org_Name", Str "acme"); ("Full_URL", Str "u")]).
Proof.
  assert (Hwf : JsObject.wf [("2024", Str "7"); ("Org_Name", Str "acme");
                             ("Full_URL", Str "u")]).
  { split; [apply (bool_decide_unpack _); vm_compute; exact I|].
    split; [|apply (bool_decide_unpack _); vm_compute; exact I].
    repeat constructor. }
  split; [exact Hwf|]. split; [vm_compute; reflexivity|].
  exact (proj1 (proj2 (transformRecord_keys (Str "GHEC") (new_Set ["Full_URL"])
           [("2024", Str "7"); ("Org_Name", Str "acme"); ("Full_URL", Str "u")] Hwf))).
Defined.

(** Assignments of plain keys keep the first key of an object. *)
Lemma assign_plain_head (g : string -> JsValue) (l : list string) (m : JsObject.t)
    (k0 : string) (v0 : JsValue) :
  Forall plain_column l ->
  exists v' m',
    foldl (fun acc c => JsObject.set acc c (g c)) ((k0, v0) :: m) l = (k0, v') :: m'.
Proof.
  revert m v0. induction l as [|c l IH]; intros m v0 Hplain; cbn [foldl]; [eauto|].
  apply Forall_cons in Hplain as [[Hidx Hcp] Hplain].
  assert (Hset : exists v' m', JsObject.set ((k0, v0) :: m) c (g c) = (k0, v') :: m').
  { unfold JsObject.set. rewrite bool_decide_eq_false_2 by exact Hcp. cbn [andb].
    unfold JsObject.define.
    destruct (JsObject.hasOwnProperty ((k0, v0) :: m) c).
    - cbn [JsObject.replace]. case_decide; eauto.
    - rewrite Hidx. cbn [app]. eauto. }
  destruct Hset as (v' & m' & ->). apply IH, Hplain.
Qed.

(** X4: for every configuration, also one with repeated columns or with a
    column named [Enterprise], an ordered record is an object whose keys
    are, without repetition, [Enterprise] and the configured columns other
    than [__proto__]; [Enterprise] is its first key when no column is an
    array index; it has one field per entry of the header row ([Enterprise]
    and the columns as listed) exactly when the columns are distinct and
    none is named [Enterprise] or [__proto__].  [orderRecords] returns as
    many records as it is given. *)
Theorem orderRecords_any_config
    (records : list MergedRecord) (columnConfig : ColumnConfig) :
  length (orderRecords records columnConfig) = length records /\
  forall record,
    JsObject.wf (orderRecord columnConfig record) /\
    (forall k, k ∈ JsObject.keys (orderRecord columnConfig record) <->
               k ∈ orderedColumns columnConfig /\ k <> "__proto__") /\
    (Forall plain_column (columns columnConfig) ->
     head (JsObject.keys (orderRecord columnConfig record)) = Some "Enterprise") /\
    (length (JsObject.keys (orderRecord columnConfig record))
       = length (orderedColumns columnConfig) <->
     NoDup (columns columnConfig) /\ ("Enterprise" ∉ columns columnConfig) /\
     ("__proto__" ∉ columns columnConfig)).
Proof.
  split; [unfold orderRecords; apply length_map|]. intros record.
  pose proof (orderRecord_wf columnConfig record) as Hwf.
  pose proof (orderRecord_keys_elem columnConfig record) as Hmem.
  split; [exact Hwf|]. split; [exact Hmem|]. split.
  - intros Hplain. unfold orderRecord, orderedColumns. cbn [foldl].
    assert (Hfirst : forall v, JsObject.set [("Enterprise", Str "")] "Enterprise" v
                               = [("Enterprise", v)]) by reflexivity.
    rewrite Hfirst.
    destruct (assign_plain_head
                (fun c => JsValue.or_empty (JsObject.get record c))
                (columns columnConfig) [] "Enterprise"
                (JsValue.or_empty (JsObject.get record "Enterprise")) Hplain)
      as (v' & m' & ->).
    reflexivity.
  - destruct Hwf as (Hnd & _ & Hp). split.
    + intros Hlen.
      assert (Hperm : JsObject.keys (orderRecord columnConfig record)
                      ≡ₚ orderedColumns columnConfig).
      { apply submseteq_length_Permutation; [|lia].
        apply NoDup_submseteq; [exact Hnd|]. intros x Hx. apply Hmem, Hx. }
      rewrite Hperm in Hnd, Hp. unfold orderedColumns in Hnd, Hp.
      apply NoDup_cons in Hnd as [? ?]. apply not_elem_of_cons in Hp as [_ ?]. auto.
    + intros (Hndc & Hent & Hproto).
      assert (Hperm : JsObject.keys (orderRecord columnConfig record)
                      ≡ₚ orderedColumns columnConfig).
      { apply NoDup_Permutation; [exact Hnd| |].
        - unfold orderedColumns. apply NoDup_cons. auto.
        - intros x. rewrite Hmem. split; [tauto|]. intros Hx. split; [exact Hx|].
          intros ->. unfold orderedColumns in Hx.
          apply elem_of_cons in Hx as [?|?]; [discriminate|contradiction]. }
      rewrite Hperm. reflexivity.
Qed.

(** X5: the cell that reaches the output file.  For a source row as the
    parser builds it, merged and then ordered, a configured column other
    than [Enterprise] whose name no object inherits holds the empty string
    when it is also listed for removal, and the source value (the empty
    string when the row lacks it) otherwise; the [Enterprise] cell holds the
    provenance tag when the row has no [Enterprise] column or that column is
    removed; and a configured column named like a member of
    [Object.prototype], absent from the row or removed, holds that member
    and not the empty string. *)
Theorem output_cell (columnConfig : ColumnConfig) (enterprise : JsValue)
    (removeSet : gset string) (record : CsvRecord) :
  JsObject.wf record ->
  (forall c, c ∈ columns columnConfig -> c <> "Enterprise" ->
     c ∉ JsObject.prototype_names ->
     JsObject.own_property
       (orderRecord columnConfig (transformRecord enterprise removeSet record)) c
     = Some (if decide (c ∈ removeSet) then Str "" else cell_value c record)) /\
  (JsObject.own_property record "Enterprise" = None \/ "Enterprise" ∈ removeSet ->
   JsValue.truthy enterprise = true ->
   JsObject.own_property
     (orderRecord columnConfig (transformRecord enterprise removeSet record))
     "Enterprise"
   = Some enterprise) /\
  (forall c, c ∈ columns columnConfig -> c ∈ JsObject.prototype_names ->
     c <> "__proto__" ->
     c ∈ removeSet \/ JsObject.own_property record c = None ->
     JsObject.own_property
       (orderRecord columnConfig (transformRecord enterprise removeSet record)) c
     = Some (Inherited c)).
Proof.
  intros Hwf. split; [|split].
  - intros c Hc Hne Hproto.
    assert (Hcp : c <> "__proto__").
    { intros ->. apply Hproto. apply (bool_decide_unpack _). vm_compute. exact I. }
    rewrite orderRecord_own.
    rewrite decide_True by (split; [apply list_elem_of_further, Hc|exact Hcp]).
    f_equal. unfold JsObject.get, cell_value, JsObject.get.
    rewrite (transformRecord_own _ _ _ _ Hwf).
    rewrite (proj2 (inherited_None c) Hproto).
    case_decide as Hrm.
    + rewrite decide_False by exact Hne. reflexivity.
    + destruct (JsObject.own_property record c) as [v|]; [reflexivity|].
      rewrite decide_False by exact Hne. reflexivity.
  - intros Hcase Htruthy. rewrite orderRecord_own.
    rewrite decide_True by (split; [apply list_elem_of_here|discriminate]).
    rewrite get_Enterprise, (transformRecord_own _ _ _ _ Hwf).
    assert (Hnone : (if decide ("Enterprise" ∈ removeSet) then None
                     else JsObject.own_property record "Enterprise") = None).
    { case_decide; [reflexivity|]. destruct Hcase; [assumption|contradiction]. }
    rewrite Hnone. rewrite decide_True by reflexivity.
    unfold JsValue.or_empty. rewrite Htruthy. reflexivity.
  - intros c Hc Hproto Hcp Hcase.
    assert (Hne : c <> "Enterprise").
    { intros ->. apply (bool_decide_pack _) in Hproto. vm_compute in Hproto.
      exact Hproto. }
    rewrite orderRecord_own.
    rewrite decide_True by (split; [apply list_elem_of_further, Hc|exact Hcp]).
    f_equal. unfold JsObject.get. rewrite (transformRecord_own _ _ _ _ Hwf).
    assert (Hnone : (if decide (c ∈ removeSet) then None
                     else JsObject.own_property record c) = None).
    { case_decide; [reflexivity|]. destruct Hcase; [contradiction|assumption]. }
    rewrite Hnone, decide_False by exact Hne.
    rewrite (inherited_Some c Hproto). reflexivity.
Qed.

Lemma output_cell_witness :
  JsObject.wf [("Org_Name", Str "acme"); ("Full_URL", Str "u")] /\
  JsObject.own_property [("Org_Name", Str "acme"); ("Full_URL", Str "u")] "Enterprise"
  = None /\
  JsValue.truthy (Str "GHEC") = true /\
  JsObject.own_property
    (orderRecord {| columns := ["Org_Name"; "Full_URL"];
                    columnsToRemove := Some ["Full_URL"];
                    duplicateCheckColumns := None |}
       (transformRecord (Str "GHEC") (new_Set ["Full_URL"])
          [("Org_Name", Str "acme"); ("Full_URL", Str "u")]))
    "Enterprise"
  = Some (Str "GHEC").
Proof.
  assert (Hwf : JsObject.wf [("Org_Name", Str "acme"); ("Full_URL", Str "u")]).
  { split; [apply (bool_decide_unpack _); vm_compute; exact I|].
    split; [|apply (bool_decide_unpack _); vm_compute; exact I].
    repeat constructor. }
  assert (Hnone : JsObject.own_property
                    [("Org_Name", Str "acme"); ("Full_URL", Str "u")] "Enterprise"
                  = None) by reflexivity.
  assert (Ht : JsValue.truthy (Str "GHEC") = true) by reflexivity.
  split; [exact Hwf|]. split; [exact Hnone|]. split; [exact Ht|].
  exact (proj1 (proj2 (output_cell {| columns := ["Org_Name"; "Full_URL"];
                                      columnsToRemove := Some ["Full_URL"];
                                      duplicateCheckColumns := None |}
                         (Str "GHEC") (new_Set ["Full_URL"])
                         [("Org_Name", Str "acme"); ("Full_URL", Str "u")] Hwf))
           (or_introl Hnone) Ht).
Defined.

(** ** Paths *)

Lemma rev_app_rev_app (s t u : string) :
  String.rev_app (String.rev_app s t) u = String.rev_app t (s +:+ u).
Proof.
  revert t u. induction s as [|a s IH]; intros t u; cbn [String.rev_app].
  - reflexivity.
  - rewrite IH. cbn [String.rev_app]. rewrite append_cons. reflexivity.
Qed.

Lemma rev_app_empty (s t : string) : String.rev_app s t = "" <-> s = "" /\ t = "".
Proof.
  revert t. induction s as [|a s IH]; intros t; cbn [String.rev_app]; [tauto|].
  rewrite IH. split; [intros [_ [=]]|intros [[=] _]].
Qed.

Lemma rev_rev_app (t : string) : String.rev (String.rev_app t "") = t.
Proof.
  unfold String.rev. rewrite rev_app_rev_app. cbn [String.rev_app].
  apply append_nil_r.
Qed.

Lemma rev_app_append (s t u : string) :
  String.rev_app (s +:+ t) u = String.rev_app t (String.rev_app s u).
Proof.
  revert u. induction s as [|a s IH]; intros u;
    rewrite ?append_nil_l, ?append_cons; cbn [String.rev_app]; [reflexivity|].
  apply IH.
Qed.

Lemma basename_go_lacks (cur last t : string) :
  JsString.lacks "/" t ->
  path.basename_go cur last t =
    if decide (String.rev_app t cur = "") then last
    else String.rev (String.rev_app t cur).
Proof.
  revert cur. induction t as [|a t IH]; intros cur Hl;
    cbn [path.basename_go String.rev_app].
  - unfold String.rev. case_decide; reflexivity.
  - destruct Hl as [Hne Hl]. apply Ascii.eqb_neq in Hne. rewrite Hne.
    apply IH, Hl.
Qed.

Lemma basename_go_slash (s cur last t : string) :
  exists last', path.basename_go cur last (s +:+ String "/" t)
                = path.basename_go "" last' t.
Proof.
  revert cur last. induction s as [|a s IH]; intros cur last;
    rewrite ?append_nil_l, ?append_cons; cbn [path.basename_go].
  - rewrite Ascii.eqb_refl. eauto.
  - destruct (Ascii.eqb a "/"); apply IH.
Qed.

(** The base name of a path that ends with a plain name is this name. *)
Lemma basename_plain (file : string) :
  file <> "" -> JsString.lacks "/" file -> path.basename file = file.
Proof.
  intros Hne Hl. unfold path.basename. rewrite (basename_go_lacks _ _ _ Hl).
  rewrite decide_False by (rewrite rev_app_empty; tauto). apply rev_rev_app.
Qed.

Lemma basename_slash (s file : string) :
  file <> "" -> JsString.lacks "/" file ->
  path.basename (s +:+ String "/" file) = file.
Proof.
  intros Hne Hl. unfold path.basename.
  destruct (basename_go_slash s "" "" file) as (last' & ->).
  rewrite (basename_go_lacks _ _ _ Hl).
  rewrite decide_False by (rewrite rev_app_empty; tauto). apply rev_rev_app.
Qed.

Lemma split_go_slash (cur s t : string) :
  path.split_go cur (s +:+ String "/" t) = path.split_go cur s ++ path.split_go "" t.
Proof.
  revert cur. induction s as [|a s IH]; intros cur;
    rewrite ?append_nil_l, ?append_cons; cbn [path.split_go].
  - rewrite Ascii.eqb_refl. reflexivity.
  - destruct (Ascii.eqb a "/"); rewrite IH; reflexivity.
Qed.

Lemma split_go_lacks (cur t : string) :
  JsString.lacks "/" t ->
  path.split_go cur t = [String.rev (String.rev_app t cur)].
Proof.
  revert cur. induction t as [|a t IH]; intros cur Hl;
    cbn [path.split_go String.rev_app]; [reflexivity|].
  destruct Hl as [Hne Hl]. apply Ascii.eqb_neq in Hne. rewrite Hne. apply IH, Hl.
Qed.

(** The components of a directory followed by a plain name. *)
Lemma segments_slash (dir file : string) :
  JsString.lacks "/" file ->
  path.segments (dir +:+ String "/" file) = path.segments dir ++ [file].
Proof.
  intros Hl. unfold path.segments. rewrite split_go_slash, (split_go_lacks _ _ Hl).
  rewrite rev_rev_app. reflexivity.
Qed.

Lemma join_snoc (l : list string) (x : string) :
  JsString.join "/" (l ++ [x]) =
    match l with
    | [] => x
    | _ => JsString.join "/" l +:+ String "/" x
    end.
Proof.
  induction l as [|a l IH]; [reflexivity|].
  cbn [app]. destruct l as [|b l].
  - reflexivity.
  - cbn [app] in IH |- *. cbn [JsString.join] in IH |- *.
    change (JsString.join "/" (b :: l ++ [x])) with
      (match l ++ [x] with [] => b | _ => b +:+ "/" +:+ JsString.join "/" (l ++ [x]) end)
      in IH |- *.
    destruct (l ++ [x]) as [|c l'] eqn:Hl; [destruct l; discriminate|].
    rewrite IH. destruct l as [|d l]; rewrite ?append_assoc; reflexivity.
Qed.

(** A string that ends with a plain, non-empty name does not end with a
    slash. *)
Lemma startsWith_slash_rev_app (t u : string) :
  t <> "" -> JsString.lacks "/" t ->
  JsString.startsWith "/" (String.rev_app t u) = false.
Proof.
  revert u. induction t as [|a t IH]; intros u Hne Hl; [congruence|].
  destruct Hl as [Ha Hl]. cbn [String.rev_app]. destruct t as [|b t].
  - cbn [String.rev_app JsString.startsWith].
    rewrite (proj2 (Ascii.eqb_neq "/" a)) by congruence. reflexivity.
  - apply IH; [discriminate|exact Hl].
Qed.

Lemma endsWith_slash_plain (s file : string) :
  file <> "" -> JsString.lacks "/" file ->
  JsString.endsWith "/" (s +:+ file) = false.
Proof.
  intros Hne Hl. unfold JsString.endsWith, String.rev. rewrite rev_app_append.
  apply startsWith_slash_rev_app; assumption.
Qed.

(** A plain name that is neither [.] nor [..] is kept by the
    normalization: it is the last component of the normalized path. *)
Lemma normalize_plain_last (file p : string) (segs : list string) :
  file <> "" -> file <> "." -> file <> ".." -> JsString.lacks "/" file ->
  p <> "" -> path.segments p = segs ++ [file] ->
  JsString.endsWith "/" p = false ->
  path.basename (path.normalize p) = file.
Proof.
  intros Hne Hdot Hdots Hl Hp Hsegs Htrail. unfold path.normalize.
  rewrite decide_False by exact Hp. rewrite Htrail. cbn zeta.
  unfold path.normalizeString. rewrite Hsegs, foldl_app. cbn [foldl].
  set (res0 := foldl _ [] segs).
  assert (Hstep : path.normalize_step (negb (JsString.startsWith "/" p)) res0 file
                  = file :: res0).
  { unfold path.normalize_step. rewrite !decide_False by assumption. reflexivity. }
  rewrite Hstep. cbn [rev]. rewrite join_snoc.
  destruct (rev res0) as [|y ys].
  - rewrite decide_False by exact Hne.
    destruct (JsString.startsWith "/" p).
    + change ("/" +:+ file) with ("" +:+ String "/" file).
      apply basename_slash; assumption.
    + apply basename_plain; assumption.
  - set (Y := JsString.join "/" (y :: ys)).
    assert (Hnz : Y +:+ String "/" file <> "").
    { destruct Y; [rewrite append_nil_l|rewrite append_cons]; discriminate. }
    rewrite decide_False by exact Hnz.
    destruct (JsString.startsWith "/" p).
    + change ("/" +:+ (Y +:+ String "/" file))
        with (String "/" (Y +:+ String "/" file)).
      rewrite <- append_cons. apply basename_slash; assumption.
    + apply basename_slash; assumption.
Qed.

(** The base name of a directory entry joined to its directory is the
    entry. *)
Lemma basename_join (dir file : string) :
  file <> "" -> file <> "." -> file <> ".." -> JsString.lacks "/" file ->
  path.basename (path.join dir file) = file.
Proof.
  intros Hne Hdot Hdots Hl. unfold path.join.
  rewrite (decide_False (P := file = "")) by exact Hne.
  destruct (decide (dir = "")) as [->|Hdir].
  - apply (normalize_plain_last file file [] Hne Hdot Hdots Hl); [exact Hne| |].
    + unfold path.segments. rewrite (split_go_lacks _ _ Hl), rev_rev_app. reflexivity.
    + rewrite <- (append_nil_l file). apply endsWith_slash_plain; assumption.
  - rewrite ?decide_False by exact Hne. change ("/" +:+ file) with (String "/" file).
    apply (normalize_plain_last file _ (path.segments dir) Hne Hdot Hdots Hl).
    + destruct dir; [congruence|]. rewrite append_cons. discriminate.
    + apply segments_slash, Hl.
    + change (String "/" file) with ("/" +:+ file). rewrite <- append_assoc.
      apply endsWith_slash_plain; assumption.
Qed.

(** The names that [getCsvFiles] keeps are names of files. *)
Lemma is_csv_name_plain (env : Env) (file : string) :
  is_csv_name env file = true -> file <> "" /\ file <> "." /\ file <> "..".
Proof.
  intros Hcsv. repeat split; intros ->; vm_compute in Hcsv; discriminate.
Qed.

(** ** getCsvFiles *)

(** X9: [getCsvFiles] fails in three ways: the directory does not exist; it
    exists and cannot be listed (the error of [readdirSync] is thrown as it
    is); it is listed and has no entry whose lowercased name ends in
    [.csv].  Otherwise it returns a non-empty list, the kept entries joined
    to the directory by [path.join], in the order of the listing;
    directory entries being names without slash, the base names of the
    returned paths are the kept entries: the names that [mergeCsvFiles]
    resolves and reports. *)
Theorem getCsvFiles_outcome (env : Env) (inputDir : string) :
  (forall msg,
     getCsvFiles env inputDir = inl msg <->
     (existsSync env inputDir = false /\
      msg = "Input directory does not exist: " +:+ inputDir) \/
     (existsSync env inputDir = true /\ readdirSync env inputDir = inl msg) \/
     (existsSync env inputDir = true /\
      exists entries, readdirSync env inputDir = inr entries /\
                      List.filter (is_csv_name env) entries = [] /\
                      msg = "No CSV files found in directory: " +:+ inputDir)) /\
  forall files,
    getCsvFiles env inputDir = inr files ->
    files <> [] /\
    exists entries,
      readdirSync env inputDir = inr entries /\
      files = map (path.join inputDir) (List.filter (is_csv_name env) entries) /\
      (Forall (fun file => JsString.lacks "/" file) entries ->
       map path.basename files = List.filter (is_csv_name env) entries).
Proof.
  split.
  - intros msg. unfold getCsvFiles. fold (is_csv_name env).
    change (fun file => JsString.endsWith ".csv"
                          (JsString.toLowerCase (unicode_lower env) file))
      with (is_csv_name env).
    destruct (existsSync env inputDir); cbn [negb].
    + destruct (readdirSync env inputDir) as [e|entries].
      * split; [intros [= <-]; auto|].
        intros [[[=] _]|[[_ [= <-]]|(_ & entries & [=] & _)]]. reflexivity.
      * case_decide as Hlen; rewrite length_map in Hlen.
        -- split.
           ++ intros [= <-]. right. right. split; [reflexivity|]. exists entries.
              split; [reflexivity|]. split; [|reflexivity].
              destruct (List.filter _ _); [reflexivity|discriminate].
           ++ intros [[[=] _]|[[_ [=]]|(_ & entries' & [= <-] & _ & ->)]]. reflexivity.
        -- split; [discriminate|].
           intros [[[=] _]|[[_ [=]]|(_ & entries' & [= <-] & Hnil & _)]].
           rewrite Hnil in Hlen. contradiction.
    + split; [intros [= <-]; auto|].
      intros [[_ ->]|[[[=] _]|[[=] _]]]. reflexivity.
  - intros files Hfiles.
    apply getCsvFiles_inr in Hfiles as (_ & Hne & entries & Hread & ->).
    split; [exact Hne|]. exists entries. split; [exact Hread|].
    split; [reflexivity|]. intros Hnames. rewrite map_map.
    assert (Hsub : Forall (fun file => is_csv_name env file = true /\
                                       JsString.lacks "/" file)
                          (List.filter (is_csv_name env) entries)).
    { apply Forall_forall. intros x Hx.
      apply list_elem_of_In, filter_In in Hx as [Hx Hcsv]. split; [exact Hcsv|].
      rewrite Forall_forall in Hnames. apply Hnames, list_elem_of_In, Hx. }
    clear Hne Hnames.
    induction Hsub as [|x l [Hcsv Hl] _ IH]; [reflexivity|].
    destruct (is_csv_name_plain env x Hcsv) as (H1 & H2 & H3).
    cbn [map]. rewrite (basename_join _ _ H1 H2 H3 Hl), IH. reflexivity.
Qed.

(** ** Sample evaluations *)

Example resolve_known_prefixes :
  map (extractEnterprise two_files)
      ["ghec_orgA_data.csv"; "GHES_org_data.csv"; "Ghec-Emu_dva_data.csv";
       "inputs/ghes_x.csv"; "nounderscore.csv"; "other_org.csv";
       "constructor_org.csv"; "toString_org.csv"]
  = [inr (Str "GHEC"); inr (Str "GHES"); inr (Str "GHEC-EMU"); inr (Str "GHES");
     inl "Invalid filename format: nounderscore.csv. Expected format: enterprise_org_data.csv";
     inl "Unknown enterprise prefix: other in file other_org.csv";
     inr (Inherited "constructor");
     inl "Unknown enterprise prefix: tostring in file toString_org.csv"].
Proof. vm_compute. reflexivity. Qed.

Example join_normalizes :
  map (fun dir => path.join dir "x.csv")
      ["inputs"; "inputs/"; "./inputs"; "/data//in/../inputs/"; ""; ".."]
  = ["inputs/x.csv"; "inputs/x.csv"; "inputs/x.csv"; "/data/inputs/x.csv"; "x.csv";
     "../x.csv"].
Proof. vm_compute. reflexivity. Qed.

(** U+00A0, a space, [a b], U+2028 and U+FEFF. *)
Example trim_unicode_white_space :
  JsString.trim (utf8 [194; 160; 32; 97; 32; 98; 226; 128; 168; 239; 187; 191]) = "a b".
Proof. vm_compute. reflexivity. Qed.

Example index_keys_come_first :
  JsObject.keys
    (orderRecord {| columns := ["Org_Name"; "2024"; "7"; "__proto__"];
                    columnsToRemove := None; duplicateCheckColumns := None |}
                 [("Enterprise", Str "GHEC"); ("Org_Name", Str "acme")])
  = ["7"; "2024"; "Enterprise"; "Org_Name"].
Proof. vm_compute. reflexivity. Qed.

Example merge_two_files :
  (mergeCsvFiles two_files "inputs" two_columns initial_state).1
  = Returned
      {| success := true;
         records :=
           [[("Enterprise", Str "GHEC"); ("Org_Name", Str "orgA");
             ("Repo_Name", Str "alpha")];
            [("Enterprise", Str "GHES"); ("Org_Name", Str "orgB");
             ("Repo_Name", Str "beta"); ("Extra_Col", Str "x")]];
         totalFiles := 2; totalRecords := 2;
         errors := [unexpected_warning "inputs/ghes_orgB_data.csv" ["Extra_Col"]] |}.
Proof. vm_compute. reflexivity. Qed.

Example merge_unknown_prefix :
  (processCsvMerge one_unknown_prefix "inputs" "output" "merged_data"
                   "column-config.json" initial_state).1
  = Thrown ("Merge failed: Error processing file notes_2024.csv: " +:+
            "Unknown enterprise prefix: notes in file notes_2024.csv").
Proof. vm_compute. reflexivity. Qed.

Example merge_empty_directory :
  (processCsvMerge no_csv_file "inputs" "output" "merged_data"
                   "column-config.json" initial_state).1
  = Thrown "Merge failed: No CSV files found in directory: inputs".
Proof. vm_compute. reflexivity. Qed.

Example merge_directory_entry_dies :
  (processCsvMerge one_directory_entry "inputs" "output" "merged_data"
                   "column-config.json" initial_state).1
  = Crashed "EISDIR: illegal operation on a directory, read".
Proof. vm_compute. reflexivity. Qed.

Example merge_empty_file_hangs :
  (processCsvMerge one_empty_file "inputs" "output" "merged_data"
                   "column-config.json" initial_state).1
  = Pending.
Proof. vm_compute. reflexivity. Qed.

